(** * Integrity-check cache: decision engine, commits and cleanup sweep

    A shallow embedding of [modules/integrity_check] (determine_action.py,
    process_file.py, check_file.py, check_integrity.py, db_cleanup.py,
    lock_utils.py) as executable functions over an explicit world: the file
    system, the two SQLite tables, the advisory lock, and the external
    [ffmpeg] / [ffprobe] tools. *)

From Stdlib Require Import String Ascii ZArith Bool.
From stdpp Require Import gmap strings list fin_maps pretty.

Local Open Scope string_scope.
Local Open Scope Z_scope.

(** ** Python and SQLite values *)

(** The values that cross SQLite: NULL, TEXT and REAL.  A Python float is
    only stored, read back and compared with [==] here, so it is carried as
    an integer tick count. *)
Inductive scalar : Type :=
  | SNone
  | SStr (s : string)
  | SFloat (x : Z).

#[global] Instance scalar_eq_dec : EqDecision scalar.
Proof. solve_decision. Defined.

(** A Python value as the functions below pass them around: a scalar, or a
    flat tuple of scalars (the [update_info] tuple of process_file.py). *)
Inductive pyval : Type :=
  | PS (x : scalar)
  | PT (items : list scalar).

#[global] Instance pyval_eq_dec : EqDecision pyval.
Proof. solve_decision. Defined.

(** Python [a == b] on scalars. *)
Definition scalar_eqb (a b : scalar) : bool := bool_decide (a = b).

(** Python [v == 'literal'] for a value that may be anything. *)
Definition is_str (v : pyval) (lit : string) : bool :=
  match v with
  | PS (SStr s) => String.eqb s lit
  | _ => false
  end.

(** ** The store: two tables with the same columns (db_init.py) *)

Record row : Type := mkRow {
  file_hash : scalar;
  mtime : scalar;
  status : scalar;
  last_checked : scalar;
  codec : scalar
}.

Inductive table : Type := passed_files | failed_files.

#[global] Instance table_eq_dec : EqDecision table.
Proof. solve_decision. Defined.

(** [file_path TEXT PRIMARY KEY]: one row per path in each table. *)
Record store : Type := mkStore {
  passed : gmap string row;
  failed : gmap string row
}.

Definition rows (t : table) (s : store) : gmap string row :=
  match t with
  | passed_files => passed s
  | failed_files => failed s
  end.

Definition set_rows (t : table) (m : gmap string row) (s : store) : store :=
  match t with
  | passed_files => mkStore m (failed s)
  | failed_files => mkStore (passed s) m
  end.

(** ** The world *)

Record file : Type := mkFile {
  f_mtime : Z;
  f_bytes : string
}.

Inductive exn : Type :=
  | FileNotFoundError
  | ValueError
  | TypeError
  | InterfaceError
  | IntegrityError
  | OperationalError
  | TimeoutExpired
  | OtherError (msg : string).

(** What [subprocess.run(..., capture_output=True, text=True, timeout=_)]
    does: it completes with the two captured channels, or raises. *)
Inductive proc_result : Type :=
  | Completed (stdout stderr : string)
  | ProcRaises (e : exn).

Inductive event : Type :=
  | EvStat (p : string)
  | EvHash (p : string)
  | EvAcquire
  | EvRelease
  | EvSelect (t : table) (p : string)
  | EvFfmpeg (p : string)
  | EvFfprobe (p : string).

#[global] Instance event_eq_dec : EqDecision event.
Proof. solve_decision. Defined.

Record world : Type := mkWorld {
  fs : gmap string file;          (* files on disk *)
  db : store;                     (* committed contents of integrity_check.db *)
  lock_held : bool;               (* this process holds database.lock *)
  sql_budget : option nat;        (* sqlite3 calls left before one fails *)
  now_iso : string;               (* datetime.datetime.now().isoformat() *)
  ffmpeg : string -> proc_result;
  ffprobe : string -> proc_result;
  trace : list event              (* most recent event first *)
}.

Definition set_db (d : store) (w : world) : world :=
  mkWorld (fs w) d (lock_held w) (sql_budget w) (now_iso w) (ffmpeg w) (ffprobe w) (trace w).
Definition set_lock (b : bool) (w : world) : world :=
  mkWorld (fs w) (db w) b (sql_budget w) (now_iso w) (ffmpeg w) (ffprobe w) (trace w).
Definition set_budget (n : option nat) (w : world) : world :=
  mkWorld (fs w) (db w) (lock_held w) n (now_iso w) (ffmpeg w) (ffprobe w) (trace w).
Definition log (e : event) (w : world) : world :=
  mkWorld (fs w) (db w) (lock_held w) (sql_budget w) (now_iso w) (ffmpeg w) (ffprobe w) (e :: trace w).

(** ** Computations: state passing with exceptions

    A raised exception keeps the world reached so far (Python does not undo
    effects).  [Hang] is a call that never returns: [flock(LOCK_EX)] on a
    lock this process already holds through another descriptor. *)

Inductive result (A : Type) : Type :=
  | Ok (a : A)
  | Raise (e : exn)
  | Hang.
Arguments Ok {A} a.
Arguments Raise {A} e.
Arguments Hang {A}.

Definition M (A : Type) : Type := world -> result A * world.

Definition ret {A} (a : A) : M A := fun w => (Ok a, w).
Definition raise {A} (e : exn) : M A := fun w => (Raise e, w).

Definition bind {A B} (c : M A) (k : A -> M B) : M B :=
  fun w =>
    match c w with
    | (Ok a, w1) => k a w1
    | (Raise e, w1) => (Raise e, w1)
    | (Hang, w1) => (Hang, w1)
    end.

Notation "'let!' x ':=' c 'in' k" := (bind c (fun x => k))
  (at level 10, x pattern, c at level 200, k at level 200, only parsing).
Notation "'run!' c 'in' k" := (bind c (fun _ => k))
  (at level 10, c at level 200, k at level 200, only parsing).

(** [try: c finally: f] *)
Definition try_finally {A} (c : M A) (f : M unit) : M A :=
  fun w =>
    match c w with
    | (Ok a, w1) =>
        match f w1 with
        | (Ok _, w2) => (Ok a, w2)
        | (Raise e, w2) => (Raise e, w2)
        | (Hang, w2) => (Hang, w2)
        end
    | (Raise e, w1) =>
        match f w1 with
        | (Ok _, w2) => (Raise e, w2)
        | (Raise e', w2) => (Raise e', w2)
        | (Hang, w2) => (Hang, w2)
        end
    | (Hang, w1) => (Hang, w1)
    end.

(** [try: c except ...: h e]; [h e = None] when no clause matches [e]. *)
Definition try_except {A} (c : M A) (h : exn -> option (M A)) : M A :=
  fun w =>
    match c w with
    | (Raise e, w1) =>
        match h e with
        | Some k => k w1
        | None => (Raise e, w1)
        end
    | r => r
    end.

Definition emit (e : event) : M unit := fun w => (Ok tt, log e w).

(** ** lock_utils.py *)

Definition acquire_lock : M unit :=
  fun w =>
    if lock_held w then (Hang, w)
    else (Ok tt, log EvAcquire (set_lock true w)).

Definition release_lock : M unit :=
  fun w => (Ok tt, log EvRelease (set_lock false w)).

(** ** File system *)

(** [os.path.getmtime] *)
Definition getmtime (file_path : string) : M Z :=
  run! emit (EvStat file_path) in
  fun w =>
    match fs w !! file_path with
    | Some f => (Ok (f_mtime f), w)
    | None => (Raise FileNotFoundError, w)
    end.

(** [os.path.exists] *)
Definition path_exists (file_path : string) : M bool :=
  fun w => (Ok (bool_decide (is_Some (fs w !! file_path))), w).

(** ** Python strings: [str.strip()], [str.lower()] on ASCII text *)

Definition is_space (c : ascii) : bool :=
  let n := nat_of_ascii c in
  ((9 <=? n) && (n <=? 13) || (28 <=? n) && (n <=? 32))%nat.

Fixpoint lstrip (s : string) : string :=
  match s with
  | EmptyString => EmptyString
  | String c s' => if is_space c then lstrip s' else s
  end.

Fixpoint rstrip (s : string) : string :=
  match s with
  | EmptyString => EmptyString
  | String c s' =>
      match rstrip s' with
      | EmptyString => if is_space c then EmptyString else String c EmptyString
      | r => String c r
      end
  end.

Definition py_strip (s : string) : string := rstrip (lstrip s).

Definition lower_char (c : ascii) : ascii :=
  let n := nat_of_ascii c in
  if ((65 <=? n) && (n <=? 90))%nat then ascii_of_nat (n + 32) else c.

Fixpoint py_lower (s : string) : string :=
  match s with
  | EmptyString => EmptyString
  | String c s' => String (lower_char c) (py_lower s')
  end.

(** Python truthiness of a [str]: [not s] *)
Definition py_not (s : string) : bool :=
  match s with
  | EmptyString => true
  | _ => false
  end.

(** [str(e)] for the exceptions of the model *)
Definition exn_str (e : exn) : string :=
  match e with
  | FileNotFoundError => "[Errno 2] No such file or directory"
  | ValueError => "ValueError"
  | TypeError => "TypeError"
  | InterfaceError => "Error binding parameter"
  | IntegrityError => "NOT NULL constraint failed"
  | OperationalError => "database is locked"
  | TimeoutExpired => "Command timed out"
  | OtherError msg => msg
  end.

(** ** check_file.py *)

Definition codec_map : list (string * (string * string)) :=
  [ ("mpeg layer 3", ("mp3", "lossy"));
    ("mpeg-1 layer 3", ("mp3", "lossy"));
    ("mpeg-2 layer 3", ("mp3", "lossy"));
    ("mp3", ("mp3", "lossy"));
    ("mp3float", ("mp3", "lossy"));
    ("aac", ("aac", "lossy"));
    ("aac-lc", ("aac", "lossy"));
    ("aac-ld", ("aac", "lossy"));
    ("aac-he", ("aac", "lossy"));
    ("aac-hev2", ("aac", "lossy"));
    ("aac_latm", ("aac", "lossy"));
    ("vorbis", ("ogg", "lossy"));
    ("libvorbis", ("ogg", "lossy"));
    ("ogg", ("ogg", "lossy"));
    ("opus", ("opus", "lossy"));
    ("libopus", ("opus", "lossy"));
    ("flac", ("flac", "lossless"));
    ("libflac", ("flac", "lossless"));
    ("alac", ("alac", "lossless"));
    ("apl", ("alac", "lossless"));
    ("wavpack", ("wv", "lossless"));
    ("wv", ("wv", "lossless"));
    ("wav", ("wav", "lossless"));
    ("pcm", ("pcm", "lossless"));
    ("pcm_s16le", ("pcm", "lossless"));
    ("pcm_s24le", ("pcm", "lossless"));
    ("pcm_s32le", ("pcm", "lossless"));
    ("pcm_f32le", ("pcm", "lossless"));
    ("ape", ("ape", "lossless"));
    ("wma", ("wma", "lossy"));
    ("wmav1", ("wma", "lossy"));
    ("wmav2", ("wma", "lossy"));
    ("ac3", ("ac3", "lossy"));
    ("eac3", ("eac3", "lossy"));
    ("dts", ("dts", "lossy"));
    ("truehd", ("truehd", "lossless")) ].

Fixpoint dict_get {V} (d : list (string * V)) (k : string) (default : V) : V :=
  match d with
  | [] => default
  | (k', v) :: d' => if String.eqb k' k then v else dict_get d' k default
  end.

Definition normalize_codec (codec : string) : string * string :=
  let codec := py_strip (py_lower codec) in
  dict_get codec_map codec (codec, "unknown").

Arguments normalize_codec : simpl never.
Arguments py_strip : simpl never.
Arguments exn_str : simpl never.

(** [subprocess.run] of one of the two tools *)
Definition run_ffmpeg (file_path : string) : M (string * string) :=
  run! emit (EvFfmpeg file_path) in
  fun w =>
    match ffmpeg w file_path with
    | Completed out err => (Ok (out, err), w)
    | ProcRaises e => (Raise e, w)
    end.

Definition run_ffprobe (file_path : string) : M (string * string) :=
  run! emit (EvFfprobe file_path) in
  fun w =>
    match ffprobe w file_path with
    | Completed out err => (Ok (out, err), w)
    | ProcRaises e => (Raise e, w)
    end.

Definition get_codec (file_path : string) : M string :=
  try_except
    (let! result := run_ffprobe file_path in
     let codec := if py_not (fst result) then "unknown" else py_strip (fst result) in
     let '(normalized_codec, _) := normalize_codec codec in
     ret normalized_codec)
    (fun _ => Some (ret "unknown")).

(** Returns [(status, message, file_path, codec)]. *)
Definition check_single_file (file_path : string)
  : M (string * string * string * string) :=
  try_except
    (let! result := run_ffmpeg file_path in
     let! codec := get_codec file_path in
     let stderr := snd result in
     let status := if py_not stderr then "PASSED" else "FAILED" in
     let message := if py_not stderr then "" else py_strip stderr in
     ret (status, message, file_path, codec))
    (fun e =>
       match e with
       | TimeoutExpired => Some (ret ("FAILED", "FFmpeg timed out", file_path, "unknown"))
       | _ => Some (ret ("FAILED", exn_str e, file_path, "unknown"))
       end).

Section Engine.

#[local] Set Default Proof Using "Type".

(** The digest of [file_hash.calculate_file_hash] (the module is imported by
    determine_action.py; a hex digest of the file's bytes). *)
Variable digest : string -> string.

(** SQLite's column affinity: how a REAL is rendered when it meets a TEXT
    column, and which TEXT values a REAL column turns into numbers. *)
Variable real_text : Z -> string.
Variable text_real : string -> option Z.

Definition text_affinity (v : scalar) : scalar :=
  match v with
  | SFloat x => SStr (real_text x)
  | _ => v
  end.

Definition real_affinity (v : scalar) : scalar :=
  match v with
  | SStr s => match text_real s with Some x => SFloat x | None => v end
  | _ => v
  end.

(** The row addressed by [WHERE file_path = ?]: the parameter is compared
    as TEXT, and NULL equals nothing. *)
Definition where_path (v : scalar) : option string :=
  match text_affinity v with
  | SStr s => Some s
  | _ => None
  end.

(** ** sqlite3 *)

(** Every call into sqlite3 can raise [OperationalError] (busy database,
    disk error); the budget says after how many calls one does. *)
Definition sql_call : M unit :=
  fun w =>
    match sql_budget w with
    | None => (Ok tt, w)
    | Some O => (Raise OperationalError, w)
    | Some (S n) => (Ok tt, set_budget (Some n) w)
    end.

(** [sqlite3.connect]: the connection's view starts as the committed store;
    statements change the view, [conn.commit()] publishes it, and a
    connection dropped without commit publishes nothing. *)
Definition sql_connect : M store :=
  run! sql_call in (fun w => (Ok (db w), w)).

Definition sql_commit (conn : store) : M unit :=
  run! sql_call in (fun w => (Ok tt, set_db conn w)).

(** Binding a parameter: sqlite3 refuses a tuple. *)
Definition bind_param (v : pyval) : M scalar :=
  match v with
  | PS x => ret x
  | PT _ => raise InterfaceError
  end.

(** [SELECT status, file_hash, mtime FROM t WHERE file_path = ?] then
    [fetchone()] *)
Definition sql_select (conn : store) (t : table) (file_path : string)
  : M (option (scalar * scalar * scalar)) :=
  run! sql_call in
  run! emit (EvSelect t file_path) in
  ret ((fun r => (status r, file_hash r, mtime r)) <$> rows t conn !! file_path).

(** [SELECT file_path FROM t] then [fetchall()] *)
Definition sql_select_paths (conn : store) (t : table) : M (list string) :=
  run! sql_call in ret ((map_to_list (rows t conn)).*1).

Definition set_mtime (m : scalar) (r : row) : row :=
  mkRow (file_hash r) m (status r) (last_checked r) (codec r).

(** [UPDATE t SET mtime = ? WHERE file_path = ?], parameters in the order
    of the question marks. *)
Definition sql_update_mtime (t : table) (p1 p2 : pyval) (conn : store) : M store :=
  let! new_mtime := bind_param p1 in
  let! path := bind_param p2 in
  run! sql_call in
  match where_path path with
  | Some k =>
      ret (set_rows t (alter (set_mtime (real_affinity new_mtime)) k (rows t conn)) conn)
  | None => ret conn
  end.

(** [DELETE FROM t WHERE file_path = ?] *)
Definition sql_delete (t : table) (p1 : pyval) (conn : store) : M store :=
  let! path := bind_param p1 in
  run! sql_call in
  match where_path path with
  | Some k => ret (set_rows t (delete k (rows t conn)) conn)
  | None => ret conn
  end.

(** [INSERT OR REPLACE INTO t (file_path, file_hash, mtime, status,
    last_checked, codec) VALUES (?, ?, ?, ?, ?, ?)].  The tables of the model
    are keyed by TEXT paths; a NULL path, which no caller binds, is refused. *)
Definition sql_insert_or_replace (t : table) (p1 p2 p3 p4 p5 p6 : scalar)
    (conn : store) : M store :=
  run! sql_call in
  match where_path p1 with
  | Some k =>
      let r := mkRow (text_affinity p2) (real_affinity p3) (text_affinity p4)
                     (text_affinity p5) (text_affinity p6) in
      ret (set_rows t (<[k := r]> (rows t conn)) conn)
  | None => raise IntegrityError
  end.

Definition calculate_file_hash (file_path : string) : M string :=
  run! emit (EvHash file_path) in
  fun w =>
    match fs w !! file_path with
    | Some f => (Ok (digest (f_bytes f)), w)
    | None => (Raise FileNotFoundError, w)
    end.

(** ** determine_action.py *)

Definition only_file_not_found {A} (k : M A) (e : exn) : option (M A) :=
  match e with
  | FileNotFoundError => Some k
  | _ => None
  end.

(** The body of [for table in ['passed_files', 'failed_files']: ...] and the
    statements after the loop (lines 26-44).  [conn.close()] has no effect
    on the committed store. *)
Fixpoint scan_tables (conn : store) (file_path : string) (current_mtime : Z)
    (tables : list table) : M (list scalar) :=
  match tables with
  | [] =>
      let! current_hash := calculate_file_hash file_path in
      ret [SStr "RUN_FFMPEG"; SNone; SStr current_hash; SFloat current_mtime]
  | t :: rest =>
      let! result := sql_select conn t file_path in
      match result with
      | Some (stored_status, stored_hash, stored_mtime) =>
          if scalar_eqb stored_mtime (SFloat current_mtime) then
            ret [SStr "USE_CACHED"; stored_status; SNone; SFloat current_mtime]
          else
            let! current_hash := calculate_file_hash file_path in
            if scalar_eqb stored_hash (SStr current_hash) then
              ret [SStr "UPDATE_MTIME"; stored_status; SStr current_hash;
                   SFloat current_mtime]
            else
              ret [SStr "RUN_FFMPEG"; SNone; SStr current_hash;
                   SFloat current_mtime]
      | None => scan_tables conn file_path current_mtime rest
      end
  end.

Definition file_not_found : list scalar :=
  [SStr "FILE_NOT_FOUND"; SNone; SNone; SNone].

Definition determine_action (file_path : string) (force_recheck : bool)
  : M (list scalar) :=
  if force_recheck then
    try_except
      (let! current_mtime := getmtime file_path in
       let! current_hash := calculate_file_hash file_path in
       ret [SStr "RUN_FFMPEG"; SNone; SStr current_hash; SFloat current_mtime])
      (only_file_not_found (ret file_not_found))
  else
    let! stat :=
      try_except
        (let! current_mtime := getmtime file_path in ret (Some current_mtime))
        (only_file_not_found (ret None)) in
    match stat with
    | None => ret file_not_found
    | Some current_mtime =>
        run! acquire_lock in
        try_finally
          (let! conn := sql_connect in
           scan_tables conn file_path current_mtime [passed_files; failed_files])
          release_lock
    end.

(** ** process_file.py *)

Definition scalar_is (v : scalar) (lit : string) : bool := is_str (PS v) lit.

(** Returns a 5-tuple [(action, status, message, file_path, extra)] on the
    three known actions, and the 4-tuple of line 17 otherwise. *)
Definition process_file (file_path : string) (force_recheck : bool)
  : M (list pyval) :=
  let! decision := determine_action file_path force_recheck in
  match decision with
  | [action; stored_status; current_hash; current_mtime] =>
      if scalar_is action "USE_CACHED" then
        ret [PS (SStr "USE_CACHED"); PS stored_status; PS (SStr "Cached result");
             PS (SStr file_path); PS SNone]
      else if scalar_is action "UPDATE_MTIME" then
        ret [PS (SStr "UPDATE_MTIME"); PS stored_status;
             PS (SStr "Cached result (hash matches)"); PS (SStr file_path);
             PS current_mtime]
      else if scalar_is action "RUN_FFMPEG" then
        let! checked := check_single_file file_path in
        let '(status, message, _, codec) := checked in
        let update_info :=
          PT [SStr file_path; current_hash; current_mtime; SStr status; SStr codec] in
        ret [PS (SStr "RUN_FFMPEG"); PS (SStr status); PS (SStr message);
             PS (SStr file_path); update_info]
      else
        ret [PS (SStr "ERROR"); PS (SStr "Unknown action"); PS (SStr file_path);
             PS SNone]
  | _ => raise ValueError
  end.

(** ** check_integrity.py *)

(** The items a tuple assignment [a, b, ... = v] iterates over: a tuple's
    items, a string's characters; None and floats are not iterable. *)
Definition tuple_items (v : pyval) : M (list scalar) :=
  match v with
  | PT items => ret items
  | PS (SStr s) => ret ((fun c => SStr (String c EmptyString)) <$> list_ascii_of_string s)
  | PS _ => raise TypeError
  end.

Definition datetime_now : M string := fun w => (Ok (now_iso w), w).

Definition table_of (status : pyval) : table :=
  if is_str status "PASSED" then passed_files else failed_files.

Definition other_table (t : table) : table :=
  match t with
  | passed_files => failed_files
  | failed_files => passed_files
  end.

(** Lines 69-78: the commit of an UPDATE_MTIME result in the verbose loop. *)
Definition commit_update_mtime (status extra : pyval) (file_path : string) : M unit :=
  run! acquire_lock in
  try_finally
    (let! conn := sql_connect in
     let! conn := sql_update_mtime (table_of status) extra (PS (SStr file_path)) conn in
     sql_commit conn)
    release_lock.

(** Lines 80-98: the commit of a RUN_FFMPEG result in the verbose loop. *)
Definition commit_run_ffmpeg (extra : pyval) : M unit :=
  run! acquire_lock in
  try_finally
    (let! conn := sql_connect in
     let! items := tuple_items extra in
     match items with
     | [file_path; file_hash; mtime; status; codec] =>
         let t := table_of (PS status) in
         let! conn := sql_delete (other_table t) (PS file_path) conn in
         let! now := datetime_now in
         let! conn := sql_insert_or_replace t file_path file_hash mtime status
                        (SStr now) codec conn in
         sql_commit conn
     | _ => raise ValueError
     end)
    release_lock.

Definition result_row : Type := pyval * pyval * pyval.

(** Lines 59-98, without the printing and the log files. *)
Fixpoint verbose_loop (force_recheck : bool) (audio_files : list string)
    (all_results : list result_row) : M (list result_row) :=
  match audio_files with
  | [] => ret all_results
  | file_path :: rest =>
      let! result := process_file file_path force_recheck in
      match result with
      | [action; status; message; _; extra] =>
          let all_results :=
            if is_str action "USE_CACHED" || is_str action "UPDATE_MTIME"
               || is_str action "RUN_FFMPEG"
            then (all_results ++ [(status, message, PS (SStr file_path))])%list
            else all_results in
          run! (if is_str action "UPDATE_MTIME" then
                  commit_update_mtime status extra file_path
                else if is_str action "RUN_FFMPEG" then
                  commit_run_ffmpeg extra
                else ret tt) in
          verbose_loop force_recheck rest all_results
      | _ => raise ValueError
      end
  end.

(** The lists the pool loop accumulates between commits (lines 100-105). *)
Record pending : Type := mkPending {
  all_results : list result_row;
  mtime_updates_passed : list (pyval * pyval);
  mtime_updates_failed : list (pyval * pyval);
  db_updates_passed : list pyval;
  db_updates_failed : list pyval;
  processed_count : nat
}.

Definition no_pending : pending := mkPending [] [] [] [] [] 0.

(** [cursor.executemany("UPDATE t SET mtime = ? WHERE file_path = ?", l)] *)
Fixpoint executemany_update (t : table) (l : list (pyval * pyval)) (conn : store)
  : M store :=
  match l with
  | [] => ret conn
  | (p1, p2) :: rest =>
      let! conn := sql_update_mtime t p1 p2 conn in
      executemany_update t rest conn
  end.

(** [for file_path, _, _, _ in updates: cursor.execute("DELETE FROM t ...")] *)
Fixpoint delete_each (t : table) (updates : list pyval) (conn : store) : M store :=
  match updates with
  | [] => ret conn
  | u :: rest =>
      let! items := tuple_items u in
      match items with
      | [file_path; _; _; _] =>
          let! conn := sql_delete t (PS file_path) conn in
          delete_each t rest conn
      | _ => raise ValueError
      end
  end.

Definition insert_params : Type := scalar * scalar * scalar * scalar * scalar * scalar.

(** [[(fp, fh, mt, st, datetime.datetime.now().isoformat(), codec)
      for fp, fh, mt, st, codec in updates]] *)
Fixpoint insert_rows (updates : list pyval) : M (list insert_params) :=
  match updates with
  | [] => ret []
  | u :: rest =>
      let! items := tuple_items u in
      match items with
      | [fp; fh; mt; st; codec] =>
          let! now := datetime_now in
          let! tl := insert_rows rest in
          ret ((fp, fh, mt, st, SStr now, codec) :: tl)
      | _ => raise ValueError
      end
  end.

Fixpoint executemany_insert (t : table) (l : list insert_params) (conn : store)
  : M store :=
  match l with
  | [] => ret conn
  | (fp, fh, mt, st, now, codec) :: rest =>
      let! conn := sql_insert_or_replace t fp fh mt st now codec conn in
      executemany_insert t rest conn
  end.

(** [if updates: for ... DELETE FROM other ...; executemany(INSERT OR REPLACE
    INTO t ...)] *)
Definition flush_db_updates (t : table) (updates : list pyval) (conn : store)
  : M store :=
  match updates with
  | [] => ret conn
  | _ =>
      let! conn := delete_each (other_table t) updates conn in
      let! params := insert_rows updates in
      executemany_insert t params conn
  end.

(** Lines 134-167 and 170-199: one batch transaction under the lock. *)
Definition batch_commit (st : pending) : M unit :=
  run! acquire_lock in
  try_finally
    (let! conn := sql_connect in
     let! conn := executemany_update passed_files (mtime_updates_passed st) conn in
     let! conn := executemany_update failed_files (mtime_updates_failed st) conn in
     let! conn := flush_db_updates passed_files (db_updates_passed st) conn in
     let! conn := flush_db_updates failed_files (db_updates_failed st) conn in
     sql_commit conn)
    release_lock.

(** Lines 112-131: one completed future. *)
Definition collect (result : list pyval) (st : pending) : M pending :=
  match result with
  | [action; status; message; file_path; extra] =>
      let count := S (processed_count st) in
      if is_str action "USE_CACHED" then
        ret (mkPending (all_results st ++ [(status, message, file_path)])%list
               (mtime_updates_passed st) (mtime_updates_failed st)
               (db_updates_passed st) (db_updates_failed st) count)
      else if is_str action "UPDATE_MTIME" then
        if is_str status "PASSED" then
          ret (mkPending (all_results st ++ [(status, message, file_path)])%list
                 (mtime_updates_passed st ++ [(file_path, extra)])%list
                 (mtime_updates_failed st)
                 (db_updates_passed st) (db_updates_failed st) count)
        else
          ret (mkPending (all_results st ++ [(status, message, file_path)])%list
                 (mtime_updates_passed st)
                 (mtime_updates_failed st ++ [(file_path, extra)])%list
                 (db_updates_passed st) (db_updates_failed st) count)
      else if is_str action "RUN_FFMPEG" then
        if is_str status "PASSED" then
          ret (mkPending (all_results st ++ [(status, message, file_path)])%list
                 (mtime_updates_passed st) (mtime_updates_failed st)
                 (db_updates_passed st ++ [extra])%list (db_updates_failed st) count)
        else
          ret (mkPending (all_results st ++ [(status, message, file_path)])%list
                 (mtime_updates_passed st) (mtime_updates_failed st)
                 (db_updates_passed st) (db_updates_failed st ++ [extra])%list count)
      else
        ret (mkPending (all_results st) (mtime_updates_passed st)
               (mtime_updates_failed st) (db_updates_passed st)
               (db_updates_failed st) count)
  | _ => raise ValueError
  end.

Definition flushed (st : pending) : pending :=
  mkPending (all_results st) [] [] [] [] (processed_count st).

Definition has_pending (st : pending) : bool :=
  negb (bool_decide (mtime_updates_passed st = []))
  || negb (bool_decide (mtime_updates_failed st = []))
  || negb (bool_decide (db_updates_passed st = []))
  || negb (bool_decide (db_updates_failed st = [])).

(** Lines 107-167.  The futures complete in some order; [completed] lists the
    paths in that order, and each worker's [process_file] is taken at the
    moment its result is collected. *)
Fixpoint pool_loop (force_recheck : bool) (completed : list string) (st : pending)
  : M pending :=
  match completed with
  | [] => ret st
  | file :: rest =>
      let! result := process_file file force_recheck in
      let! st := collect result st in
      let! st := (if (processed_count st mod 100 =? 0)%nat
                  then run! batch_commit st in ret (flushed st)
                  else ret st) in
      pool_loop force_recheck rest st
  end.

(** ** db_cleanup.py *)

Fixpoint sweep_paths (t : table) (paths : list string) (conn : store) : M store :=
  match paths with
  | [] => ret conn
  | file_path :: rest =>
      let! found := path_exists file_path in
      let! conn := (if negb found then sql_delete t (PS (SStr file_path)) conn
                    else ret conn) in
      sweep_paths t rest conn
  end.

Definition sweep_table (t : table) (conn : store) : M store :=
  let! paths := sql_select_paths conn t in
  sweep_paths t paths conn.

Definition cleanup_database : M unit :=
  run! acquire_lock in
  try_finally
    (let! conn := sql_connect in
     let! conn := sweep_table passed_files conn in
     let! conn := sweep_table failed_files conn in
     sql_commit conn)
    release_lock.

(** ** check_integrity: lines 56-201

    The run over the discovered [audio_files], without the console output,
    the log files and the summary: the per-file loop (verbose) or the pool
    loop with its batch commits, then the cleanup sweep. *)
Definition check_integrity (audio_files : list string) (verbose force_recheck : bool)
  : M (list result_row) :=
  let! results :=
    (if verbose then verbose_loop force_recheck audio_files []
     else
       let! st := pool_loop force_recheck audio_files no_pending in
       run! (if has_pending st then batch_commit st else ret tt) in
       ret (all_results st)) in
  run! cleanup_database in
  ret results.

(** ** The policy of the specification

    The four actions of the decision engine and the invalidation policy, as
    the specification words them; [action_of] reads the tuple that
    [determine_action] returns as one of them. *)

Inductive Action : Type :=
  | RUN
  | USE_CACHED (outcome : scalar)
  | REFRESH (outcome : scalar) (fingerprint : string) (current_mtime : Z)
  | NOT_FOUND.

Definition decide_spec (record : option row) (current_mtime : Z)
    (current_fingerprint : string) : Action :=
  match record with
  | None => RUN
  | Some r =>
      if decide (mtime r = SFloat current_mtime) then USE_CACHED (status r)
      else if decide (file_hash r = SStr current_fingerprint) then
        REFRESH (status r) current_fingerprint current_mtime
      else RUN
  end.

Definition action_of (t : list scalar) : option Action :=
  match t with
  | [SStr a; outcome; h; m] =>
      if String.eqb a "RUN_FFMPEG" then Some RUN
      else if String.eqb a "USE_CACHED" then Some (USE_CACHED outcome)
      else if String.eqb a "UPDATE_MTIME" then
        match h, m with
        | SStr h, SFloat m => Some (REFRESH outcome h m)
        | _, _ => None
        end
      else if String.eqb a "FILE_NOT_FOUND" then Some NOT_FOUND
      else None
  | _ => None
  end.

(** The record a decision is based on: the passed partition is looked up
    first. *)
Definition lookup_record (s : store) (file_path : string) : option row :=
  match passed s !! file_path with
  | Some r => Some r
  | None => failed s !! file_path
  end.

(** Counting events of a trace. *)
Definition count_event (e : event) (w : world) : nat :=
  length (filter (fun e' => e' = e) (trace w)).

(** ** Basic facts about the primitives *)

Lemma sql_call_ok w : sql_budget w = None -> sql_call w = (Ok tt, w).
Proof. intros H. unfold sql_call. by rewrite H. Qed.

Lemma count_event_log e e' w :
  count_event e (log e' w) = ((if decide (e' = e) then 1 else 0) + count_event e w)%nat.
Proof.
  unfold count_event, log. cbn [trace]. rewrite filter_cons.
  destruct (decide (e' = e)); reflexivity.
Qed.

Lemma getmtime_found file_path f w :
  fs w !! file_path = Some f ->
  getmtime file_path w = (Ok (f_mtime f), log (EvStat file_path) w).
Proof. intros H. unfold getmtime, bind, emit. cbn. by rewrite H. Qed.

Lemma getmtime_missing file_path w :
  fs w !! file_path = None ->
  getmtime file_path w = (Raise FileNotFoundError, log (EvStat file_path) w).
Proof. intros H. unfold getmtime, bind, emit. cbn. by rewrite H. Qed.

Lemma calculate_file_hash_found file_path f w :
  fs w !! file_path = Some f ->
  calculate_file_hash file_path w
  = (Ok (digest (f_bytes f)), log (EvHash file_path) w).
Proof. intros H. unfold calculate_file_hash, bind, emit. cbn. by rewrite H. Qed.

(** ** The verifier adapter *)

Lemma get_codec_total file_path w :
  exists c, get_codec file_path w = (Ok c, log (EvFfprobe file_path) w).
Proof.
  unfold get_codec, try_except, run_ffprobe, bind, emit, ret. cbn.
  destruct (ffprobe w file_path) as [out err | e]; cbn.
  - destruct (normalize_codec _) as [n ?]. by exists n.
  - by exists "unknown".
Qed.

(** What [check_single_file] is to return, by the outcome of the tool. *)
Definition classify (file_path : string) (tool : proc_result) (probed : string)
  : string * string * string * string :=
  match tool with
  | Completed _ "" => ("PASSED", "", file_path, probed)
  | Completed _ stderr => ("FAILED", py_strip stderr, file_path, probed)
  | ProcRaises TimeoutExpired => ("FAILED", "FFmpeg timed out", file_path, "unknown")
  | ProcRaises e => ("FAILED", exn_str e, file_path, "unknown")
  end.

Lemma check_single_file_spec file_path w :
  exists probed w',
    check_single_file file_path w = (Ok (classify file_path (ffmpeg w file_path) probed), w')
    /\ db w' = db w /\ fs w' = fs w /\ lock_held w' = lock_held w
    /\ sql_budget w' = sql_budget w
    /\ count_event (EvFfmpeg file_path) w' = S (count_event (EvFfmpeg file_path) w).
Proof.
  unfold check_single_file, try_except, run_ffmpeg, bind, emit, ret. cbn.
  destruct (ffmpeg w file_path) as [out err | e] eqn:Hff; cbn.
  - destruct (get_codec_total file_path (log (EvFfmpeg file_path) w)) as [c Hc].
    rewrite Hc. exists c. eexists. split.
    + destruct err; reflexivity.
    + rewrite !count_event_log.
      rewrite decide_False by discriminate. rewrite decide_True by done.
      done.
  - exists "unknown". eexists. split.
    + destruct e; reflexivity.
    + rewrite count_event_log, decide_True by done. by destruct e.
Qed.

(** ** The decision engine *)

(** Two worlds that differ in their trace only. *)
Definition same_state (w w' : world) : Prop :=
  fs w' = fs w /\ db w' = db w /\ lock_held w' = lock_held w
  /\ sql_budget w' = sql_budget w /\ now_iso w' = now_iso w
  /\ ffmpeg w' = ffmpeg w /\ ffprobe w' = ffprobe w.

Lemma same_state_refl w : same_state w w.
Proof. by repeat split. Qed.

Lemma same_state_trans w1 w2 w3 :
  same_state w1 w2 -> same_state w2 w3 -> same_state w1 w3.
Proof. unfold same_state. intros ? ?. intuition congruence. Qed.

Lemma same_state_log e w w' : same_state w w' -> same_state w (log e w').
Proof. by unfold same_state, log. Qed.

(** The tuple the non-forced decision returns for a present file. *)
Definition decision_tuple (record : option row) (current_mtime : Z)
    (current_hash : string) : list scalar :=
  match record with
  | None => [SStr "RUN_FFMPEG"; SNone; SStr current_hash; SFloat current_mtime]
  | Some r =>
      if decide (mtime r = SFloat current_mtime) then
        [SStr "USE_CACHED"; status r; SNone; SFloat current_mtime]
      else if decide (file_hash r = SStr current_hash) then
        [SStr "UPDATE_MTIME"; status r; SStr current_hash; SFloat current_mtime]
      else [SStr "RUN_FFMPEG"; SNone; SStr current_hash; SFloat current_mtime]
  end.

Lemma action_of_decision_tuple record m h :
  action_of (decision_tuple record m h) = Some (decide_spec record m h).
Proof.
  unfold decision_tuple, decide_spec. destruct record as [r|]; [|done].
  repeat case_decide; done.
Qed.

Lemma sql_connect_ok w : sql_budget w = None -> sql_connect w = (Ok (db w), w).
Proof. intros H. unfold sql_connect, bind. by rewrite sql_call_ok. Qed.

Lemma sql_commit_ok conn w :
  sql_budget w = None -> sql_commit conn w = (Ok tt, set_db conn w).
Proof. intros H. unfold sql_commit, bind. by rewrite sql_call_ok. Qed.

Lemma sql_select_ok conn t file_path w :
  sql_budget w = None ->
  sql_select conn t file_path w
  = (Ok ((fun r => (status r, file_hash r, mtime r)) <$> rows t conn !! file_path),
     log (EvSelect t file_path) w).
Proof. intros H. unfold sql_select, bind, emit, ret. by rewrite sql_call_ok. Qed.

(** The events of the table scan, most recent first. *)
Definition scan_events (s : store) (file_path : string) (current_mtime : Z)
  : list event :=
  match passed s !! file_path with
  | Some r =>
      if decide (mtime r = SFloat current_mtime) then
        [EvSelect passed_files file_path]
      else [EvHash file_path; EvSelect passed_files file_path]
  | None =>
      match failed s !! file_path with
      | Some r =>
          if decide (mtime r = SFloat current_mtime) then
            [EvSelect failed_files file_path; EvSelect passed_files file_path]
          else
            [EvHash file_path; EvSelect failed_files file_path;
             EvSelect passed_files file_path]
      | None =>
          [EvHash file_path; EvSelect failed_files file_path;
           EvSelect passed_files file_path]
      end
  end.

Lemma scan_row_spec (r : row) file_path f w :
  fs w !! file_path = Some f ->
  exists w',
    (if scalar_eqb (mtime r) (SFloat (f_mtime f)) then
       ret [SStr "USE_CACHED"; status r; SNone; SFloat (f_mtime f)]
     else
       let! current_hash := calculate_file_hash file_path in
       if scalar_eqb (file_hash r) (SStr current_hash) then
         ret [SStr "UPDATE_MTIME"; status r; SStr current_hash; SFloat (f_mtime f)]
       else
         ret [SStr "RUN_FFMPEG"; SNone; SStr current_hash; SFloat (f_mtime f)]) w
    = (Ok (decision_tuple (Some r) (f_mtime f) (digest (f_bytes f))), w')
    /\ same_state w w'
    /\ trace w' = ((if decide (mtime r = SFloat (f_mtime f)) then []
                    else [EvHash file_path]) ++ trace w)%list.
Proof.
  intros Hf. unfold decision_tuple, scalar_eqb.
  destruct (decide (mtime r = SFloat (f_mtime f))) as [Hm|Hm].
  - rewrite bool_decide_eq_true_2 by done.
    exists w. split; [done|]. split; [apply same_state_refl|done].
  - rewrite bool_decide_eq_false_2 by done.
    unfold bind. rewrite (calculate_file_hash_found _ f) by done.
    exists (log (EvHash file_path) w).
    split; [|split; [apply same_state_log, same_state_refl|done]].
    destruct (decide (file_hash r = SStr (digest (f_bytes f)))).
    + by rewrite bool_decide_eq_true_2.
    + by rewrite bool_decide_eq_false_2.
Qed.

Lemma scan_tables_spec conn file_path f w :
  fs w !! file_path = Some f ->
  sql_budget w = None ->
  exists w',
    scan_tables conn file_path (f_mtime f) [passed_files; failed_files] w
    = (Ok (decision_tuple (lookup_record conn file_path) (f_mtime f)
             (digest (f_bytes f))), w')
    /\ same_state w w'
    /\ trace w' = (scan_events conn file_path (f_mtime f) ++ trace w)%list.
Proof.
  intros Hf Hb. cbn [scan_tables]. unfold bind at 1.
  rewrite sql_select_ok by done. cbn [rows].
  unfold lookup_record, scan_events.
  destruct (passed conn !! file_path) as [rp|] eqn:Hp; cbn [fmap option_fmap option_map].
  - destruct (scan_row_spec rp file_path f (log (EvSelect passed_files file_path) w))
      as (w' & -> & Hs & Ht); [done|].
    exists w'. split; [done|]. split.
    + eapply same_state_trans; [|exact Hs]. apply same_state_log, same_state_refl.
    + rewrite Ht. by destruct (decide _).
  - unfold bind at 1. rewrite sql_select_ok by done. cbn [rows].
    destruct (failed conn !! file_path) as [rf|] eqn:Hfl;
      cbn [fmap option_fmap option_map].
    + destruct (scan_row_spec rf file_path f
                  (log (EvSelect failed_files file_path)
                     (log (EvSelect passed_files file_path) w)))
        as (w' & -> & Hs & Ht); [done|].
      exists w'. split; [done|]. split.
      * eapply same_state_trans; [|exact Hs].
        apply same_state_log, same_state_log, same_state_refl.
      * rewrite Ht. by destruct (decide _).
    + unfold bind. rewrite (calculate_file_hash_found _ f) by done.
      eexists. split; [reflexivity|]. split; [|done].
      do 3 apply same_state_log. apply same_state_refl.
Qed.

Lemma determine_action_present file_path f w :
  fs w !! file_path = Some f ->
  lock_held w = false ->
  sql_budget w = None ->
  exists w',
    determine_action file_path false w
    = (Ok (decision_tuple (lookup_record (db w) file_path) (f_mtime f)
             (digest (f_bytes f))), w')
    /\ same_state w w'
    /\ trace w' = ((EvRelease :: scan_events (db w) file_path (f_mtime f)
                    ++ [EvAcquire; EvStat file_path]) ++ trace w)%list.
Proof.
  intros Hf Hl Hb.
  unfold determine_action, try_except, bind.
  rewrite (getmtime_found _ f) by done. cbn [ret].
  unfold acquire_lock. cbn [lock_held log]. rewrite Hl.
  unfold try_finally, bind. rewrite sql_connect_ok by done.
  destruct (scan_tables_spec (db w) file_path f
              (log EvAcquire (set_lock true (log (EvStat file_path) w))))
    as (w' & Hscan & Hs & Ht); [done..|].
  cbn [db log set_lock] in Hscan |- *. rewrite Hscan.
  unfold release_lock.
  eexists. split; [reflexivity|]. split.
  - destruct Hs as (? & ? & ? & ? & ? & ? & ?). unfold same_state. cbn in *.
    repeat split; congruence.
  - cbn [trace log set_lock]. rewrite Ht. cbn [trace log set_lock].
    cbn [app]. by rewrite <- app_assoc.
Qed.

Lemma count_event_app e l w w' :
  trace w' = (l ++ trace w)%list ->
  count_event e w'
  = (length (filter (fun e' => e' = e) l) + count_event e w)%nat.
Proof. intros H. unfold count_event. by rewrite H, filter_app, length_app. Qed.

Lemma decide_spec_use_cached record m h o :
  decide_spec record m h = USE_CACHED o ->
  exists r, record = Some r /\ mtime r = SFloat m.
Proof.
  unfold decide_spec. destruct record as [r|]; [|done].
  repeat case_decide; try done. eauto.
Qed.

(** C1: for a file that exists on disk and any store, the non-forced
    decision is the action of the four-case invalidation policy: RUN when no
    partition holds a record; USE_CACHED with the stored outcome, and no
    content hash computed, when the stored mtime equals the current one;
    REFRESH with the stored outcome, the current fingerprint and the current
    mtime when only the fingerprint still matches; RUN when it does not. *)
Theorem decide_follows_policy file_path f w :
  fs w !! file_path = Some f ->
  lock_held w = false ->
  sql_budget w = None ->
  exists t w',
    determine_action file_path false w = (Ok t, w')
    /\ action_of t
       = Some (decide_spec (lookup_record (db w) file_path) (f_mtime f)
                 (digest (f_bytes f)))
    /\ (forall o p, action_of t = Some (USE_CACHED o) ->
          count_event (EvHash p) w' = count_event (EvHash p) w)
    /\ db w' = db w.
Proof.
  intros Hf Hl Hb.
  destruct (determine_action_present file_path f w) as (w' & Hd & Hs & Ht); [done..|].
  eexists _, w'. split; [exact Hd|]. split; [apply action_of_decision_tuple|].
  split; [|apply Hs].
  intros o p Ho. rewrite action_of_decision_tuple in Ho.
  injection Ho as Ho. apply decide_spec_use_cached in Ho as (r & Hr & Hm).
  rewrite (count_event_app (EvHash p) _ w w' Ht).
  unfold lookup_record in Hr. unfold scan_events.
  destruct (passed (db w) !! file_path) as [rp|].
  - injection Hr as ->. rewrite decide_True by done. reflexivity.
  - rewrite Hr, decide_True by done. reflexivity.
Qed.

(** C10: when the passed partition holds a record for the path, the
    decision and the stored outcome it carries come from that record alone,
    whatever the failed partition holds, and the failed partition is not
    queried. *)
Theorem passed_record_decides file_path f rp w :
  fs w !! file_path = Some f ->
  lock_held w = false ->
  sql_budget w = None ->
  passed (db w) !! file_path = Some rp ->
  exists t w',
    determine_action file_path false w = (Ok t, w')
    /\ t = decision_tuple (Some rp) (f_mtime f) (digest (f_bytes f))
    /\ action_of t = Some (decide_spec (Some rp) (f_mtime f) (digest (f_bytes f)))
    /\ (forall p, count_event (EvSelect failed_files p) w'
                  = count_event (EvSelect failed_files p) w).
Proof.
  intros Hf Hl Hb Hp.
  destruct (determine_action_present file_path f w) as (w' & Hd & Hs & Ht); [done..|].
  unfold lookup_record in Hd. rewrite Hp in Hd.
  eexists _, w'. split; [exact Hd|]. split; [done|].
  split; [apply action_of_decision_tuple|].
  intros p. rewrite (count_event_app _ _ w w' Ht).
  unfold scan_events. rewrite Hp. by case_decide.
Qed.

(** ** process_file *)

Lemma process_file_of_decision file_path force_recheck t w w1 :
  determine_action file_path force_recheck w = (Ok t, w1) ->
  process_file file_path force_recheck w
  = match t with
    | [action; stored_status; current_hash; current_mtime] =>
        if scalar_is action "USE_CACHED" then
          (Ok [PS (SStr "USE_CACHED"); PS stored_status; PS (SStr "Cached result");
               PS (SStr file_path); PS SNone], w1)
        else if scalar_is action "UPDATE_MTIME" then
          (Ok [PS (SStr "UPDATE_MTIME"); PS stored_status;
               PS (SStr "Cached result (hash matches)"); PS (SStr file_path);
               PS current_mtime], w1)
        else if scalar_is action "RUN_FFMPEG" then
          match check_single_file file_path w1 with
          | (Ok (status, message, _, codec), w2) =>
              (Ok [PS (SStr "RUN_FFMPEG"); PS (SStr status); PS (SStr message);
                   PS (SStr file_path);
                   PT [SStr file_path; current_hash; current_mtime; SStr status;
                       SStr codec]], w2)
          | (Raise e, w2) => (Raise e, w2)
          | (Hang, w2) => (Hang, w2)
          end
        else
          (Ok [PS (SStr "ERROR"); PS (SStr "Unknown action"); PS (SStr file_path);
               PS SNone], w1)
    | _ => (Raise ValueError, w1)
    end.
Proof.
  intros Hd. unfold process_file, bind at 1. rewrite Hd.
  destruct t as [|a [|b [|c [|d [|? ?]]]]]; try reflexivity.
  repeat (case_match; try reflexivity).
  all: unfold bind in *; repeat (case_match; simplify_eq; try reflexivity).
Qed.

Lemma determine_action_forced file_path w :
  determine_action file_path true w
  = match fs w !! file_path with
    | Some f =>
        (Ok [SStr "RUN_FFMPEG"; SNone; SStr (digest (f_bytes f)); SFloat (f_mtime f)],
         log (EvHash file_path) (log (EvStat file_path) w))
    | None => (Ok file_not_found, log (EvStat file_path) w)
    end.
Proof.
  unfold determine_action, try_except, bind.
  destruct (fs w !! file_path) as [f|] eqn:Hf.
  - rewrite (getmtime_found _ f) by done.
    by rewrite (calculate_file_hash_found _ f).
  - by rewrite getmtime_missing.
Qed.

(** C4 (amended): with [force_recheck], a file that exists on disk gets RUN
    with its current fingerprint and mtime, whatever the store holds; the
    store is not read and the lock not taken (the decision only adds the
    stat and the hash to the trace), and [process_file] then invokes the
    verifier once.  A path that does not exist gets FILE_NOT_FOUND. *)
Theorem forced_recheck_decision file_path w :
  match fs w !! file_path with
  | Some f =>
      determine_action file_path true w
      = (Ok [SStr "RUN_FFMPEG"; SNone; SStr (digest (f_bytes f)); SFloat (f_mtime f)],
         log (EvHash file_path) (log (EvStat file_path) w))
      /\ exists r w',
           process_file file_path true w = (Ok r, w')
           /\ r !! 0%nat = Some (PS (SStr "RUN_FFMPEG"))
           /\ count_event (EvFfmpeg file_path) w'
              = S (count_event (EvFfmpeg file_path) w)
           /\ db w' = db w
  | None =>
      determine_action file_path true w
      = (Ok file_not_found, log (EvStat file_path) w)
  end.
Proof.
  pose proof (determine_action_forced file_path w) as Hd.
  destruct (fs w !! file_path) as [f|] eqn:Hf; [|exact Hd].
  split; [exact Hd|].
  rewrite (process_file_of_decision _ _ _ _ _ Hd). cbn [scalar_is is_str String.eqb].
  cbn.
  destruct (check_single_file_spec file_path
              (log (EvHash file_path) (log (EvStat file_path) w)))
    as (probed & w' & Hc & Hdb & _ & _ & _ & Hcount).
  rewrite Hc.
  destruct (classify _ _ _) as [[[st msg] fp] cd].
  eexists _, w'. split; [reflexivity|]. split; [reflexivity|].
  split; [|by rewrite Hdb].
  rewrite Hcount, !count_event_log. by rewrite !decide_False by discriminate.
Qed.

(** C6 (amended): [check_single_file] never raises and always returns a
    classified result: FAILED with the error channel's text stripped of
    surrounding whitespace when the tool wrote anything there, FAILED with
    the fixed timed-out message on a timeout, FAILED with the exception's
    text on any other exception, PASSED with an empty message otherwise. *)
Theorem check_single_file_classifies file_path w :
  exists status message codec w',
    check_single_file file_path w = (Ok (status, message, file_path, codec), w')
    /\ match ffmpeg w file_path with
       | Completed _ stderr =>
           if decide (stderr = "") then status = "PASSED" /\ message = ""
           else status = "FAILED" /\ message = py_strip stderr
       | ProcRaises TimeoutExpired =>
           status = "FAILED" /\ message = "FFmpeg timed out"
       | ProcRaises e => status = "FAILED" /\ message = exn_str e
       end.
Proof.
  destruct (check_single_file_spec file_path w) as (probed & w' & Hc & _).
  rewrite Hc. unfold classify.
  destruct (ffmpeg w file_path) as [out err | e].
  - destruct err as [|c err].
    + by eexists _, _, _, w'.
    + eexists _, _, _, w'. split; [reflexivity|]. by rewrite decide_False.
  - destruct e; by eexists _, _, _, w'.
Qed.

(** ** The lock *)

(** A computation that neither takes nor drops the lock, and returns. *)
Definition lock_neutral {A} (c : M A) : Prop :=
  forall w r w', c w = (r, w') -> lock_held w' = lock_held w /\ r <> Hang.

(** A computation that, started without the lock, ends without it, whether
    it returns or raises, and never blocks. *)
Definition releases {A} (c : M A) : Prop :=
  forall w r w', lock_held w = false -> c w = (r, w') ->
    lock_held w' = false /\ r <> Hang.

Lemma neutral_releases {A} (c : M A) : lock_neutral c -> releases c.
Proof. intros H w r w' Hl Hc. destruct (H _ _ _ Hc). split; congruence. Qed.

Lemma neutral_ret {A} (a : A) : lock_neutral (ret a).
Proof. intros w r w' [= <- <-]. done. Qed.

Lemma neutral_raise {A} e : lock_neutral (@raise A e).
Proof. intros w r w' [= <- <-]. done. Qed.

Lemma neutral_emit e : lock_neutral (emit e).
Proof. intros w r w' [= <- <-]. done. Qed.

Lemma neutral_bind {A B} (c : M A) (k : A -> M B) :
  lock_neutral c -> (forall a, lock_neutral (k a)) -> lock_neutral (bind c k).
Proof.
  intros Hc Hk w r w' H. unfold bind in H.
  destruct (c w) as [[a|e|] w1] eqn:E; destruct (Hc _ _ _ E) as [Hl Hh].
  - destruct (Hk a _ _ _ H). split; congruence.
  - by injection H as <- <-.
  - done.
Qed.

Lemma neutral_try_except {A} (c : M A) h :
  lock_neutral c -> (forall e k, h e = Some k -> lock_neutral k) ->
  lock_neutral (try_except c h).
Proof.
  intros Hc Hh w r w' H. unfold try_except in H.
  destruct (c w) as [[a|e|] w1] eqn:E; destruct (Hc _ _ _ E) as [Hl Hn].
  - by injection H as <- <-.
  - destruct (h e) as [k|] eqn:Ek.
    + destruct (Hh _ _ Ek _ _ _ H). split; congruence.
    + by injection H as <- <-.
  - done.
Qed.

Lemma releases_bind {A B} (c : M A) (k : A -> M B) :
  releases c -> (forall a, releases (k a)) -> releases (bind c k).
Proof.
  intros Hc Hk w r w' Hl H. unfold bind in H.
  destruct (c w) as [[a|e|] w1] eqn:E; destruct (Hc _ _ _ Hl E) as [Hl1 Hh].
  - by apply (Hk a w1).
  - by injection H as <- <-.
  - done.
Qed.

(** [lock_fd = acquire_lock(...); try: body finally: release_lock(lock_fd)] *)
Lemma releases_locked {A} (body : M A) :
  lock_neutral body ->
  releases (run! acquire_lock in try_finally body release_lock).
Proof.
  intros Hb w r w' Hl H. unfold bind, acquire_lock in H. rewrite Hl in H.
  unfold try_finally, release_lock in H.
  destruct (body _) as [[a|e|] w1] eqn:E; destruct (Hb _ _ _ E) as [_ Hn].
  - by injection H as <- <-.
  - by injection H as <- <-.
  - done.
Qed.

Lemma neutral_sql_call : lock_neutral sql_call.
Proof.
  intros w r w' H. unfold sql_call in H.
  destruct (sql_budget w) as [[|n]|]; by injection H as <- <-.
Qed.

Lemma neutral_world_read {A} (g : world -> A) : lock_neutral (fun w => (Ok (g w), w)).
Proof. intros w r w' [= <- <-]. done. Qed.

Lemma neutral_sql_commit conn : lock_neutral (sql_commit conn).
Proof.
  apply neutral_bind; [apply neutral_sql_call|]. intros _ w r w' [= <- <-]. done.
Qed.

Lemma neutral_fs_read {A} (g : file -> A) file_path :
  lock_neutral (fun w => match fs w !! file_path with
                         | Some f => (Ok (g f), w)
                         | None => (Raise FileNotFoundError, w)
                         end).
Proof. intros w r w' H. destruct (fs w !! file_path); by injection H as <- <-. Qed.

Lemma neutral_tool (tool : world -> string -> proc_result) file_path :
  lock_neutral (fun w => match tool w file_path with
                         | Completed out err => (Ok (out, err), w)
                         | ProcRaises e => (Raise e, w)
                         end).
Proof. intros w r w' H. destruct (tool w file_path); by injection H as <- <-. Qed.

Create HintDb neutral.
#[local] Hint Resolve neutral_ret neutral_raise neutral_emit neutral_sql_call
  neutral_sql_commit neutral_fs_read neutral_tool : neutral.

(** Walks a computation built from [bind], branches and the primitives. *)
Ltac neutral :=
  repeat first
    [ progress intros
    | solve [eauto with neutral]
    | apply neutral_bind
    | apply neutral_world_read
    | match goal with
      | |- lock_neutral (match ?x with _ => _ end) => destruct x
      | |- lock_neutral (let '(_, _) := ?x in _) => destruct x
      end ].

Lemma neutral_sql_connect : lock_neutral sql_connect.
Proof. unfold sql_connect. neutral. Qed.

Lemma neutral_sql_select conn t file_path : lock_neutral (sql_select conn t file_path).
Proof. unfold sql_select. neutral. Qed.

Lemma neutral_sql_select_paths conn t : lock_neutral (sql_select_paths conn t).
Proof. unfold sql_select_paths. neutral. Qed.

Lemma neutral_bind_param v : lock_neutral (bind_param v).
Proof. unfold bind_param. neutral. Qed.

Lemma neutral_tuple_items v : lock_neutral (tuple_items v).
Proof. unfold tuple_items. neutral. Qed.

#[local] Hint Resolve neutral_sql_connect neutral_sql_select
  neutral_sql_select_paths neutral_bind_param neutral_tuple_items : neutral.

Lemma neutral_sql_update_mtime t p1 p2 conn :
  lock_neutral (sql_update_mtime t p1 p2 conn).
Proof. unfold sql_update_mtime. neutral. Qed.

Lemma neutral_sql_delete t p1 conn : lock_neutral (sql_delete t p1 conn).
Proof. unfold sql_delete. neutral. Qed.

Lemma neutral_sql_insert_or_replace t p1 p2 p3 p4 p5 p6 conn :
  lock_neutral (sql_insert_or_replace t p1 p2 p3 p4 p5 p6 conn).
Proof. unfold sql_insert_or_replace. neutral. Qed.

Lemma neutral_getmtime file_path : lock_neutral (getmtime file_path).
Proof. unfold getmtime. neutral. Qed.

Lemma neutral_calculate_file_hash file_path :
  lock_neutral (calculate_file_hash file_path).
Proof. unfold calculate_file_hash. neutral. Qed.

Lemma neutral_datetime_now : lock_neutral datetime_now.
Proof. unfold datetime_now. neutral. Qed.

Lemma neutral_path_exists file_path : lock_neutral (path_exists file_path).
Proof. unfold path_exists. neutral. Qed.

#[local] Hint Resolve neutral_sql_update_mtime neutral_sql_delete
  neutral_sql_insert_or_replace neutral_getmtime neutral_calculate_file_hash
  neutral_datetime_now neutral_path_exists : neutral.

Lemma neutral_scan_tables conn file_path current_mtime tables :
  lock_neutral (scan_tables conn file_path current_mtime tables).
Proof. induction tables as [|t rest IH]; cbn [scan_tables]; neutral. Qed.

Lemma neutral_executemany_update t l conn :
  lock_neutral (executemany_update t l conn).
Proof.
  revert conn. induction l as [|[p1 p2] rest IH]; intros conn;
    cbn [executemany_update]; neutral.
Qed.

Lemma neutral_delete_each t updates conn : lock_neutral (delete_each t updates conn).
Proof.
  revert conn. induction updates as [|u rest IH]; intros conn;
    cbn [delete_each]; neutral.
Qed.

Lemma neutral_insert_rows updates : lock_neutral (insert_rows updates).
Proof. induction updates as [|u rest IH]; cbn [insert_rows]; neutral. Qed.

Lemma neutral_executemany_insert t l conn :
  lock_neutral (executemany_insert t l conn).
Proof.
  revert conn. induction l as [|[[[[[fp fh] mt] st] now] cd] rest IH]; intros conn;
    cbn [executemany_insert]; neutral.
Qed.

#[local] Hint Resolve neutral_scan_tables neutral_executemany_update
  neutral_delete_each neutral_insert_rows neutral_executemany_insert : neutral.

Lemma neutral_flush_db_updates t updates conn :
  lock_neutral (flush_db_updates t updates conn).
Proof. unfold flush_db_updates. neutral. Qed.

Lemma neutral_sweep_paths t paths conn : lock_neutral (sweep_paths t paths conn).
Proof.
  revert conn. induction paths as [|p rest IH]; intros conn;
    cbn [sweep_paths]; neutral.
Qed.

#[local] Hint Resolve neutral_flush_db_updates neutral_sweep_paths : neutral.

Lemma neutral_sweep_table t conn : lock_neutral (sweep_table t conn).
Proof. unfold sweep_table. neutral. Qed.

Lemma neutral_get_codec file_path : lock_neutral (get_codec file_path).
Proof.
  unfold get_codec. apply neutral_try_except.
  - unfold run_ffprobe. neutral.
  - intros e k [= <-]. neutral.
Qed.

#[local] Hint Resolve neutral_sweep_table neutral_get_codec : neutral.

Lemma neutral_check_single_file file_path : lock_neutral (check_single_file file_path).
Proof.
  unfold check_single_file. apply neutral_try_except.
  - unfold run_ffmpeg. neutral.
  - intros e k H. destruct e; injection H as <-; neutral.
Qed.

#[local] Hint Resolve neutral_check_single_file : neutral.

(** Each transaction of the engine ends with the lock released. *)
Lemma releases_determine_action file_path force_recheck :
  releases (determine_action file_path force_recheck).
Proof.
  unfold determine_action. destruct force_recheck.
  - apply neutral_releases, neutral_try_except; [neutral|].
    intros e k H. destruct e; try done. injection H as <-. neutral.
  - apply releases_bind.
    + apply neutral_releases, neutral_try_except; [neutral|].
      intros e k H. destruct e; try done. injection H as <-. neutral.
    + intros [m|]; [|solve [apply neutral_releases; neutral]].
      apply releases_locked. neutral.
Qed.

Lemma releases_commit_update_mtime status extra file_path :
  releases (commit_update_mtime status extra file_path).
Proof. apply releases_locked. neutral. Qed.

Lemma releases_commit_run_ffmpeg extra : releases (commit_run_ffmpeg extra).
Proof. apply releases_locked. neutral. Qed.

Lemma releases_batch_commit st : releases (batch_commit st).
Proof. apply releases_locked. neutral. Qed.

Lemma releases_cleanup_database : releases cleanup_database.
Proof. apply releases_locked. neutral. Qed.

Lemma releases_process_file file_path force_recheck :
  releases (process_file file_path force_recheck).
Proof.
  unfold process_file. apply releases_bind; [apply releases_determine_action|].
  intros t.
  destruct t as [|a [|b [|c [|d [|? ?]]]]]; apply neutral_releases; neutral.
Qed.

Lemma releases_verbose_loop force_recheck audio_files results :
  releases (verbose_loop force_recheck audio_files results).
Proof.
  revert results. induction audio_files as [|p rest IH]; intros results;
    cbn [verbose_loop]; [apply neutral_releases; neutral|].
  apply releases_bind; [apply releases_process_file|]. intros t.
  destruct t as [|a [|b [|c [|d [|e [|? ?]]]]]];
    try solve [apply neutral_releases; neutral].
  apply releases_bind; [|intros; apply IH].
  repeat case_match;
    first [ apply releases_commit_update_mtime | apply releases_commit_run_ffmpeg
          | solve [apply neutral_releases; neutral] ].
Qed.

Lemma releases_collect result st : releases (collect result st).
Proof.
  unfold collect. apply neutral_releases.
  destruct result as [|a [|b [|c [|d [|e [|? ?]]]]]]; neutral.
Qed.

Lemma releases_pool_loop force_recheck completed st :
  releases (pool_loop force_recheck completed st).
Proof.
  revert st. induction completed as [|p rest IH]; intros st;
    cbn [pool_loop]; [apply neutral_releases; neutral|].
  apply releases_bind; [apply releases_process_file|]. intros t.
  apply releases_bind; [apply releases_collect|]. intros st'.
  apply releases_bind; [|intros; apply IH].
  case_match.
  - apply releases_bind; [apply releases_batch_commit|].
    intros; apply neutral_releases; neutral.
  - apply neutral_releases; neutral.
Qed.

Lemma releases_check_integrity audio_files verbose force_recheck :
  releases (check_integrity audio_files verbose force_recheck).
Proof.
  unfold check_integrity. apply releases_bind.
  - destruct verbose; [apply releases_verbose_loop|].
    apply releases_bind; [apply releases_pool_loop|]. intros st.
    apply releases_bind; [|intros; apply neutral_releases; neutral].
    case_match; [apply releases_batch_commit|apply neutral_releases; neutral].
  - intros results. apply releases_bind; [apply releases_cleanup_database|].
    intros; apply neutral_releases; neutral.
Qed.

(** C9: every operation that takes the lock (the decision read, the mtime
    commit, the RUN commit, the batch commit, the cleanup sweep) and the whole
    run built from them end with the lock released on every exit path: for
    any store, any file system and any point at which sqlite3 fails, a call
    started without the lock returns or raises without it, and none of them
    blocks on the lock. *)
Theorem lock_released_on_every_exit :
  (forall file_path force_recheck, releases (determine_action file_path force_recheck))
  /\ (forall status extra file_path,
        releases (commit_update_mtime status extra file_path))
  /\ (forall extra, releases (commit_run_ffmpeg extra))
  /\ (forall st, releases (batch_commit st))
  /\ releases cleanup_database
  /\ (forall audio_files verbose force_recheck,
        releases (check_integrity audio_files verbose force_recheck)).
Proof.
  refine (conj _ (conj _ (conj _ (conj _ (conj _ _))))).
  - apply releases_determine_action.
  - apply releases_commit_update_mtime.
  - apply releases_commit_run_ffmpeg.
  - apply releases_batch_commit.
  - apply releases_cleanup_database.
  - apply releases_check_integrity.
Qed.

(** ** The cleanup sweep *)

Lemma rows_set_rows t m s : rows t (set_rows t m s) = m.
Proof. by destruct t. Qed.

Lemma rows_set_rows_other t m s :
  rows (other_table t) (set_rows t m s) = rows (other_table t) s.
Proof. by destruct t. Qed.

Lemma where_path_str s : where_path (SStr s) = Some s.
Proof. reflexivity. Qed.

Lemma sql_delete_ok t file_path conn w :
  sql_budget w = None ->
  sql_delete t (PS (SStr file_path)) conn w
  = (Ok (set_rows t (delete file_path (rows t conn)) conn), w).
Proof.
  intros Hb. unfold sql_delete, bind. cbn [bind_param ret].
  by rewrite sql_call_ok.
Qed.

Lemma sweep_paths_spec t paths conn w :
  sql_budget w = None ->
  exists conn',
    sweep_paths t paths conn w = (Ok conn', w)
    /\ rows (other_table t) conn' = rows (other_table t) conn
    /\ forall p,
         rows t conn' !! p
         = match fs w !! p with
           | Some _ => rows t conn !! p
           | None => if decide (p ∈ paths) then None else rows t conn !! p
           end.
Proof.
  intros Hb. revert conn. induction paths as [|p0 rest IH]; intros conn.
  - exists conn. split; [done|]. split; [done|]. intros p.
    destruct (fs w !! p); [done|]. by rewrite decide_False by apply not_elem_of_nil.
  - cbn [sweep_paths]. unfold bind at 1, path_exists.
    destruct (fs w !! p0) as [f0|] eqn:Hf0.
    + rewrite bool_decide_eq_true_2 by eauto. cbn [negb]. unfold bind at 1, ret.
      destruct (IH conn) as (conn' & -> & Ho & Hr).
      exists conn'. split; [done|]. split; [done|]. intros p. rewrite Hr.
      destruct (fs w !! p) eqn:Hfp; [done|].
      assert (p <> p0) by congruence.
      destruct (decide (p ∈ rest)).
      * by rewrite decide_True by (by right).
      * rewrite decide_False; [done|]. by intros [?|?]%elem_of_cons.
    + rewrite bool_decide_eq_false_2 by (intros [? ?]; done). cbn [negb].
      unfold bind at 1. rewrite sql_delete_ok by done.
      destruct (IH (set_rows t (delete p0 (rows t conn)) conn)) as (conn' & -> & Ho & Hr).
      exists conn'. split; [done|]. split.
      * by rewrite Ho, rows_set_rows_other.
      * intros p. rewrite Hr, rows_set_rows.
        destruct (fs w !! p) eqn:Hfp.
        -- rewrite lookup_delete_ne; [done|]. congruence.
        -- destruct (decide (p ∈ rest)).
           ++ by rewrite decide_True by (by right).
           ++ destruct (decide (p = p0)) as [->|Hne].
              ** rewrite decide_True by (by left). apply lookup_delete_eq.
              ** rewrite decide_False by (by intros [?|?]%elem_of_cons).
                 by rewrite lookup_delete_ne.
Qed.

Lemma sweep_table_spec t conn w :
  sql_budget w = None ->
  exists conn',
    sweep_table t conn w = (Ok conn', w)
    /\ rows (other_table t) conn' = rows (other_table t) conn
    /\ forall p,
         rows t conn' !! p
         = match fs w !! p with
           | Some _ => rows t conn !! p
           | None => None
           end.
Proof.
  intros Hb. unfold sweep_table, bind at 1, sql_select_paths, bind, ret.
  rewrite sql_call_ok by done.
  destruct (sweep_paths_spec t (map_to_list (rows t conn)).*1 conn w Hb)
    as (conn' & -> & Ho & Hr).
  exists conn'. split; [done|]. split; [done|]. intros p. rewrite Hr.
  destruct (fs w !! p); [done|]. case_decide as Hin; [done|].
  destruct (rows t conn !! p) as [r|] eqn:Hp; [|done].
  exfalso. apply Hin. apply list_elem_of_fmap. exists (p, r).
  split; [done|]. by apply elem_of_map_to_list.
Qed.

Lemma cleanup_database_ok w :
  lock_held w = false ->
  sql_budget w = None ->
  exists w',
    cleanup_database w = (Ok tt, w')
    /\ fs w' = fs w
    /\ lock_held w' = false
    /\ sql_budget w' = None
    /\ trace w' = (EvRelease :: EvAcquire :: trace w)%list
    /\ forall t p,
         rows t (db w') !! p
         = match fs w !! p with
           | Some _ => rows t (db w) !! p
           | None => None
           end.
Proof.
  intros Hl Hb. unfold cleanup_database, bind at 1, acquire_lock. rewrite Hl.
  unfold try_finally, bind.
  set (w1 := log EvAcquire (set_lock true w)).
  assert (Hb1 : sql_budget w1 = None) by done.
  rewrite sql_connect_ok by done.
  destruct (sweep_table_spec passed_files (db w1) w1 Hb1) as (c1 & -> & Ho1 & Hr1).
  destruct (sweep_table_spec failed_files c1 w1 Hb1) as (c2 & -> & Ho2 & Hr2).
  rewrite sql_commit_ok by done. unfold release_lock.
  eexists. split; [reflexivity|]. split; [done|]. split; [done|].
  split; [done|]. split; [done|].
  intros t p. cbn [db log set_lock set_db].
  change (fs w1) with (fs w) in *. change (db w1) with (db w) in *.
  destruct t.
  - change (rows passed_files c2) with (rows (other_table failed_files) c2).
    rewrite Ho2. apply Hr1.
  - rewrite Hr2. destruct (fs w !! p); [|done].
    change (rows failed_files c1) with (rows (other_table passed_files) c1).
    by rewrite Ho1.
Qed.

(** C8: the cleanup sweep returns, and afterwards each partition holds, for
    every path, the record it held before when the file still exists on
    disk, and no record when it does not: a recorded path is deleted exactly
    when its file is gone, and every other record is left as it was. *)
Theorem cleanup_sweep_postcondition w :
  lock_held w = false ->
  sql_budget w = None ->
  exists w',
    cleanup_database w = (Ok tt, w')
    /\ fs w' = fs w
    /\ lock_held w' = false
    /\ forall t p,
         rows t (db w') !! p
         = match fs w !! p with
           | Some _ => rows t (db w) !! p
           | None => None
           end.
Proof.
  intros Hl Hb.
  destruct (cleanup_database_ok w Hl Hb) as (w' & Hc & Hfs & Hl' & _ & _ & Hrows).
  by exists w'.
Qed.

(** ** Exclusivity of the two partitions *)

(** No path has a row in both tables. *)
Definition exclusive (s : store) : Prop :=
  forall p, passed s !! p = None \/ failed s !! p = None.

(** A computation that leaves the committed store alone. *)
Definition db_quiet {A} (c : M A) : Prop :=
  forall w r w', c w = (r, w') -> db w' = db w.

Lemma quiet_ret {A} (a : A) : db_quiet (ret a).
Proof. by intros w r w' [= <- <-]. Qed.

Lemma quiet_raise {A} e : db_quiet (@raise A e).
Proof. by intros w r w' [= <- <-]. Qed.

Lemma quiet_emit e : db_quiet (emit e).
Proof. by intros w r w' [= <- <-]. Qed.

Lemma quiet_bind {A B} (c : M A) (k : A -> M B) :
  db_quiet c -> (forall a, db_quiet (k a)) -> db_quiet (bind c k).
Proof.
  intros Hc Hk w r w' H. unfold bind in H.
  destruct (c w) as [[a|e|] w1] eqn:E; pose proof (Hc _ _ _ E) as H1.
  - rewrite <- H1. by apply (Hk a w1 r).
  - by injection H as <- <-.
  - by injection H as <- <-.
Qed.

Lemma quiet_try_except {A} (c : M A) h :
  db_quiet c -> (forall e k, h e = Some k -> db_quiet k) -> db_quiet (try_except c h).
Proof.
  intros Hc Hh w r w' H. unfold try_except in H.
  destruct (c w) as [[a|e|] w1] eqn:E; pose proof (Hc _ _ _ E) as H1.
  - by injection H as <- <-.
  - destruct (h e) as [k|] eqn:Ek.
    + rewrite <- H1. by apply (Hh _ _ Ek w1 r).
    + by injection H as <- <-.
  - by injection H as <- <-.
Qed.

Lemma quiet_try_finally {A} (c : M A) f :
  db_quiet c -> db_quiet f -> db_quiet (try_finally c f).
Proof.
  intros Hc Hf w r w' H. unfold try_finally in H.
  destruct (c w) as [[a|e|] w1] eqn:E; pose proof (Hc _ _ _ E) as H1.
  - destruct (f w1) as [[?|?|] w2] eqn:F; pose proof (Hf _ _ _ F);
      injection H as <- <-; congruence.
  - destruct (f w1) as [[?|?|] w2] eqn:F; pose proof (Hf _ _ _ F);
      injection H as <- <-; congruence.
  - by injection H as <- <-.
Qed.

Lemma quiet_sql_call : db_quiet sql_call.
Proof.
  intros w r w' H. unfold sql_call in H.
  destruct (sql_budget w) as [[|n]|]; by injection H as <- <-.
Qed.

Lemma quiet_world_read {A} (g : world -> A) : db_quiet (fun w => (Ok (g w), w)).
Proof. by intros w r w' [= <- <-]. Qed.

Lemma quiet_fs_read {A} (g : file -> A) file_path :
  db_quiet (fun w => match fs w !! file_path with
                     | Some f => (Ok (g f), w)
                     | None => (Raise FileNotFoundError, w)
                     end).
Proof. intros w r w' H. destruct (fs w !! file_path); by injection H as <- <-. Qed.

Lemma quiet_tool (tool : world -> string -> proc_result) file_path :
  db_quiet (fun w => match tool w file_path with
                     | Completed out err => (Ok (out, err), w)
                     | ProcRaises e => (Raise e, w)
                     end).
Proof. intros w r w' H. destruct (tool w file_path); by injection H as <- <-. Qed.

Lemma quiet_acquire_lock : db_quiet acquire_lock.
Proof.
  intros w r w' H. unfold acquire_lock in H.
  destruct (lock_held w); by injection H as <- <-.
Qed.

Lemma quiet_release_lock : db_quiet release_lock.
Proof. by intros w r w' [= <- <-]. Qed.

Create HintDb quiet.
#[local] Hint Resolve quiet_ret quiet_raise quiet_emit quiet_sql_call quiet_fs_read
  quiet_tool quiet_acquire_lock quiet_release_lock : quiet.

Ltac quiet :=
  repeat first
    [ progress intros
    | solve [eauto with quiet]
    | apply quiet_bind
    | apply quiet_try_finally
    | apply quiet_world_read
    | match goal with
      | |- db_quiet (match ?x with _ => _ end) => destruct x
      | |- db_quiet (let '(_, _) := ?x in _) => destruct x
      end ].

Lemma quiet_sql_connect : db_quiet sql_connect.
Proof. unfold sql_connect. quiet. Qed.

Lemma quiet_sql_select conn t file_path : db_quiet (sql_select conn t file_path).
Proof. unfold sql_select. quiet. Qed.

Lemma quiet_sql_select_paths conn t : db_quiet (sql_select_paths conn t).
Proof. unfold sql_select_paths. quiet. Qed.

Lemma quiet_bind_param v : db_quiet (bind_param v).
Proof. unfold bind_param. quiet. Qed.

Lemma quiet_tuple_items v : db_quiet (tuple_items v).
Proof. unfold tuple_items. quiet. Qed.

#[local] Hint Resolve quiet_sql_connect quiet_sql_select quiet_sql_select_paths
  quiet_bind_param quiet_tuple_items : quiet.

Lemma quiet_sql_update_mtime t p1 p2 conn : db_quiet (sql_update_mtime t p1 p2 conn).
Proof. unfold sql_update_mtime. quiet. Qed.

Lemma quiet_sql_delete t p1 conn : db_quiet (sql_delete t p1 conn).
Proof. unfold sql_delete. quiet. Qed.

Lemma quiet_sql_insert_or_replace t p1 p2 p3 p4 p5 p6 conn :
  db_quiet (sql_insert_or_replace t p1 p2 p3 p4 p5 p6 conn).
Proof. unfold sql_insert_or_replace. quiet. Qed.

Lemma quiet_getmtime file_path : db_quiet (getmtime file_path).
Proof. unfold getmtime. quiet. Qed.

Lemma quiet_calculate_file_hash file_path : db_quiet (calculate_file_hash file_path).
Proof. unfold calculate_file_hash. quiet. Qed.

Lemma quiet_datetime_now : db_quiet datetime_now.
Proof. unfold datetime_now. quiet. Qed.

Lemma quiet_path_exists file_path : db_quiet (path_exists file_path).
Proof. unfold path_exists. quiet. Qed.

#[local] Hint Resolve quiet_sql_update_mtime quiet_sql_delete
  quiet_sql_insert_or_replace quiet_getmtime quiet_calculate_file_hash
  quiet_datetime_now quiet_path_exists : quiet.

Lemma quiet_scan_tables conn file_path current_mtime tables :
  db_quiet (scan_tables conn file_path current_mtime tables).
Proof. induction tables as [|t rest IH]; cbn [scan_tables]; quiet. Qed.

Lemma quiet_executemany_update t l conn : db_quiet (executemany_update t l conn).
Proof.
  revert conn. induction l as [|[p1 p2] rest IH]; intros conn;
    cbn [executemany_update]; quiet.
Qed.

Lemma quiet_delete_each t updates conn : db_quiet (delete_each t updates conn).
Proof.
  revert conn. induction updates as [|u rest IH]; intros conn;
    cbn [delete_each]; quiet.
Qed.

Lemma quiet_insert_rows updates : db_quiet (insert_rows updates).
Proof. induction updates as [|u rest IH]; cbn [insert_rows]; quiet. Qed.

Lemma quiet_executemany_insert t l conn : db_quiet (executemany_insert t l conn).
Proof.
  revert conn. induction l as [|[[[[[fp fh] mt] st] now] cd] rest IH]; intros conn;
    cbn [executemany_insert]; quiet.
Qed.

#[local] Hint Resolve quiet_scan_tables quiet_executemany_update quiet_delete_each
  quiet_insert_rows quiet_executemany_insert : quiet.

Lemma quiet_flush_db_updates t updates conn :
  db_quiet (flush_db_updates t updates conn).
Proof. unfold flush_db_updates. quiet. Qed.

Lemma quiet_sweep_paths t paths conn : db_quiet (sweep_paths t paths conn).
Proof.
  revert conn. induction paths as [|p rest IH]; intros conn; cbn [sweep_paths]; quiet.
Qed.

#[local] Hint Resolve quiet_flush_db_updates quiet_sweep_paths : quiet.

Lemma quiet_sweep_table t conn : db_quiet (sweep_table t conn).
Proof. unfold sweep_table. quiet. Qed.

Lemma quiet_get_codec file_path : db_quiet (get_codec file_path).
Proof.
  unfold get_codec. apply quiet_try_except.
  - unfold run_ffprobe. quiet.
  - intros e k [= <-]. quiet.
Qed.

#[local] Hint Resolve quiet_sweep_table quiet_get_codec : quiet.

Lemma quiet_check_single_file file_path : db_quiet (check_single_file file_path).
Proof.
  unfold check_single_file. apply quiet_try_except.
  - unfold run_ffmpeg. quiet.
  - intros e k H. destruct e; injection H as <-; quiet.
Qed.

Lemma quiet_determine_action file_path force_recheck :
  db_quiet (determine_action file_path force_recheck).
Proof.
  unfold determine_action. destruct force_recheck.
  - apply quiet_try_except; [quiet|].
    intros e k H. destruct e; try done. injection H as <-. quiet.
  - apply quiet_bind.
    + apply quiet_try_except; [quiet|].
      intros e k H. destruct e; try done. injection H as <-. quiet.
    + intros [m|]; quiet.
Qed.

#[local] Hint Resolve quiet_check_single_file quiet_determine_action : quiet.

Lemma quiet_process_file file_path force_recheck :
  db_quiet (process_file file_path force_recheck).
Proof.
  unfold process_file. apply quiet_bind; [quiet|]. intros t.
  destruct t as [|a [|b [|c [|d [|? ?]]]]]; quiet.
Qed.

Lemma quiet_collect result st : db_quiet (collect result st).
Proof.
  unfold collect. destruct result as [|a [|b [|c [|d [|e [|? ?]]]]]]; quiet.
Qed.

#[local] Hint Resolve quiet_process_file quiet_collect : quiet.

(** A computation under which exclusivity of the committed store persists,
    however it ends. *)
Definition keeps {A} (c : M A) : Prop :=
  forall w r w', exclusive (db w) -> c w = (r, w') -> exclusive (db w').

(** A computation that leaves the committed store alone and whose returned
    value satisfies [R]. *)
Definition sound {A} (c : M A) (R : A -> Prop) : Prop :=
  db_quiet c /\ forall w a w', c w = (Ok a, w') -> R a.

Lemma keeps_quiet {A} (c : M A) : db_quiet c -> keeps c.
Proof. intros Hq w r w' He Hc. by rewrite (Hq _ _ _ Hc). Qed.

Lemma keeps_bind {A B} (c : M A) (k : A -> M B) :
  keeps c -> (forall a, keeps (k a)) -> keeps (bind c k).
Proof.
  intros Hc Hk w r w' He H. unfold bind in H.
  destruct (c w) as [[a|e|] w1] eqn:E; pose proof (Hc _ _ _ He E) as H1.
  - by apply (Hk a w1 r).
  - by injection H as <- <-.
  - by injection H as <- <-.
Qed.

Lemma keeps_bind_sound {A B} (c : M A) (k : A -> M B) (R : A -> Prop) :
  sound c R -> (forall a, R a -> keeps (k a)) -> keeps (bind c k).
Proof.
  intros [Hq HR] Hk w r w' He H. unfold bind in H.
  destruct (c w) as [[a|e|] w1] eqn:E; pose proof (Hq _ _ _ E) as H1.
  - apply (Hk a (HR _ _ _ E) w1 r); [by rewrite H1|done].
  - injection H as <- <-. by rewrite H1.
  - injection H as <- <-. by rewrite H1.
Qed.

Lemma keeps_try_finally_release {A} (body : M A) :
  keeps body -> keeps (try_finally body release_lock).
Proof.
  intros Hb w r w' He H. unfold try_finally, release_lock in H.
  destruct (body w) as [[a|e|] w1] eqn:E; pose proof (Hb _ _ _ He E);
    by injection H as <- <-.
Qed.

Lemma keeps_locked {A} (body : M A) :
  keeps body -> keeps (run! acquire_lock in try_finally body release_lock).
Proof.
  intros Hb. apply keeps_bind; [apply keeps_quiet, quiet_acquire_lock|].
  intros _. by apply keeps_try_finally_release.
Qed.

Lemma keeps_connect {B} (k : store -> M B) :
  (forall conn, exclusive conn -> keeps (k conn)) -> keeps (bind sql_connect k).
Proof.
  intros Hk w r w' He H. unfold bind, sql_connect, bind in H.
  destruct (sql_call w) as [[[]|e|] w1] eqn:E;
    pose proof (quiet_sql_call _ _ _ E) as H1.
  - apply (Hk (db w1) (eq_ind_r exclusive He H1) w1 r); [by rewrite H1|done].
  - injection H as <- <-. by rewrite H1.
  - injection H as <- <-. by rewrite H1.
Qed.

Lemma keeps_sql_commit conn : exclusive conn -> keeps (sql_commit conn).
Proof.
  intros Hc w r w' He H. unfold sql_commit, bind in H.
  destruct (sql_call w) as [[[]|e|] w1] eqn:E;
    pose proof (quiet_sql_call _ _ _ E) as H1; injection H as <- <-;
    by rewrite ?H1.
Qed.

(** Stores after a statement *)

Lemma exclusive_set_rows t m s :
  exclusive s ->
  (forall p, m !! p = None \/ rows (other_table t) s !! p = None) ->
  exclusive (set_rows t m s).
Proof.
  intros He Hm p. destruct t; cbn in *; destruct (Hm p); auto.
Qed.

Lemma exclusive_shrink t m s :
  exclusive s ->
  (forall p, rows t s !! p = None -> m !! p = None) ->
  exclusive (set_rows t m s).
Proof.
  intros He Hm. apply exclusive_set_rows; [done|]. intros p.
  destruct t; cbn in *; destruct (He p); auto.
Qed.

Lemma sql_update_mtime_inv t p1 p2 conn w c' w' :
  sql_update_mtime t p1 p2 conn w = (Ok c', w') ->
  exists m v,
    p1 = PS m /\ p2 = PS v
    /\ c' = match where_path v with
            | Some k =>
                set_rows t (alter (set_mtime (real_affinity m)) k (rows t conn)) conn
            | None => conn
            end.
Proof.
  unfold sql_update_mtime, bind, bind_param, ret, raise. intros H.
  destruct p1 as [m|]; [|done]. destruct p2 as [v|]; [|done].
  destruct (sql_call w) as [[[]|e|] w1]; [|done..].
  exists m, v. destruct (where_path v); by injection H as <- <-.
Qed.

Lemma sql_delete_inv t p1 conn w c' w' :
  sql_delete t p1 conn w = (Ok c', w') ->
  exists v,
    p1 = PS v
    /\ c' = match where_path v with
            | Some k => set_rows t (delete k (rows t conn)) conn
            | None => conn
            end.
Proof.
  unfold sql_delete, bind, bind_param, ret, raise. intros H.
  destruct p1 as [v|]; [|done].
  destruct (sql_call w) as [[[]|e|] w1]; [|done..].
  exists v. destruct (where_path v); by injection H as <- <-.
Qed.

Lemma sql_insert_or_replace_inv t p1 p2 p3 p4 p5 p6 conn w c' w' :
  sql_insert_or_replace t p1 p2 p3 p4 p5 p6 conn w = (Ok c', w') ->
  exists k,
    where_path p1 = Some k
    /\ c' = set_rows t
              (<[k := mkRow (text_affinity p2) (real_affinity p3) (text_affinity p4)
                        (text_affinity p5) (text_affinity p6)]> (rows t conn)) conn.
Proof.
  unfold sql_insert_or_replace, bind, ret, raise. intros H.
  destruct (sql_call w) as [[[]|e|] w1]; [|done..].
  destruct (where_path p1) as [k|]; [|done]. exists k. by injection H as <- <-.
Qed.

Lemma sound_sql_update_mtime t p1 p2 conn :
  exclusive conn -> sound (sql_update_mtime t p1 p2 conn) exclusive.
Proof.
  intros He. split; [apply quiet_sql_update_mtime|].
  intros w c' w' (m & v & -> & -> & ->)%sql_update_mtime_inv.
  destruct (where_path v) as [k|]; [|done].
  apply exclusive_shrink; [done|]. intros p Hp.
  by rewrite lookup_alter_None.
Qed.

Lemma sound_sql_delete t p1 conn :
  exclusive conn ->
  sound (sql_delete t p1 conn)
    (fun c' => exclusive c'
               /\ (forall p, rows t conn !! p = None -> rows t c' !! p = None)
               /\ rows (other_table t) c' = rows (other_table t) conn
               /\ forall v k, p1 = PS v -> where_path v = Some k ->
                              rows t c' !! k = None).
Proof.
  intros He. split; [apply quiet_sql_delete|].
  intros w c' w' (v & -> & ->)%sql_delete_inv.
  destruct (where_path v) as [k|] eqn:Hk.
  - split; [|split; [|split]].
    + apply exclusive_shrink; [done|]. intros p Hp.
      by apply lookup_delete_None; right.
    + intros p Hp. rewrite rows_set_rows. by apply lookup_delete_None; right.
    + apply rows_set_rows_other.
    + intros v' k' [= <-] Hk'. rewrite Hk in Hk'. injection Hk' as <-.
      rewrite rows_set_rows. apply lookup_delete_eq.
  - split; [done|]. split; [done|]. split; [done|].
    intros v' k' [= <-] Hk'. congruence.
Qed.

Lemma sound_sql_insert_or_replace t p1 p2 p3 p4 p5 p6 conn :
  exclusive conn ->
  (forall k, where_path p1 = Some k -> rows (other_table t) conn !! k = None) ->
  sound (sql_insert_or_replace t p1 p2 p3 p4 p5 p6 conn) exclusive.
Proof.
  intros He Hk. split; [apply quiet_sql_insert_or_replace|].
  intros w c' w' (k & Hw & ->)%sql_insert_or_replace_inv.
  apply exclusive_set_rows; [done|]. intros p.
  destruct (decide (p = k)) as [->|Hne]; [right; by apply Hk|].
  rewrite lookup_insert_ne by done.
  destruct t; cbn; destruct (He p); auto.
Qed.

Lemma sound_executemany_update t l conn :
  exclusive conn -> sound (executemany_update t l conn) exclusive.
Proof.
  intros He. split; [apply quiet_executemany_update|]. revert conn He.
  induction l as [|[p1 p2] rest IH]; intros conn He w c' w' H;
    cbn [executemany_update] in H.
  - by injection H as <- <-.
  - unfold bind in H.
    destruct (sql_update_mtime t p1 p2 conn w) as [[c1|e|] w1] eqn:E; [|done..].
    eapply IH; [|exact H]. by eapply (sound_sql_update_mtime t p1 p2 conn).
Qed.

(** The items of a tuple assignment do not depend on the world. *)
Definition items_of (v : pyval) : option (list scalar) :=
  match v with
  | PT items => Some items
  | PS (SStr s) => Some ((fun c => SStr (String c EmptyString)) <$> list_ascii_of_string s)
  | PS _ => None
  end.

Lemma tuple_items_items_of v w :
  tuple_items v w
  = (match items_of v with Some l => Ok l | None => Raise TypeError end, w).
Proof. by destruct v as [[]|]. Qed.

(** The loop header [for file_path, _, _, _ in updates] takes tuples of four
    items only. *)
Lemma delete_each_arity t u rest conn w c' w' :
  delete_each t (u :: rest) conn w = (Ok c', w') ->
  exists items, items_of u = Some items /\ length items = 4%nat.
Proof.
  cbn [delete_each]. unfold bind at 1. rewrite tuple_items_items_of.
  destruct (items_of u) as [items|]; [|done]. intros H.
  destruct items as [|a [|b [|c [|d [|? ?]]]]]; try done. by exists [a; b; c; d].
Qed.

(** The comprehension [for fp, fh, mt, st, codec in updates] takes tuples of
    five items only. *)
Lemma insert_rows_arity u rest w l w' :
  insert_rows (u :: rest) w = (Ok l, w') ->
  exists items, items_of u = Some items /\ length items = 5%nat.
Proof.
  cbn [insert_rows]. unfold bind at 1. rewrite tuple_items_items_of.
  destruct (items_of u) as [items|]; [|done]. intros H.
  destruct items as [|a [|b [|c [|d [|e [|? ?]]]]]]; try done.
  by exists [a; b; c; d; e].
Qed.

(** So the two loops over one non-empty list never both complete: a batch
    that holds a RUN result does not reach its INSERT statements. *)
Lemma flush_db_updates_nonempty t u rest conn w r w' :
  flush_db_updates t (u :: rest) conn w = (r, w') -> forall c', r <> Ok c'.
Proof.
  unfold flush_db_updates, bind. intros H c' ->.
  destruct (delete_each _ _ _ _) as [[c1|e|] w1] eqn:Ed; [|done..].
  destruct (insert_rows _ _) as [[l|e|] w2] eqn:Ei; [|done..].
  apply delete_each_arity in Ed as (i1 & H1 & L1).
  apply insert_rows_arity in Ei as (i2 & H2 & L2).
  rewrite H1 in H2. injection H2 as <-. lia.
Qed.

Lemma sound_flush_db_updates t updates conn :
  exclusive conn -> sound (flush_db_updates t updates conn) exclusive.
Proof.
  intros He. split; [apply quiet_flush_db_updates|]. intros w c' w' H.
  destruct updates as [|u rest].
  - by injection H as <- <-.
  - by destruct (flush_db_updates_nonempty _ _ _ _ _ _ _ H c').
Qed.

Lemma sound_sweep_paths t paths conn :
  exclusive conn -> sound (sweep_paths t paths conn) exclusive.
Proof.
  intros He. split; [apply quiet_sweep_paths|]. revert conn He.
  induction paths as [|p0 rest IH]; intros conn He w c' w' H; cbn [sweep_paths] in H.
  - by injection H as <- <-.
  - unfold bind at 1, path_exists in H. unfold bind at 1 in H.
    destruct (negb _).
    + destruct (sql_delete t (PS (SStr p0)) conn w) as [[c1|e|] w1] eqn:E; [|done..].
      eapply IH; [|exact H].
      by destruct (sound_sql_delete t (PS (SStr p0)) conn He) as [_ Hs];
        destruct (Hs _ _ _ E).
    + unfold ret in H. by eapply IH.
Qed.

Lemma sound_sweep_table t conn :
  exclusive conn -> sound (sweep_table t conn) exclusive.
Proof.
  intros He. split; [apply quiet_sweep_table|]. intros w c' w' H.
  unfold sweep_table, bind in H.
  destruct (sql_select_paths conn t w) as [[paths|e|] w1]; [|done..].
  by eapply (sound_sweep_paths t paths conn He).
Qed.

(** Each transaction keeps the partitions exclusive. *)

Lemma keeps_commit_update_mtime status extra file_path :
  keeps (commit_update_mtime status extra file_path).
Proof.
  apply keeps_locked, keeps_connect. intros conn He.
  eapply keeps_bind_sound; [by apply sound_sql_update_mtime|].
  intros c' Hc'. by apply keeps_sql_commit.
Qed.

Lemma keeps_commit_run_ffmpeg extra : keeps (commit_run_ffmpeg extra).
Proof.
  apply keeps_locked, keeps_connect. intros conn He.
  apply keeps_bind; [apply keeps_quiet, quiet_tuple_items|]. intros items.
  destruct items as [|fp [|fh [|mt [|st [|cd [|? ?]]]]]];
    try (apply keeps_quiet, quiet_raise).
  eapply keeps_bind_sound; [by apply sound_sql_delete|].
  intros c1 (He1 & _ & _ & Hk).
  apply keeps_bind; [apply keeps_quiet, quiet_datetime_now|]. intros now.
  eapply keeps_bind_sound.
  - apply sound_sql_insert_or_replace; [done|]. intros k Hw.
    destruct (table_of (PS st)); by apply (Hk fp).
  - intros c2 He2. by apply keeps_sql_commit.
Qed.

Lemma keeps_batch_commit st : keeps (batch_commit st).
Proof.
  apply keeps_locked, keeps_connect. intros conn He.
  eapply keeps_bind_sound; [by apply sound_executemany_update|]. intros c1 H1.
  eapply keeps_bind_sound; [by apply sound_executemany_update|]. intros c2 H2.
  eapply keeps_bind_sound; [by apply sound_flush_db_updates|]. intros c3 H3.
  eapply keeps_bind_sound; [by apply sound_flush_db_updates|]. intros c4 H4.
  by apply keeps_sql_commit.
Qed.

Lemma keeps_cleanup_database : keeps cleanup_database.
Proof.
  apply keeps_locked, keeps_connect. intros conn He.
  eapply keeps_bind_sound; [by apply sound_sweep_table|]. intros c1 H1.
  eapply keeps_bind_sound; [by apply sound_sweep_table|]. intros c2 H2.
  by apply keeps_sql_commit.
Qed.

Lemma keeps_verbose_loop force_recheck audio_files results :
  keeps (verbose_loop force_recheck audio_files results).
Proof.
  revert results. induction audio_files as [|p rest IH]; intros results;
    cbn [verbose_loop]; [apply keeps_quiet, quiet_ret|].
  apply keeps_bind; [apply keeps_quiet, quiet_process_file|]. intros t.
  destruct t as [|a [|b [|c [|d [|e [|? ?]]]]]]; try (apply keeps_quiet, quiet_raise).
  apply keeps_bind; [|intros; apply IH].
  repeat case_match;
    first [ apply keeps_commit_update_mtime | apply keeps_commit_run_ffmpeg
          | apply keeps_quiet, quiet_ret ].
Qed.

Lemma keeps_pool_loop force_recheck completed st :
  keeps (pool_loop force_recheck completed st).
Proof.
  revert st. induction completed as [|p rest IH]; intros st;
    cbn [pool_loop]; [apply keeps_quiet, quiet_ret|].
  apply keeps_bind; [apply keeps_quiet, quiet_process_file|]. intros t.
  apply keeps_bind; [apply keeps_quiet, quiet_collect|]. intros st'.
  apply keeps_bind; [|intros; apply IH].
  case_match; [|apply keeps_quiet, quiet_ret].
  apply keeps_bind; [apply keeps_batch_commit|]. intros; apply keeps_quiet, quiet_ret.
Qed.

Lemma keeps_check_integrity audio_files verbose force_recheck :
  keeps (check_integrity audio_files verbose force_recheck).
Proof.
  unfold check_integrity. apply keeps_bind.
  - destruct verbose; [apply keeps_verbose_loop|].
    apply keeps_bind; [apply keeps_pool_loop|]. intros st.
    apply keeps_bind; [|intros; apply keeps_quiet, quiet_ret].
    case_match; [apply keeps_batch_commit|apply keeps_quiet, quiet_ret].
  - intros results. apply keeps_bind; [apply keeps_cleanup_database|].
    intros; apply keeps_quiet, quiet_ret.
Qed.

(** ** What the two per-file commits write *)

(** Two worlds that differ in the committed store and the trace only. *)
Definition same_env (w w' : world) : Prop :=
  fs w' = fs w /\ lock_held w' = lock_held w /\ sql_budget w' = sql_budget w
  /\ now_iso w' = now_iso w /\ ffmpeg w' = ffmpeg w /\ ffprobe w' = ffprobe w.

Lemma same_state_env w w' : same_state w w' -> same_env w w'.
Proof. unfold same_state, same_env. tauto. Qed.

Lemma same_env_trans w1 w2 w3 : same_env w1 w2 -> same_env w2 w3 -> same_env w1 w3.
Proof. unfold same_env. intros ? ?. intuition congruence. Qed.

Lemma bind_Ok {A B} (c : M A) (k : A -> M B) w a w1 :
  c w = (Ok a, w1) -> bind c k w = k a w1.
Proof. intros H. unfold bind. by rewrite H. Qed.

Lemma acquire_lock_ok w :
  lock_held w = false -> acquire_lock w = (Ok tt, log EvAcquire (set_lock true w)).
Proof. intros H. unfold acquire_lock. by rewrite H. Qed.

Lemma commit_update_mtime_ok status m file_path w :
  lock_held w = false ->
  sql_budget w = None ->
  exists w',
    commit_update_mtime status (PS m) file_path w = (Ok tt, w')
    /\ db w' = set_rows (table_of status)
                 (alter (set_mtime (real_affinity m)) file_path
                    (rows (table_of status) (db w))) (db w)
    /\ same_env w w'
    /\ trace w' = (EvRelease :: EvAcquire :: trace w)%list.
Proof.
  intros Hl Hb. unfold commit_update_mtime.
  erewrite bind_Ok by (by apply acquire_lock_ok).
  unfold try_finally.
  erewrite bind_Ok by (by apply sql_connect_ok).
  erewrite bind_Ok; cycle 1.
  { unfold sql_update_mtime. erewrite bind_Ok by reflexivity.
    erewrite bind_Ok by reflexivity. erewrite bind_Ok by (by apply sql_call_ok).
    rewrite where_path_str. reflexivity. }
  rewrite sql_commit_ok by done. unfold release_lock.
  eexists. split; [reflexivity|]. split; [reflexivity|]. split; [|reflexivity].
  unfold same_env. cbn. by rewrite Hl.
Qed.

Lemma commit_run_ffmpeg_ok p h m st c w :
  lock_held w = false ->
  sql_budget w = None ->
  let t := table_of (PS (SStr st)) in
  let s1 := set_rows (other_table t) (delete p (rows (other_table t) (db w))) (db w) in
  let r := mkRow (text_affinity h) (real_affinity m) (SStr st) (SStr (now_iso w))
             (text_affinity c) in
  exists w',
    commit_run_ffmpeg (PT [SStr p; h; m; SStr st; c]) w = (Ok tt, w')
    /\ db w' = set_rows t (<[p := r]> (rows t s1)) s1
    /\ same_env w w'
    /\ trace w' = (EvRelease :: EvAcquire :: trace w)%list.
Proof.
  intros Hl Hb t s1 r. unfold commit_run_ffmpeg.
  erewrite bind_Ok by (by apply acquire_lock_ok).
  unfold try_finally.
  erewrite bind_Ok by (by apply sql_connect_ok).
  erewrite bind_Ok by reflexivity. cbv beta iota.
  erewrite bind_Ok by (by apply sql_delete_ok).
  erewrite bind_Ok by reflexivity.
  erewrite bind_Ok; cycle 1.
  { unfold sql_insert_or_replace. erewrite bind_Ok by (by apply sql_call_ok).
    rewrite where_path_str. reflexivity. }
  rewrite sql_commit_ok by done. unfold release_lock.
  eexists. split; [reflexivity|]. split; [reflexivity|]. split; [|reflexivity].
  unfold same_env. cbn. by rewrite Hl.
Qed.

Lemma commit_run_ffmpeg_rows p h m st c w w' :
  lock_held w = false ->
  sql_budget w = None ->
  commit_run_ffmpeg (PT [SStr p; h; m; SStr st; c]) w = (Ok tt, w') ->
  let t := table_of (PS (SStr st)) in
  rows t (db w') !! p
  = Some (mkRow (text_affinity h) (real_affinity m) (SStr st) (SStr (now_iso w))
            (text_affinity c))
  /\ rows (other_table t) (db w') !! p = None
  /\ forall t' q, q <> p -> rows t' (db w') !! q = rows t' (db w) !! q.
Proof.
  intros Hl Hb H t.
  destruct (commit_run_ffmpeg_ok p h m st c w Hl Hb) as (w1 & H1 & Hdb & _).
  rewrite H1 in H. injection H as <-. rewrite Hdb. fold t.
  split; [|split].
  - rewrite rows_set_rows. apply lookup_insert_eq.
  - rewrite !rows_set_rows_other, rows_set_rows. apply lookup_delete_eq.
  - intros t' q Hq. destruct t, t'; cbn;
      rewrite ?lookup_insert_ne, ?lookup_delete_ne by done; reflexivity.
Qed.

(** The transactions that write the store, and any sequence of them. *)
Inductive transaction : Type :=
  | TxUpdateMtime (status extra : pyval) (file_path : string)
  | TxRunFfmpeg (extra : pyval)
  | TxBatch (st : pending)
  | TxCleanup
  | TxCheckIntegrity (audio_files : list string) (verbose force_recheck : bool).

Definition perform (tx : transaction) (w : world) : world :=
  match tx with
  | TxUpdateMtime status extra file_path =>
      snd (commit_update_mtime status extra file_path w)
  | TxRunFfmpeg extra => snd (commit_run_ffmpeg extra w)
  | TxBatch st => snd (batch_commit st w)
  | TxCleanup => snd (cleanup_database w)
  | TxCheckIntegrity audio_files verbose force_recheck =>
      snd (check_integrity audio_files verbose force_recheck w)
  end.

Definition perform_all (txs : list transaction) (w : world) : world :=
  foldl (fun w tx => perform tx w) w txs.

Lemma keeps_snd {A} (c : M A) w : keeps c -> exclusive (db w) -> exclusive (db (snd (c w))).
Proof. intros Hk He. destruct (c w) as [r w'] eqn:E. by apply (Hk w r w'). Qed.

Lemma perform_keeps tx w : exclusive (db w) -> exclusive (db (perform tx w)).
Proof.
  intros He. destruct tx; cbn [perform]; apply keeps_snd; try done.
  - apply keeps_commit_update_mtime.
  - apply keeps_commit_run_ffmpeg.
  - apply keeps_batch_commit.
  - apply keeps_cleanup_database.
  - apply keeps_check_integrity.
Qed.

(** Over every sequence of transactions of the engine (per-file commits,
    batch commits, sweeps and whole runs, with any arguments and whether they
    succeed or fail), no path is ever in both partitions; and a RUN result
    committed by the per-file commit leaves its path in the partition of its
    new outcome with the new record and in no other, the entry of the
    opposite partition being deleted in the same transaction, while every
    other path keeps its records.  The batch commit is not part of the
    second half: it commits no RUN result (see
    [committed_batch_holds_no_run_result]). *)
Theorem partitions_stay_exclusive :
  (forall txs w, exclusive (db w) -> exclusive (db (perform_all txs w)))
  /\ (forall p h m st c w,
        lock_held w = false -> sql_budget w = None ->
        exists w',
          commit_run_ffmpeg (PT [SStr p; h; m; SStr st; c]) w = (Ok tt, w')
          /\ rows (table_of (PS (SStr st))) (db w') !! p
             = Some (mkRow (text_affinity h) (real_affinity m) (SStr st)
                       (SStr (now_iso w)) (text_affinity c))
          /\ rows (other_table (table_of (PS (SStr st)))) (db w') !! p = None
          /\ forall t' q, q <> p -> rows t' (db w') !! q = rows t' (db w) !! q).
Proof.
  split.
  - intros txs. induction txs as [|tx rest IH]; intros w He; [done|].
    cbn [perform_all foldl]. apply IH. by apply perform_keeps.
  - intros p h m st c w Hl Hb.
    destruct (commit_run_ffmpeg_ok p h m st c w Hl Hb) as (w' & H & _).
    exists w'. split; [done|]. by apply commit_run_ffmpeg_rows.
Qed.

(** ** One iteration of the verbose loop, by the action of the file *)

Lemma verbose_step_use_cached force_recheck p rest results st msg x extra w w1 :
  process_file p force_recheck w
  = (Ok [PS (SStr "USE_CACHED"); st; msg; x; extra], w1) ->
  verbose_loop force_recheck (p :: rest) results w
  = verbose_loop force_recheck rest (results ++ [(st, msg, PS (SStr p))])%list w1.
Proof. intros H. cbn [verbose_loop]. erewrite bind_Ok by exact H. reflexivity. Qed.

Lemma verbose_step_update_mtime force_recheck p rest results st msg x extra w w1 :
  process_file p force_recheck w
  = (Ok [PS (SStr "UPDATE_MTIME"); st; msg; x; extra], w1) ->
  verbose_loop force_recheck (p :: rest) results w
  = bind (commit_update_mtime st extra p)
      (fun _ => verbose_loop force_recheck rest
                  (results ++ [(st, msg, PS (SStr p))])%list) w1.
Proof. intros H. cbn [verbose_loop]. erewrite bind_Ok by exact H. reflexivity. Qed.

Lemma verbose_step_run_ffmpeg force_recheck p rest results st msg x extra w w1 :
  process_file p force_recheck w
  = (Ok [PS (SStr "RUN_FFMPEG"); st; msg; x; extra], w1) ->
  verbose_loop force_recheck (p :: rest) results w
  = bind (commit_run_ffmpeg extra)
      (fun _ => verbose_loop force_recheck rest
                  (results ++ [(st, msg, PS (SStr p))])%list) w1.
Proof. intros H. cbn [verbose_loop]. erewrite bind_Ok by exact H. reflexivity. Qed.

Lemma determine_action_no_ffmpeg file_path f w w' q :
  trace w' = ((EvRelease :: scan_events (db w) file_path (f_mtime f)
               ++ [EvAcquire; EvStat file_path]) ++ trace w)%list ->
  count_event (EvFfmpeg q) w' = count_event (EvFfmpeg q) w.
Proof.
  intros Ht. rewrite (count_event_app _ _ w w' Ht).
  unfold scan_events. repeat case_match; reflexivity.
Qed.

(** C5 (amended): for a tracked file whose mtime changed while its bytes
    did not, and whose record's status column names the partition that holds
    it, the per-file loop takes the REFRESH path: its commit sets the
    record's mtime to the current one and changes nothing else.  The stored
    fingerprint, status, codec and last_checked of the record, the partition
    that holds it, and every record of every other path stay as they were,
    and the verifier is not invoked. *)
Theorem refresh_commit_frame file_path f r t w :
  lock_held w = false ->
  sql_budget w = None ->
  fs w !! file_path = Some f ->
  lookup_record (db w) file_path = Some r ->
  rows t (db w) !! file_path = Some r ->
  table_of (PS (status r)) = t ->
  mtime r <> SFloat (f_mtime f) ->
  file_hash r = SStr (digest (f_bytes f)) ->
  exists w',
    verbose_loop false [file_path] [] w
    = (Ok [(PS (status r), PS (SStr "Cached result (hash matches)"),
            PS (SStr file_path))], w')
    /\ rows t (db w') !! file_path = Some (set_mtime (SFloat (f_mtime f)) r)
    /\ (forall p, p <> file_path -> rows t (db w') !! p = rows t (db w) !! p)
    /\ rows (other_table t) (db w') = rows (other_table t) (db w)
    /\ (forall p, count_event (EvFfmpeg p) w' = count_event (EvFfmpeg p) w).
Proof.
  intros Hl Hb Hf Hrec Hrow Ht Hm Hh.
  destruct (determine_action_present file_path f w Hf Hl Hb) as (w1 & Hd & Hs & Htr).
  rewrite Hrec in Hd. unfold decision_tuple in Hd.
  rewrite decide_False, decide_True in Hd by done.
  pose proof (process_file_of_decision _ _ _ _ _ Hd) as Hp. cbn in Hp.
  rewrite (verbose_step_update_mtime _ _ _ _ _ _ _ _ _ _ Hp).
  destruct Hs as (Hfs & Hdb & Hl1 & Hb1 & _).
  destruct (commit_update_mtime_ok (PS (status r)) (SFloat (f_mtime f)) file_path w1)
    as (w2 & Hc & Hdb2 & _ & Htr2); [congruence..|].
  erewrite bind_Ok by exact Hc. cbn [verbose_loop app].
  exists w2. split; [reflexivity|].
  rewrite Hdb2, Hdb, Ht. cbn [real_affinity].
  split; [|split; [|split]].
  - rewrite rows_set_rows, lookup_alter_eq, Hrow. reflexivity.
  - intros p Hp'. rewrite rows_set_rows. by rewrite lookup_alter_ne.
  - apply rows_set_rows_other.
  - intros p. unfold count_event. rewrite Htr2. cbn [filter].
    rewrite !filter_cons, !decide_False by discriminate.
    by apply (determine_action_no_ffmpeg file_path f w w1).
Qed.

(** ** Where the two loops of [check_integrity] part from the specification *)

(** A path that is not on disk: the decision is FILE_NOT_FOUND, for which
    [process_file] returns four values. *)
Lemma process_file_missing file_path w :
  fs w !! file_path = None ->
  process_file file_path false w
  = (Ok [PS (SStr "ERROR"); PS (SStr "Unknown action"); PS (SStr file_path);
         PS SNone], log (EvStat file_path) w).
Proof.
  intros Hf.
  rewrite (process_file_of_decision _ _ file_not_found _ (log (EvStat file_path) w));
    [reflexivity|].
  unfold determine_action, try_except, bind.
  by rewrite getmtime_missing.
Qed.

(** Both loops bind five names to that result, so the run stops there with
    ValueError: no result of a later file is collected, nothing is committed
    and the sweep is not reached. *)
Lemma missing_file_stops_the_run file_path rest verbose w :
  fs w !! file_path = None ->
  check_integrity (file_path :: rest) verbose false w
  = (Raise ValueError, log (EvStat file_path) w).
Proof.
  intros Hf. unfold check_integrity, bind at 1. destruct verbose.
  - cbn [verbose_loop]. unfold bind at 1. by rewrite process_file_missing.
  - unfold bind at 1. cbn [pool_loop]. unfold bind at 1.
    by rewrite process_file_missing.
Qed.

Lemma bind_inv {A B} (c : M A) (k : A -> M B) w r w' :
  bind c k w = (r, w') ->
  (exists a w1, c w = (Ok a, w1) /\ k a w1 = (r, w'))
  \/ ((forall b, r <> Ok b) /\ exists r0, c w = (r0, w') /\ forall a, r0 <> Ok a).
Proof.
  unfold bind. destruct (c w) as [[a|e|] w1] eqn:E; intros H.
  - left. by exists a, w1.
  - right. injection H as <- <-. split; [done|]. by exists (Raise e).
  - right. injection H as <- <-. split; [done|]. by exists Hang.
Qed.

(** X15: a batch that holds a RUN result, passed or failed, never commits:
    the transaction raises before its INSERT statements and the committed
    store is the one before the batch, mtime updates of the same batch
    included. *)
Lemma batch_with_run_result_is_lost st w r w' :
  db_updates_passed st <> [] \/ db_updates_failed st <> [] ->
  batch_commit st w = (r, w') ->
  db w' = db w /\ r <> Ok tt.
Proof.
  intros Hne H. unfold batch_commit in H.
  apply bind_inv in H as [(? & w1 & Ha & H)|(Hn & r0 & Ha & _)]; cycle 1.
  { split; [by apply (quiet_acquire_lock _ _ _ Ha)|apply Hn]. }
  apply quiet_acquire_lock in Ha. rewrite <- Ha. clear Ha.
  unfold try_finally in H.
  match type of H with context [match ?body w1 with _ => _ end] =>
    destruct (body w1) as [rb wb] eqn:Hb end.
  assert (db wb = db w1 /\ rb <> Ok tt) as [Hdb Hr].
  { clear H.
    apply bind_inv in Hb as [(c0 & w2 & H0 & Hb)|(Hn & r0 & H0 & _)]; cycle 1.
    { split; [by apply (quiet_sql_connect _ _ _ H0)|apply Hn]. }
    apply quiet_sql_connect in H0. rewrite <- H0. clear H0.
    apply bind_inv in Hb as [(c1 & w3 & H1 & Hb)|(Hn & r0 & H1 & _)]; cycle 1.
    { split; [by apply (quiet_executemany_update _ _ _ _ _ _ H1)|apply Hn]. }
    apply quiet_executemany_update in H1. rewrite <- H1. clear H1.
    apply bind_inv in Hb as [(c2 & w4 & H2 & Hb)|(Hn & r0 & H2 & _)]; cycle 1.
    { split; [by apply (quiet_executemany_update _ _ _ _ _ _ H2)|apply Hn]. }
    apply quiet_executemany_update in H2. rewrite <- H2. clear H2.
    apply bind_inv in Hb as [(c3 & w5 & H3 & Hb)|(Hn & r0 & H3 & _)]; cycle 1.
    { split; [by apply (quiet_flush_db_updates _ _ _ _ _ _ H3)|apply Hn]. }
    apply bind_inv in Hb as [(c4 & w6 & H4 & Hb)|(Hn & r0 & H4 & _)]; cycle 1.
    { split; [|apply Hn].
      rewrite (quiet_flush_db_updates _ _ _ _ _ _ H4).
      by apply (quiet_flush_db_updates _ _ _ _ _ _ H3). }
    exfalso. destruct Hne as [Hne|Hne].
    - destruct (db_updates_passed st) as [|u l] eqn:E; [done|].
      by apply (flush_db_updates_nonempty _ _ _ _ _ _ _ H3 c3).
    - destruct (db_updates_failed st) as [|u l] eqn:E; [done|].
      by apply (flush_db_updates_nonempty _ _ _ _ _ _ _ H4 c4). }
  unfold release_lock in H.
  destruct rb as [[]|e|]; injection H as <- <-; cbn [db log set_lock]; by rewrite ?Hdb.
Qed.

(** ** Two runs of the verbose loop

    The per-file loop does what the specification asks of a second run:
    after a run over files that exist, a second run over the same files
    takes USE_CACHED for every one and never invokes the verifier. *)

(** The status column of every row names the table that holds it; the
    engine writes no other rows. *)
Definition well_formed (s : store) : Prop :=
  forall t p r, rows t s !! p = Some r -> table_of (PS (status r)) = t.

(** The record the decision reads carries the file's current mtime. *)
Definition fresh (w : world) (p : string) : Prop :=
  exists f r,
    fs w !! p = Some f /\ lookup_record (db w) p = Some r
    /\ mtime r = SFloat (f_mtime f).

Lemma lookup_record_rows s p r :
  well_formed s ->
  lookup_record s p = Some r ->
  rows (table_of (PS (status r))) s !! p = Some r
  /\ (table_of (PS (status r)) = failed_files -> passed s !! p = None).
Proof.
  intros Hwf. unfold lookup_record.
  destruct (passed s !! p) as [rp|] eqn:Hp.
  - intros [= ->]. rewrite (Hwf passed_files p r Hp). split; [done|]. discriminate.
  - intros Hf. rewrite (Hwf failed_files p r Hf). by split.
Qed.

Lemma lookup_record_ext s s' p :
  (forall t, rows t s' !! p = rows t s !! p) ->
  lookup_record s' p = lookup_record s p.
Proof.
  intros H. unfold lookup_record.
  rewrite (H passed_files : passed s' !! p = passed s !! p).
  by rewrite (H failed_files : failed s' !! p = failed s !! p).
Qed.

Lemma well_formed_update_mtime t m k s :
  well_formed s ->
  well_formed (set_rows t (alter (set_mtime m) k (rows t s)) s).
Proof.
  intros Hwf t' p r. destruct (decide (t' = t)) as [->|Hne].
  - rewrite rows_set_rows. destruct (decide (p = k)) as [->|Hpk].
    + rewrite lookup_alter_eq. destruct (rows t s !! k) as [r0|] eqn:E; [|done].
      intros [= <-]. apply (Hwf t k r0 E).
    + rewrite lookup_alter_ne by done. apply Hwf.
  - replace t' with (other_table t) by (by destruct t, t').
    rewrite rows_set_rows_other. apply Hwf.
Qed.

Lemma lookup_record_update_mtime m p r s :
  well_formed s ->
  lookup_record s p = Some r ->
  lookup_record
    (set_rows (table_of (PS (status r)))
       (alter (set_mtime m) p (rows (table_of (PS (status r))) s)) s) p
  = Some (set_mtime m r).
Proof.
  intros Hwf Hr. destruct (lookup_record_rows s p r Hwf Hr) as [Hrow Hnp].
  unfold lookup_record. destruct (table_of (PS (status r))); cbn in *.
  - by rewrite lookup_alter_eq, Hrow.
  - rewrite Hnp by done. by rewrite lookup_alter_eq, Hrow.
Qed.

Lemma well_formed_run t p r s :
  well_formed s ->
  table_of (PS (status r)) = t ->
  well_formed
    (set_rows t
       (<[p := r]>
          (rows t (set_rows (other_table t) (delete p (rows (other_table t) s)) s)))
       (set_rows (other_table t) (delete p (rows (other_table t) s)) s)).
Proof.
  intros Hwf Ht t' q r'. destruct t, t'; cbn.
  - destruct (decide (q = p)) as [->|Hq].
    + rewrite lookup_insert_eq. by intros [= <-].
    + rewrite lookup_insert_ne by done. apply (Hwf passed_files q r').
  - intros [_ H]%lookup_delete_Some. by apply (Hwf failed_files q r').
  - intros [_ H]%lookup_delete_Some. by apply (Hwf passed_files q r').
  - destruct (decide (q = p)) as [->|Hq].
    + rewrite lookup_insert_eq. by intros [= <-].
    + rewrite lookup_insert_ne by done. apply (Hwf failed_files q r').
Qed.

Lemma lookup_record_run t p r s :
  lookup_record
    (set_rows t
       (<[p := r]>
          (rows t (set_rows (other_table t) (delete p (rows (other_table t) s)) s)))
       (set_rows (other_table t) (delete p (rows (other_table t) s)) s)) p
  = Some r.
Proof.
  unfold lookup_record. destruct t; cbn.
  - by rewrite lookup_insert_eq.
  - by rewrite lookup_delete_eq, lookup_insert_eq.
Qed.

Lemma check_single_file_same_state file_path w r w' :
  check_single_file file_path w = (r, w') -> same_state w w'.
Proof.
  unfold check_single_file, try_except, run_ffmpeg, bind, emit, ret. cbn.
  destruct (ffmpeg w file_path) as [out err | e] eqn:Hff; cbn.
  - destruct (get_codec_total file_path (log (EvFfmpeg file_path) w)) as [c Hc].
    rewrite Hc. intros [= <- <-]. do 2 apply same_state_log. apply same_state_refl.
  - destruct e; intros [= <- <-]; apply same_state_log, same_state_refl.
Qed.

Lemma rows_update_other_path t0 m p s t q :
  q <> p ->
  rows t (set_rows t0 (alter (set_mtime m) p (rows t0 s)) s) !! q = rows t s !! q.
Proof.
  intros Hq. destruct t0, t; cbn; rewrite ?lookup_alter_ne by done; reflexivity.
Qed.

(** One file of the verbose loop whose decision is RUN. *)
Lemma verbose_file_step_run p h m w w1 :
  determine_action p false w = (Ok [SStr "RUN_FFMPEG"; SNone; SStr h; SFloat m], w1) ->
  lock_held w1 = false ->
  sql_budget w1 = None ->
  well_formed (db w1) ->
  exists row w3,
    (forall rest results,
       verbose_loop false (p :: rest) results w
       = verbose_loop false rest (results ++ [row])%list w3)
    /\ same_env w1 w3
    /\ well_formed (db w3)
    /\ (exists r, lookup_record (db w3) p = Some r /\ mtime r = SFloat m)
    /\ (forall t q, q <> p -> rows t (db w3) !! q = rows t (db w1) !! q).
Proof.
  intros Hd Hl Hb Hwf.
  pose proof (process_file_of_decision _ _ _ _ _ Hd) as Hp. cbn in Hp.
  destruct (check_single_file p w1) as [rc w2] eqn:Hc.
  pose proof (check_single_file_same_state _ _ _ _ Hc) as Hs2.
  destruct (check_single_file_spec p w1) as (probed & w2' & Hc' & _).
  rewrite Hc in Hc'. injection Hc' as -> <-.
  destruct (classify p (ffmpeg w1 p) probed) as [[[st msg] x] cd].
  destruct Hs2 as (Hfs2 & Hdb2 & Hl2 & Hb2 & Hn2 & Hff2 & Hfp2).
  destruct (commit_run_ffmpeg_ok p (SStr h) (SFloat m) st (SStr cd) w2)
    as (w3 & Hc3 & Hdb3 & He3 & _); [congruence..|].
  eexists _, w3. split.
  { intros rest results. rewrite (verbose_step_run_ffmpeg _ _ _ _ _ _ _ _ _ _ Hp).
    by erewrite bind_Ok by exact Hc3. }
  split.
  { eapply same_env_trans; [|exact He3]. unfold same_env. by repeat split. }
  rewrite Hdb3, Hdb2. cbn [real_affinity text_affinity]. split; [|split].
  - by apply well_formed_run.
  - eexists. split; [apply lookup_record_run|reflexivity].
  - intros t q Hq. destruct (table_of (PS (SStr st))), t; cbn;
      rewrite ?lookup_insert_ne, ?lookup_delete_ne by done; reflexivity.
Qed.

(** One file of the verbose loop: whatever its decision, the iteration
    completes, leaves the file's record carrying the current mtime, and
    touches the records of no other path. *)
Lemma verbose_file_step p f w :
  lock_held w = false ->
  sql_budget w = None ->
  well_formed (db w) ->
  fs w !! p = Some f ->
  exists row w',
    (forall rest results,
       verbose_loop false (p :: rest) results w
       = verbose_loop false rest (results ++ [row])%list w')
    /\ same_env w w'
    /\ well_formed (db w')
    /\ (exists r, lookup_record (db w') p = Some r /\ mtime r = SFloat (f_mtime f))
    /\ (forall t q, q <> p -> rows t (db w') !! q = rows t (db w) !! q).
Proof.
  intros Hl Hb Hwf Hf.
  destruct (determine_action_present p f w Hf Hl Hb) as (w1 & Hd & Hs & _).
  pose proof Hs as (Hfs1 & Hdb1 & Hl1 & Hb1 & _).
  assert (Hrun : forall h,
    determine_action p false w
    = (Ok [SStr "RUN_FFMPEG"; SNone; SStr h; SFloat (f_mtime f)], w1) ->
    exists row w',
      (forall rest results,
         verbose_loop false (p :: rest) results w
         = verbose_loop false rest (results ++ [row])%list w')
      /\ same_env w w'
      /\ well_formed (db w')
      /\ (exists r, lookup_record (db w') p = Some r /\ mtime r = SFloat (f_mtime f))
      /\ (forall t q, q <> p -> rows t (db w') !! q = rows t (db w) !! q)).
  { intros h Hd'.
    destruct (verbose_file_step_run p h (f_mtime f) w w1 Hd')
      as (row & w3 & Hv & He & Hwf3 & Hfr & Hoth);
      [congruence|congruence|by rewrite Hdb1|].
    exists row, w3. split; [done|]. split.
    { eapply same_env_trans; [by apply same_state_env|done]. }
    split; [done|]. split; [done|]. intros t q Hq. rewrite Hoth by done.
    by rewrite Hdb1. }
  unfold decision_tuple in Hd.
  destruct (lookup_record (db w) p) as [r|] eqn:Hrec; [|by eapply Hrun].
  destruct (decide (mtime r = SFloat (f_mtime f))) as [Hm|Hm].
  - pose proof (process_file_of_decision _ _ _ _ _ Hd) as Hp. cbn in Hp.
    eexists _, w1. split.
    { intros rest results. apply (verbose_step_use_cached _ _ _ _ _ _ _ _ _ _ Hp). }
    split; [by apply same_state_env|]. rewrite Hdb1.
    split; [done|]. split; [by exists r|done].
  - destruct (decide (file_hash r = SStr (digest (f_bytes f)))) as [Hh|Hh];
      [|by eapply Hrun].
    pose proof (process_file_of_decision _ _ _ _ _ Hd) as Hp. cbn in Hp.
    destruct (commit_update_mtime_ok (PS (status r)) (SFloat (f_mtime f)) p w1)
      as (w2 & Hc & Hdb2 & He2 & _); [congruence..|].
    eexists _, w2. split.
    { intros rest results. rewrite (verbose_step_update_mtime _ _ _ _ _ _ _ _ _ _ Hp).
      by erewrite bind_Ok by exact Hc. }
    split.
    { eapply same_env_trans; [by apply same_state_env|done]. }
    rewrite Hdb2, Hdb1. cbn [real_affinity]. split; [|split].
    + by apply well_formed_update_mtime.
    + eexists. split; [by apply lookup_record_update_mtime|reflexivity].
    + intros t q Hq. by apply rows_update_other_path.
Qed.

Lemma fresh_preserved w w' q :
  fs w' = fs w ->
  (forall t, rows t (db w') !! q = rows t (db w) !! q) ->
  fresh w q -> fresh w' q.
Proof.
  intros Hfs Hrows (f & r & Hf & Hr & Hm). exists f, r.
  split; [by rewrite Hfs|]. split; [|done].
  by rewrite (lookup_record_ext (db w) (db w') q Hrows).
Qed.

(** The first run: every file ends up with a fresh record. *)
Lemma verbose_loop_total audio_files results w :
  lock_held w = false ->
  sql_budget w = None ->
  well_formed (db w) ->
  (forall p, p ∈ audio_files -> is_Some (fs w !! p)) ->
  exists res w',
    verbose_loop false audio_files results w = (Ok res, w')
    /\ same_env w w'
    /\ well_formed (db w')
    /\ (forall p, p ∈ audio_files -> fresh w' p)
    /\ (forall q, fresh w q -> fresh w' q).
Proof.
  revert results w. induction audio_files as [|p rest IH]; intros results w Hl Hb Hwf Hex.
  - exists results, w. split; [done|]. split; [by repeat split|]. split; [done|].
    split; [|done]. by intros p ?%elem_of_nil.
  - destruct (Hex p) as [f Hf]; [by left|].
    destruct (verbose_file_step p f w Hl Hb Hwf Hf)
      as (row & w1 & Hv & He & Hwf1 & (r & Hr & Hm) & Hoth).
    pose proof He as (Hfs1 & Hl1 & Hb1 & _).
    assert (Hp1 : fresh w1 p) by (exists f, r; by rewrite Hfs1).
    assert (Hk1 : forall q, fresh w q -> fresh w1 q).
    { intros q Hq. destruct (decide (q = p)) as [->|Hne]; [done|].
      apply (fresh_preserved w); [done| |done]. intros t. by apply Hoth. }
    destruct (IH (results ++ [row])%list w1) as (res & w' & Hloop & He' & Hwf' & Hin & Hk');
      [congruence|congruence|done| |].
    { intros q Hq. rewrite Hfs1. apply Hex. by right. }
    exists res, w'. split; [by rewrite Hv|].
    split; [by eapply same_env_trans|].
    split; [done|]. split.
    + intros q [->|Hq]%elem_of_cons; [by apply Hk'|by apply Hin].
    + intros q Hq. by apply Hk', Hk1.
Qed.

(** The second run: every file is USE_CACHED, nothing is written and the
    verifier is not invoked. *)
Lemma verbose_loop_cached audio_files results w :
  lock_held w = false ->
  sql_budget w = None ->
  (forall p, p ∈ audio_files -> fresh w p) ->
  exists new w',
    verbose_loop false audio_files results w = (Ok (results ++ new)%list, w')
    /\ same_state w w'
    /\ Forall (fun row : result_row => row.1.2 = PS (SStr "Cached result")) new
    /\ length new = length audio_files
    /\ (forall p, count_event (EvFfmpeg p) w' = count_event (EvFfmpeg p) w).
Proof.
  revert results w. induction audio_files as [|p rest IH]; intros results w Hl Hb Hfr.
  - exists [], w. rewrite app_nil_r. split; [done|].
    split; [apply same_state_refl|]. by repeat split.
  - destruct (Hfr p) as (f & r & Hf & Hr & Hm); [by left|].
    destruct (determine_action_present p f w Hf Hl Hb) as (w1 & Hd & Hs & Ht).
    rewrite Hr in Hd. unfold decision_tuple in Hd. rewrite decide_True in Hd by done.
    pose proof (process_file_of_decision _ _ _ _ _ Hd) as Hp. cbn in Hp.
    pose proof Hs as (Hfs1 & Hdb1 & Hl1 & Hb1 & _).
    destruct (IH (results ++ [(PS (status r), PS (SStr "Cached result"),
                               PS (SStr p))])%list w1)
      as (new & w' & Hloop & Hs' & Hall & Hlen & Hcnt); [congruence|congruence| |].
    { intros q Hq. apply (fresh_preserved w); [done|by rewrite Hdb1|].
      apply Hfr. by right. }
    eexists (_ :: new), w'. split.
    { rewrite (verbose_step_use_cached _ _ _ _ _ _ _ _ _ _ Hp), Hloop.
      by rewrite <- app_assoc. }
    split; [by eapply same_state_trans|]. split; [by constructor|].
    split; [cbn [length]; by rewrite Hlen|].
    intros q. rewrite Hcnt. by apply (determine_action_no_ffmpeg p f w w1).
Qed.

Lemma store_ext (s s' : store) :
  (forall t p, rows t s' !! p = rows t s !! p) -> s' = s.
Proof.
  intros H. destruct s as [ps fl], s' as [ps' fl']. f_equal.
  - apply map_eq. intros p. apply (H passed_files p).
  - apply map_eq. intros p. apply (H failed_files p).
Qed.

(** X11: the per-file (verbose) loop satisfies the idempotence the
    specification asks for: over files that exist, with the lock free,
    sqlite not failing and a store whose rows name their partition, a run
    completes, a second run over the same files completes too, reports a
    cached result for every file, invokes the verifier for none and leaves
    the store as the first run left it. *)
Lemma verbose_run_is_idempotent audio_files w :
  lock_held w = false ->
  sql_budget w = None ->
  well_formed (db w) ->
  (forall p, p ∈ audio_files -> is_Some (fs w !! p)) ->
  exists res1 w1,
    check_integrity audio_files true false w = (Ok res1, w1)
    /\ exists res2 w2,
         check_integrity audio_files true false w1 = (Ok res2, w2)
         /\ Forall (fun row : result_row => row.1.2 = PS (SStr "Cached result")) res2
         /\ length res2 = length audio_files
         /\ (forall p, count_event (EvFfmpeg p) w2 = count_event (EvFfmpeg p) w1)
         /\ db w2 = db w1.
Proof.
  intros Hl Hb Hwf Hex.
  destruct (verbose_loop_total audio_files [] w Hl Hb Hwf Hex)
    as (res1 & wa & Hloop1 & (Hfsa & Hla & Hba & _) & Hwfa & Hfra & _).
  destruct (cleanup_database_ok wa) as (w1 & Hc1 & Hfs1 & Hl1 & Hb1 & _ & Hrows1);
    [congruence..|].
  exists res1, w1. split.
  { unfold check_integrity. erewrite bind_Ok by exact Hloop1.
    by erewrite bind_Ok by exact Hc1. }
  assert (Hfr1 : forall p, p ∈ audio_files -> fresh w1 p).
  { intros p Hp. apply (fresh_preserved wa); [done| |by apply Hfra].
    intros t. rewrite Hrows1. destruct (Hfra p Hp) as (f & _ & -> & _). done. }
  destruct (verbose_loop_cached audio_files [] w1 Hl1 Hb1 Hfr1)
    as (res2 & wb & Hloop2 & (Hfsb & Hdbb & Hlb & Hbb & _) & Hall & Hlen & Hcnt).
  destruct (cleanup_database_ok wb) as (w2 & Hc2 & Hfs2 & Hl2 & Hb2 & Htr2 & Hrows2);
    [congruence..|].
  exists res2, w2. split.
  { unfold check_integrity. erewrite bind_Ok by exact Hloop2.
    by erewrite bind_Ok by exact Hc2. }
  split; [done|]. split; [done|]. split.
  - intros p. rewrite <- Hcnt. unfold count_event. rewrite Htr2.
    by rewrite !filter_cons, !decide_False by discriminate.
  - apply store_ext. intros t p. rewrite Hrows2, Hdbb, Hfsb, Hrows1, Hfs1.
    by destruct (fs wa !! p).
Qed.

(** ** Codec names

    [str.lower()] and [str.strip()] as [normalize_codec] composes them, and
    what the lookup table then gives. *)

Lemma is_space_lower_char c : is_space (lower_char c) = is_space c.
Proof. destruct c as [[] [] [] [] [] [] [] []]; reflexivity. Qed.

Lemma lower_char_idem c : lower_char (lower_char c) = lower_char c.
Proof. destruct c as [[] [] [] [] [] [] [] []]; reflexivity. Qed.

Lemma py_lower_idem s : py_lower (py_lower s) = py_lower s.
Proof. induction s as [|c s IH]; cbn; [done|]. by rewrite lower_char_idem, IH. Qed.

Lemma lstrip_lower s : lstrip (py_lower s) = py_lower (lstrip s).
Proof.
  induction s as [|c s IH]; cbn; [done|]. rewrite is_space_lower_char.
  by destruct (is_space c).
Qed.

Lemma rstrip_lower s : rstrip (py_lower s) = py_lower (rstrip s).
Proof.
  induction s as [|c s IH]; cbn; [done|]. rewrite IH, is_space_lower_char.
  destruct (rstrip s); cbn; [by destruct (is_space c)|done].
Qed.

Lemma py_strip_lower s : py_strip (py_lower s) = py_lower (py_strip s).
Proof. unfold py_strip. by rewrite lstrip_lower, rstrip_lower. Qed.

(** A text that does not start with whitespace. *)
Definition starts_clean (s : string) : Prop :=
  match s with
  | EmptyString => True
  | String c _ => is_space c = false
  end.

Lemma lstrip_clean s : starts_clean (lstrip s).
Proof.
  induction s as [|c s IH]; cbn; [done|].
  destruct (is_space c) eqn:E; [done|]. exact E.
Qed.

Lemma lstrip_fixed s : starts_clean s -> lstrip s = s.
Proof. destruct s as [|c s]; cbn; [done|]. by intros ->. Qed.

Lemma rstrip_clean s : starts_clean s -> starts_clean (rstrip s).
Proof.
  destruct s as [|c s]; cbn; [done|]. intros Hc.
  destruct (rstrip s); [by rewrite Hc|done].
Qed.

Lemma rstrip_cons c s :
  rstrip (String c s)
  = match rstrip s with
    | EmptyString => if is_space c then EmptyString else String c EmptyString
    | r => String c r
    end.
Proof. reflexivity. Qed.

Lemma rstrip_idem s : rstrip (rstrip s) = rstrip s.
Proof.
  induction s as [|c s IH]; [done|]. rewrite rstrip_cons.
  destruct (rstrip s) as [|d r] eqn:E.
  - destruct (is_space c) eqn:Ec; [done|]. rewrite rstrip_cons. cbn. by rewrite Ec.
  - rewrite rstrip_cons, IH. reflexivity.
Qed.

Lemma py_strip_idem s : py_strip (py_strip s) = py_strip s.
Proof.
  unfold py_strip.
  rewrite (lstrip_fixed (rstrip (lstrip s))) by apply rstrip_clean, lstrip_clean.
  apply rstrip_idem.
Qed.

(** The key [normalize_codec] looks up is a fixed point of its own
    preparation. *)
Lemma codec_key_fixed codec :
  py_strip (py_lower (py_strip (py_lower codec))) = py_strip (py_lower codec).
Proof. by rewrite <- py_strip_lower, py_lower_idem, py_strip_idem. Qed.

Lemma dict_get_cases {V} (d : list (string * V)) k default :
  dict_get d k default = default \/ In (k, dict_get d k default) d.
Proof.
  induction d as [|[k' v] d IH]; cbn; [by left|].
  destruct (String.eqb k' k) eqn:E.
  - apply String.eqb_eq in E as ->. right. by left.
  - destruct IH; [by left|right; by right].
Qed.

Lemma codec_map_entries :
  Forall (fun kv : string * (string * string) =>
            normalize_codec (fst (snd kv)) = snd kv
            /\ (snd (snd kv) = "lossy" \/ snd (snd kv) = "lossless"))
    codec_map.
Proof.
  unfold codec_map.
  repeat (constructor;
          [split; [vm_compute; reflexivity
                  |first [left; reflexivity | right; reflexivity]]|]).
  constructor.
Qed.

(** X1: normalizing a normalized codec name changes nothing: the name
    [normalize_codec] returns is normalized to itself, with the same type,
    whether the codec was in the table or passed through. *)
Theorem normalize_codec_idempotent codec :
  normalize_codec (fst (normalize_codec codec)) = normalize_codec codec.
Proof.
  unfold normalize_codec at 2 3.
  destruct (dict_get_cases codec_map (py_strip (py_lower codec))
              (py_strip (py_lower codec), "unknown")) as [Heq | Hin].
  - rewrite Heq. cbn [fst]. unfold normalize_codec. by rewrite codec_key_fixed.
  - pose proof codec_map_entries as Hall. rewrite Forall_forall in Hall.
    apply list_elem_of_In in Hin. apply (Hall _ Hin).
Qed.

(** X2: [normalize_codec] does not distinguish a codec name from its
    lowercase form nor from the name without surrounding whitespace. *)
Theorem normalize_codec_ignores_case_and_blanks codec :
  normalize_codec (py_lower codec) = normalize_codec codec
  /\ normalize_codec (py_strip codec) = normalize_codec codec.
Proof.
  unfold normalize_codec. split.
  - by rewrite py_lower_idem.
  - by rewrite <- py_strip_lower, py_strip_idem, py_strip_lower.
Qed.

(** X3: the codec type is lossy, lossless or unknown; it is unknown only
    for a name that is not in the table, and the name returned is then the
    lowercased, stripped input. *)
Theorem normalize_codec_type codec :
  (snd (normalize_codec codec) = "lossy" \/ snd (normalize_codec codec) = "lossless"
   \/ snd (normalize_codec codec) = "unknown")
  /\ (snd (normalize_codec codec) = "unknown" ->
      normalize_codec codec = (py_strip (py_lower codec), "unknown")).
Proof.
  unfold normalize_codec.
  destruct (dict_get_cases codec_map (py_strip (py_lower codec))
              (py_strip (py_lower codec), "unknown")) as [-> | Hin].
  - split; [by right; right|done].
  - pose proof codec_map_entries as Hall. rewrite Forall_forall in Hall.
    apply list_elem_of_In in Hin. destruct (Hall _ Hin) as [_ Hty]. cbn [snd] in Hty.
    split; [destruct Hty as [H|H]; [by left|by right; left]|].
    intros Hu. rewrite Hu in Hty. by destruct Hty.
Qed.

(** ** The verifier adapter and the probe *)

Lemma get_codec_value file_path w :
  get_codec file_path w
  = (Ok match ffprobe w file_path with
        | Completed out _ =>
            if py_not out then "unknown" else fst (normalize_codec (py_strip out))
        | ProcRaises _ => "unknown"
        end, log (EvFfprobe file_path) w).
Proof.
  unfold get_codec, try_except, run_ffprobe, bind, emit, ret. cbn.
  destruct (ffprobe w file_path) as [out err | e]; cbn; [|done].
  destruct (py_not out); [reflexivity|by destruct (normalize_codec _)].
Qed.

(** X4: [check_single_file] always returns, with status PASSED or FAILED and
    an empty message whenever it is PASSED; it runs the tool once.  The
    codec probe runs only after the tool completed, and its answer alone
    (its standard output, whatever it wrote on its error channel) gives the
    codec; when the tool timed out or raised, the probe is not run and the
    codec is [unknown]. *)
Theorem probe_runs_after_completed_tool file_path w :
  exists status message codec w',
    check_single_file file_path w = (Ok (status, message, file_path, codec), w')
    /\ (status = "PASSED" \/ status = "FAILED")
    /\ (status = "PASSED" -> message = "")
    /\ count_event (EvFfmpeg file_path) w' = S (count_event (EvFfmpeg file_path) w)
    /\ match ffmpeg w file_path with
       | Completed _ _ =>
           count_event (EvFfprobe file_path) w'
           = S (count_event (EvFfprobe file_path) w)
           /\ codec = match ffprobe w file_path with
                      | Completed out _ =>
                          if py_not out then "unknown"
                          else fst (normalize_codec (py_strip out))
                      | ProcRaises _ => "unknown"
                      end
       | ProcRaises _ =>
           count_event (EvFfprobe file_path) w' = count_event (EvFfprobe file_path) w
           /\ codec = "unknown"
       end.
Proof.
  unfold check_single_file, try_except, run_ffmpeg, bind, emit, ret. cbn.
  destruct (ffmpeg w file_path) as [out err | e] eqn:Hff; cbn.
  - rewrite get_codec_value. cbn [ffprobe log].
    eexists _, _, _, _. split; [reflexivity|].
    rewrite !count_event_log.
    destruct err; cbn; repeat split; auto; try discriminate;
      repeat case_decide; done.
  - destruct e; eexists _, _, _, _; (split; [reflexivity|]);
      rewrite !count_event_log; repeat split; auto; try discriminate;
      repeat case_decide; done.
Qed.

Lemma check_single_file_ffmpeg_count file_path w r w' q :
  check_single_file file_path w = (r, w') ->
  count_event (EvFfmpeg q) w'
  = ((if decide (q = file_path) then 1 else 0) + count_event (EvFfmpeg q) w)%nat.
Proof.
  unfold check_single_file, try_except, run_ffmpeg, bind, emit, ret. cbn.
  assert (Hq : count_event (EvFfmpeg q) (log (EvFfmpeg file_path) w)
               = ((if decide (q = file_path) then 1 else 0)
                  + count_event (EvFfmpeg q) w)%nat).
  { rewrite count_event_log. destruct (decide (q = file_path)) as [->|Hne].
    - by rewrite decide_True.
    - rewrite decide_False; [done|]. by intros [= ->]. }
  destruct (ffmpeg w file_path) as [out err | e] eqn:Hff; cbn.
  - rewrite get_codec_value. intros [= <- <-].
    rewrite count_event_log, decide_False by discriminate. exact Hq.
  - destruct e; intros [= <- <-]; exact Hq.
Qed.

(** X5: with the lock free and sqlite not failing, [process_file] returns for
    every path, present or not, forced or not; it never changes the store,
    and it invokes the verifier exactly when its result is a RUN_FFMPEG
    result, once and on that file: a cached or refreshed result costs no
    verifier run. *)
Theorem process_file_verifies_only_on_run file_path force_recheck w :
  lock_held w = false ->
  sql_budget w = None ->
  exists r w',
    process_file file_path force_recheck w = (Ok r, w')
    /\ db w' = db w
    /\ (r !! 0%nat = Some (PS (SStr "RUN_FFMPEG")) ->
        forall q, count_event (EvFfmpeg q) w'
                  = ((if decide (q = file_path) then 1 else 0)
                     + count_event (EvFfmpeg q) w)%nat)
    /\ (r !! 0%nat <> Some (PS (SStr "RUN_FFMPEG")) ->
        forall q, count_event (EvFfmpeg q) w' = count_event (EvFfmpeg q) w).
Proof.
  intros Hl Hb.
  assert (Hrun : forall h m w1,
    determine_action file_path force_recheck w
    = (Ok [SStr "RUN_FFMPEG"; SNone; SStr h; SFloat m], w1) ->
    db w1 = db w ->
    (forall q, count_event (EvFfmpeg q) w1 = count_event (EvFfmpeg q) w) ->
    exists r w',
      process_file file_path force_recheck w = (Ok r, w')
      /\ db w' = db w
      /\ (r !! 0%nat = Some (PS (SStr "RUN_FFMPEG")) ->
          forall q, count_event (EvFfmpeg q) w'
                    = ((if decide (q = file_path) then 1 else 0)
                       + count_event (EvFfmpeg q) w)%nat)
      /\ (r !! 0%nat <> Some (PS (SStr "RUN_FFMPEG")) ->
          forall q, count_event (EvFfmpeg q) w' = count_event (EvFfmpeg q) w)).
  { intros h m w1 Hd Hdb Hcnt.
    pose proof (process_file_of_decision _ _ _ _ _ Hd) as Hp. cbn in Hp.
    destruct (check_single_file file_path w1) as [rc w2] eqn:Hc.
    pose proof (check_single_file_same_state _ _ _ _ Hc) as (_ & Hdb2 & _).
    destruct (check_single_file_spec file_path w1) as (probed & w2' & Hc' & _).
    rewrite Hc in Hc'. injection Hc' as -> <-.
    destruct (classify file_path (ffmpeg w1 file_path) probed) as [[[st msg] x] cd].
    eexists _, w2. split; [exact Hp|]. split; [congruence|]. split.
    - intros _ q. rewrite (check_single_file_ffmpeg_count _ _ _ _ q Hc). by rewrite Hcnt.
    - intros Hn. by destruct Hn. }
  destruct force_recheck.
  - pose proof (determine_action_forced file_path w) as Hd.
    destruct (fs w !! file_path) as [f|] eqn:Hf.
    + eapply Hrun; [exact Hd|done|].
      intros q. rewrite !count_event_log. by rewrite !decide_False by discriminate.
    + pose proof (process_file_of_decision _ _ _ _ _ Hd) as Hp. cbn in Hp.
      eexists _, _. split; [exact Hp|]. split; [done|]. split; [discriminate|].
      intros _ q. rewrite count_event_log. by rewrite decide_False by discriminate.
  - destruct (fs w !! file_path) as [f|] eqn:Hf.
    + destruct (determine_action_present file_path f w Hf Hl Hb) as (w1 & Hd & Hs & Ht).
      pose proof Hs as (_ & Hdb1 & _).
      assert (Hcnt : forall q, count_event (EvFfmpeg q) w1 = count_event (EvFfmpeg q) w)
        by (intros q; by apply (determine_action_no_ffmpeg file_path f w w1)).
      unfold decision_tuple in Hd.
      destruct (lookup_record (db w) file_path) as [r|]; [|by eapply Hrun].
      destruct (decide (mtime r = SFloat (f_mtime f))).
      * pose proof (process_file_of_decision _ _ _ _ _ Hd) as Hp. cbn in Hp.
        eexists _, w1. split; [exact Hp|]. split; [done|]. split; [discriminate|done].
      * destruct (decide (file_hash r = SStr (digest (f_bytes f)))); [|by eapply Hrun].
        pose proof (process_file_of_decision _ _ _ _ _ Hd) as Hp. cbn in Hp.
        eexists _, w1. split; [exact Hp|]. split; [done|]. split; [discriminate|done].
    + rewrite process_file_missing by done.
      eexists _, _. split; [reflexivity|]. split; [done|]. split; [discriminate|].
      intros _ q. rewrite count_event_log. by rewrite decide_False by discriminate.
Qed.

(** ** Transactions are all or nothing *)

(** A transaction that either returns normally or leaves the committed store
    as it found it. *)
Definition all_or_nothing (c : M unit) : Prop :=
  forall w r w', c w = (r, w') -> r = Ok tt \/ db w' = db w.

Lemma aon_sql_commit conn : all_or_nothing (sql_commit conn).
Proof.
  intros w r w' H. unfold sql_commit, bind in H.
  destruct (sql_call w) as [[[]|e|] w1] eqn:E;
    pose proof (quiet_sql_call _ _ _ E) as H1; injection H as <- <-;
    [by left|by right|by right].
Qed.

Lemma aon_quiet (c : M unit) : db_quiet c -> all_or_nothing c.
Proof. intros Hq w r w' H. right. by apply (Hq w r w'). Qed.

Lemma aon_bind {A} (c : M A) (k : A -> M unit) :
  db_quiet c -> (forall a, all_or_nothing (k a)) -> all_or_nothing (bind c k).
Proof.
  intros Hc Hk w r w' H. unfold bind in H.
  destruct (c w) as [[a|e|] w1] eqn:E; pose proof (Hc _ _ _ E) as H1.
  - destruct (Hk a _ _ _ H); [by left|right; congruence].
  - injection H as <- <-. by right.
  - injection H as <- <-. by right.
Qed.

Lemma aon_locked (body : M unit) :
  all_or_nothing body ->
  all_or_nothing (run! acquire_lock in try_finally body release_lock).
Proof.
  intros Hb. apply aon_bind; [apply quiet_acquire_lock|]. intros _ w r w' H.
  unfold try_finally, release_lock in H.
  destruct (body w) as [[[]|e|] w1] eqn:E; destruct (Hb _ _ _ E) as [?|Hdb];
    injection H as <- <-; first [by left | by right].
Qed.

(** X7: each transaction of the engine is all or nothing, at whatever call
    sqlite3 fails: the per-file mtime commit, the per-file RUN commit, the
    batch commit and the cleanup sweep either return normally or leave the
    committed store exactly as it was.  A RUN commit that fails between its
    DELETE and its INSERT does not lose the old record. *)
Theorem transactions_are_all_or_nothing :
  (forall status extra file_path,
     all_or_nothing (commit_update_mtime status extra file_path))
  /\ (forall extra, all_or_nothing (commit_run_ffmpeg extra))
  /\ (forall st, all_or_nothing (batch_commit st))
  /\ all_or_nothing cleanup_database.
Proof.
  refine (conj _ (conj _ (conj _ _))).
  - intros status extra file_path. apply aon_locked.
    apply aon_bind; [apply quiet_sql_connect|]. intros conn.
    apply aon_bind; [apply quiet_sql_update_mtime|]. intros c1. apply aon_sql_commit.
  - intros extra. apply aon_locked.
    apply aon_bind; [apply quiet_sql_connect|]. intros conn.
    apply aon_bind; [apply quiet_tuple_items|]. intros items.
    destruct items as [|fp [|fh [|mt [|st [|cd [|? ?]]]]]];
      try (apply aon_quiet, quiet_raise).
    apply aon_bind; [apply quiet_sql_delete|]. intros c1.
    apply aon_bind; [apply quiet_datetime_now|]. intros now.
    apply aon_bind; [apply quiet_sql_insert_or_replace|]. intros c2.
    apply aon_sql_commit.
  - intros st. apply aon_locked.
    apply aon_bind; [apply quiet_sql_connect|]. intros conn.
    apply aon_bind; [apply quiet_executemany_update|]. intros c1.
    apply aon_bind; [apply quiet_executemany_update|]. intros c2.
    apply aon_bind; [apply quiet_flush_db_updates|]. intros c3.
    apply aon_bind; [apply quiet_flush_db_updates|]. intros c4.
    apply aon_sql_commit.
  - apply aon_locked.
    apply aon_bind; [apply quiet_sql_connect|]. intros conn.
    apply aon_bind; [apply quiet_sweep_table|]. intros c1.
    apply aon_bind; [apply quiet_sweep_table|]. intros c2.
    apply aon_sql_commit.
Qed.

(** ** Commits of RUN results compose *)

(** X8: of two RUN results committed one after the other for the same path,
    the later one wins completely: the store is the one that committing the
    later result alone would give, with no trace of the earlier result in
    either partition. *)
Theorem later_run_result_replaces_earlier p h1 m1 st1 c1 h2 m2 st2 c2 w :
  lock_held w = false ->
  sql_budget w = None ->
  exists w1 w2 w2',
    commit_run_ffmpeg (PT [SStr p; h1; m1; SStr st1; c1]) w = (Ok tt, w1)
    /\ commit_run_ffmpeg (PT [SStr p; h2; m2; SStr st2; c2]) w1 = (Ok tt, w2)
    /\ commit_run_ffmpeg (PT [SStr p; h2; m2; SStr st2; c2]) w = (Ok tt, w2')
    /\ db w2 = db w2'.
Proof.
  intros Hl Hb.
  destruct (commit_run_ffmpeg_ok p h1 m1 st1 c1 w Hl Hb) as (w1 & H1 & _ & He1 & _).
  destruct He1 as (_ & Hl1 & Hb1 & Hn1 & _).
  destruct (commit_run_ffmpeg_ok p h2 m2 st2 c2 w1) as (w2 & H2 & _); [congruence..|].
  destruct (commit_run_ffmpeg_ok p h2 m2 st2 c2 w Hl Hb) as (w2' & H2' & _).
  exists w1, w2, w2'. split; [done|]. split; [done|]. split; [done|].
  destruct (commit_run_ffmpeg_rows _ _ _ _ _ _ _ Hl Hb H1) as (_ & _ & Ho1).
  destruct (commit_run_ffmpeg_rows p h2 m2 st2 c2 w1 w2) as (Hr2 & Hn2 & Ho2);
    [congruence..|].
  destruct (commit_run_ffmpeg_rows _ _ _ _ _ _ _ Hl Hb H2') as (Hr2' & Hn2' & Ho2').
  apply store_ext. intros t q. destruct (decide (q = p)) as [->|Hq].
  - rewrite Hn1 in Hr2.
    destruct (decide (t = table_of (PS (SStr st2)))) as [->|Ht].
    + by rewrite Hr2, Hr2'.
    + replace t with (other_table (table_of (PS (SStr st2))))
        by (destruct t, (table_of (PS (SStr st2))); done).
      by rewrite Hn2, Hn2'.
  - by rewrite Ho2', Ho2, Ho1.
Qed.

(** ** The cleanup sweep composes *)

(** X9: a second cleanup sweep right after a first one changes nothing, and
    a sweep over a store all of whose recorded files exist leaves the store
    as it was. *)
Theorem cleanup_sweep_is_idempotent w :
  lock_held w = false ->
  sql_budget w = None ->
  exists w1 w2,
    cleanup_database w = (Ok tt, w1)
    /\ cleanup_database w1 = (Ok tt, w2)
    /\ db w2 = db w1
    /\ ((forall t p, is_Some (rows t (db w) !! p) -> is_Some (fs w !! p)) ->
        db w1 = db w).
Proof.
  intros Hl Hb.
  destruct (cleanup_database_ok w Hl Hb) as (w1 & H1 & Hfs1 & Hl1 & Hb1 & _ & Hr1).
  destruct (cleanup_database_ok w1 Hl1 Hb1) as (w2 & H2 & _ & _ & _ & _ & Hr2).
  exists w1, w2. split; [done|]. split; [done|]. split.
  - apply store_ext. intros t p. rewrite Hr2, Hfs1, Hr1. by destruct (fs w !! p).
  - intros Hall. apply store_ext. intros t p. rewrite Hr1.
    destruct (fs w !! p) eqn:Hf; [done|].
    destruct (rows t (db w) !! p) eqn:Hrow; [|done].
    destruct (Hall t p) as [f Hf']; [by rewrite Hrow|]. congruence.
Qed.

(** ** Invariants of the committed store

    [keeps] with the invariant left open: a computation under which a
    property of the committed store persists, however it ends. *)

Section Invariant.

Variable P : store -> Prop.

Definition preserves {A} (c : M A) : Prop :=
  forall w r w', P (db w) -> c w = (r, w') -> P (db w').

Lemma preserves_quiet {A} (c : M A) : db_quiet c -> preserves c.
Proof. intros Hq w r w' He Hc. by rewrite (Hq _ _ _ Hc). Qed.

Lemma preserves_bind {A B} (c : M A) (k : A -> M B) :
  preserves c -> (forall a, preserves (k a)) -> preserves (bind c k).
Proof.
  intros Hc Hk w r w' He H. unfold bind in H.
  destruct (c w) as [[a|e|] w1] eqn:E; pose proof (Hc _ _ _ He E) as H1.
  - by apply (Hk a w1 r).
  - by injection H as <- <-.
  - by injection H as <- <-.
Qed.

Lemma preserves_bind_sound {A B} (c : M A) (k : A -> M B) (R : A -> Prop) :
  sound c R -> (forall a, R a -> preserves (k a)) -> preserves (bind c k).
Proof.
  intros [Hq HR] Hk w r w' He H. unfold bind in H.
  destruct (c w) as [[a|e|] w1] eqn:E; pose proof (Hq _ _ _ E) as H1.
  - apply (Hk a (HR _ _ _ E) w1 r); [by rewrite H1|done].
  - injection H as <- <-. by rewrite H1.
  - injection H as <- <-. by rewrite H1.
Qed.

Lemma preserves_locked {A} (body : M A) :
  preserves body -> preserves (run! acquire_lock in try_finally body release_lock).
Proof.
  intros Hb. apply preserves_bind; [apply preserves_quiet, quiet_acquire_lock|].
  intros _ w r w' He H. unfold try_finally, release_lock in H.
  destruct (body w) as [[a|e|] w1] eqn:E; pose proof (Hb _ _ _ He E);
    by injection H as <- <-.
Qed.

Lemma preserves_connect {B} (k : store -> M B) :
  (forall conn, P conn -> preserves (k conn)) -> preserves (bind sql_connect k).
Proof.
  intros Hk w r w' He H. unfold bind, sql_connect, bind in H.
  destruct (sql_call w) as [[[]|e|] w1] eqn:E;
    pose proof (quiet_sql_call _ _ _ E) as H1.
  - apply (Hk (db w1) (eq_ind_r P He H1) w1 r); [by rewrite H1|done].
  - injection H as <- <-. by rewrite H1.
  - injection H as <- <-. by rewrite H1.
Qed.

Lemma preserves_sql_commit conn : P conn -> preserves (sql_commit conn).
Proof.
  intros Hc w r w' He H. unfold sql_commit, bind in H.
  destruct (sql_call w) as [[[]|e|] w1] eqn:E;
    pose proof (quiet_sql_call _ _ _ E) as H1; injection H as <- <-;
    by rewrite ?H1.
Qed.

End Invariant.

(** The sweep under a relation between stores that composes and that
    deleting a row respects. *)

Section Sweep.

Variable R : store -> store -> Prop.
Hypothesis R_trans : forall s1 s2 s3, R s1 s2 -> R s2 s3 -> R s1 s3.
Hypothesis R_delete : forall t k s, R s (set_rows t (delete k (rows t s)) s).

Lemma rel_sql_delete base t p1 conn :
  R base conn -> sound (sql_delete t p1 conn) (R base).
Proof using R_trans R_delete.
  intros Hb. split; [apply quiet_sql_delete|].
  intros w c' w' (v & -> & ->)%sql_delete_inv.
  destruct (where_path v) as [k|]; [|done].
  eapply R_trans; [exact Hb|apply R_delete].
Qed.

Lemma rel_sweep_paths base t paths conn :
  R base conn -> sound (sweep_paths t paths conn) (R base).
Proof using R_trans R_delete.
  intros He. split; [apply quiet_sweep_paths|]. revert conn He.
  induction paths as [|p0 rest IH]; intros conn He w c' w' H; cbn [sweep_paths] in H.
  - by injection H as <- <-.
  - unfold bind at 1, path_exists in H. unfold bind at 1 in H.
    destruct (negb _).
    + destruct (sql_delete t (PS (SStr p0)) conn w) as [[c1|e|] w1] eqn:E; [|done..].
      eapply IH; [|exact H].
      by destruct (rel_sql_delete base t (PS (SStr p0)) conn He) as [_ Hs];
        apply (Hs _ _ _ E).
    + unfold ret in H. by eapply IH.
Qed.

Lemma rel_sweep_table base t conn :
  R base conn -> sound (sweep_table t conn) (R base).
Proof using R_trans R_delete.
  intros He. split; [apply quiet_sweep_table|]. intros w c' w' H.
  unfold sweep_table, bind in H.
  destruct (sql_select_paths conn t w) as [[paths|e|] w1]; [|done..].
  by eapply (rel_sweep_paths base t paths conn He).
Qed.

Lemma rel_cleanup_database base : preserves (R base) cleanup_database.
Proof using R_trans R_delete.
  apply preserves_locked, preserves_connect. intros conn He.
  eapply preserves_bind_sound; [by apply rel_sweep_table|]. intros c1 H1.
  eapply preserves_bind_sound; [by apply rel_sweep_table|]. intros c2 H2.
  by apply preserves_sql_commit.
Qed.

End Sweep.

(** ** What the pool mode can write

    The batch commits of the pool loop reach their UPDATE statements only:
    the records after a pool-mode run are records from before it, with
    nothing but the mtime column changed. *)

(** Every record of [s'] is a record of [s] up to its mtime. *)
Definition only_mtimes (s s' : store) : Prop :=
  forall t p r', rows t s' !! p = Some r' ->
    exists r, rows t s !! p = Some r
              /\ file_hash r' = file_hash r /\ status r' = status r
              /\ last_checked r' = last_checked r /\ codec r' = codec r.

Lemma only_mtimes_refl s : only_mtimes s s.
Proof. intros t p r' H. by exists r'. Qed.

Lemma only_mtimes_trans s1 s2 s3 :
  only_mtimes s1 s2 -> only_mtimes s2 s3 -> only_mtimes s1 s3.
Proof.
  intros H12 H23 t p r3 H3.
  destruct (H23 t p r3 H3) as (r2 & Hr2 & ? & ? & ? & ?).
  destruct (H12 t p r2 Hr2) as (r1 & Hr1 & ? & ? & ? & ?).
  exists r1. repeat split; congruence.
Qed.

Lemma only_mtimes_alter t m k s :
  only_mtimes s (set_rows t (alter (set_mtime m) k (rows t s)) s).
Proof.
  intros t' p r'. destruct (decide (t' = t)) as [->|Hne].
  - rewrite rows_set_rows. destruct (decide (p = k)) as [->|Hpk].
    + rewrite lookup_alter_eq. destruct (rows t s !! k) as [r|] eqn:E; [|done].
      intros [= <-]. by exists r.
    + rewrite lookup_alter_ne by done. intros H. by exists r'.
  - replace t' with (other_table t) by (by destruct t, t').
    rewrite rows_set_rows_other. intros H. by exists r'.
Qed.

Lemma only_mtimes_delete t k s :
  only_mtimes s (set_rows t (delete k (rows t s)) s).
Proof.
  intros t' p r'. destruct (decide (t' = t)) as [->|Hne].
  - rewrite rows_set_rows. intros [_ H]%lookup_delete_Some. by exists r'.
  - replace t' with (other_table t) by (by destruct t, t').
    rewrite rows_set_rows_other. intros H. by exists r'.
Qed.

Lemma mtimes_sql_update_mtime base t p1 p2 conn :
  only_mtimes base conn ->
  sound (sql_update_mtime t p1 p2 conn) (only_mtimes base).
Proof.
  intros Hb. split; [apply quiet_sql_update_mtime|].
  intros w c' w' (m & v & -> & -> & ->)%sql_update_mtime_inv.
  destruct (where_path v) as [k|]; [|done].
  eapply only_mtimes_trans; [exact Hb|apply only_mtimes_alter].
Qed.

Lemma mtimes_executemany_update base t l conn :
  only_mtimes base conn ->
  sound (executemany_update t l conn) (only_mtimes base).
Proof.
  intros He. split; [apply quiet_executemany_update|]. revert conn He.
  induction l as [|[p1 p2] rest IH]; intros conn He w c' w' H;
    cbn [executemany_update] in H.
  - by injection H as <- <-.
  - unfold bind in H.
    destruct (sql_update_mtime t p1 p2 conn w) as [[c1|e|] w1] eqn:E; [|done..].
    eapply IH; [|exact H]. by eapply (mtimes_sql_update_mtime base t p1 p2 conn).
Qed.

Lemma mtimes_flush_db_updates base t updates conn :
  only_mtimes base conn ->
  sound (flush_db_updates t updates conn) (only_mtimes base).
Proof.
  intros He. split; [apply quiet_flush_db_updates|]. intros w c' w' H.
  destruct updates as [|u rest].
  - by injection H as <- <-.
  - by destruct (flush_db_updates_nonempty _ _ _ _ _ _ _ H c').
Qed.

Lemma mtimes_batch_commit base st : preserves (only_mtimes base) (batch_commit st).
Proof.
  apply preserves_locked, preserves_connect. intros conn He.
  eapply preserves_bind_sound; [by apply mtimes_executemany_update|]. intros c1 H1.
  eapply preserves_bind_sound; [by apply mtimes_executemany_update|]. intros c2 H2.
  eapply preserves_bind_sound; [by apply mtimes_flush_db_updates|]. intros c3 H3.
  eapply preserves_bind_sound; [by apply mtimes_flush_db_updates|]. intros c4 H4.
  by apply preserves_sql_commit.
Qed.

Lemma mtimes_pool_loop base force_recheck completed st :
  preserves (only_mtimes base) (pool_loop force_recheck completed st).
Proof.
  revert st. induction completed as [|p rest IH]; intros st;
    cbn [pool_loop]; [apply preserves_quiet, quiet_ret|].
  apply preserves_bind; [apply preserves_quiet, quiet_process_file|]. intros t.
  apply preserves_bind; [apply preserves_quiet, quiet_collect|]. intros st'.
  apply preserves_bind; [|intros; apply IH].
  case_match; [|apply preserves_quiet, quiet_ret].
  apply preserves_bind; [apply mtimes_batch_commit|].
  intros; apply preserves_quiet, quiet_ret.
Qed.

(** X14: the pool mode never stores a verification result.  Whatever a
    pool-mode run does and however it ends (returned, raised, sqlite failing
    at any call), every record of the store after it is a record that was
    there before it, under the same path and in the same partition, with
    the same fingerprint, status, last_checked and codec: no record is
    added, and of the five columns only mtime can differ. *)
Theorem pool_run_stores_no_result audio_files force_recheck w :
  forall t p r',
    rows t (db (snd (check_integrity audio_files false force_recheck w))) !! p = Some r' ->
    exists r,
      rows t (db w) !! p = Some r
      /\ file_hash r' = file_hash r /\ status r' = status r
      /\ last_checked r' = last_checked r /\ codec r' = codec r.
Proof.
  destruct (check_integrity audio_files false force_recheck w) as [r w'] eqn:H.
  cbn [snd]. change (only_mtimes (db w) (db w')).
  revert H. generalize (only_mtimes_refl (db w)).
  generalize (db w) at 1 3 as base. intros base Hb H. revert w r w' Hb H.
  change (preserves (only_mtimes base) (check_integrity audio_files false force_recheck)).
  unfold check_integrity. apply preserves_bind.
  - apply preserves_bind; [apply mtimes_pool_loop|]. intros st.
    apply preserves_bind; [|intros; apply preserves_quiet, quiet_ret].
    case_match; [apply mtimes_batch_commit|apply preserves_quiet, quiet_ret].
  - intros results. apply preserves_bind.
    { apply rel_cleanup_database; [apply only_mtimes_trans|].
      intros; apply only_mtimes_delete. }
    intros; apply preserves_quiet, quiet_ret.
Qed.

(** ** What a result of [process_file] can be *)

Lemma sql_connect_inv w c w' : sql_connect w = (Ok c, w') -> c = db w /\ db w' = db w.
Proof.
  unfold sql_connect, bind. intros H.
  destruct (sql_call w) as [[[]|e|] w1] eqn:E; [|done..].
  injection H as <- <-. pose proof (quiet_sql_call _ _ _ E). by split.
Qed.

Lemma sql_select_inv conn t p w res w' :
  sql_select conn t p w = (Ok res, w') ->
  res = (fun r => (status r, file_hash r, mtime r)) <$> rows t conn !! p.
Proof.
  unfold sql_select, bind, emit, ret. intros H.
  destruct (sql_call w) as [[[]|e|] w1]; [|done..]. by injection H as <- <-.
Qed.

(** A decision that carries a status carries the status of a stored row of
    the path. *)
Lemma scan_tables_inv conn p m tables w t w' :
  scan_tables conn p m tables w = (Ok t, w') ->
  (exists h, t = [SStr "RUN_FFMPEG"; SNone; SStr h; SFloat m])
  \/ exists tb r,
       rows tb conn !! p = Some r
       /\ (t = [SStr "USE_CACHED"; status r; SNone; SFloat m]
           \/ exists h, t = [SStr "UPDATE_MTIME"; status r; SStr h; SFloat m]).
Proof.
  revert w. induction tables as [|tb rest IH]; intros w H; cbn [scan_tables] in H.
  - apply bind_inv in H as [(h & w1 & _ & H)|(Hn & _)]; [|by destruct (Hn t)].
    injection H as <- <-. left. by exists h.
  - apply bind_inv in H as [(res & w1 & Hsel & H)|(Hn & _)]; [|by destruct (Hn t)].
    apply sql_select_inv in Hsel as ->.
    destruct (rows tb conn !! p) as [r|] eqn:Hr; cbn [fmap option_fmap option_map] in H.
    + destruct (scalar_eqb (mtime r) (SFloat m)).
      * injection H as <- <-. right. exists tb, r. split; [done|]. by left.
      * apply bind_inv in H as [(h & w2 & _ & H)|(Hn & _)]; [|by destruct (Hn t)].
        destruct (scalar_eqb (file_hash r) (SStr h)); injection H as <- <-.
        -- right. exists tb, r. split; [done|]. right. by exists h.
        -- left. by exists h.
    + by apply (IH w1).
Qed.

Lemma determine_action_inv p force_recheck w t w' :
  determine_action p force_recheck w = (Ok t, w') ->
  t = file_not_found
  \/ (exists h m, t = [SStr "RUN_FFMPEG"; SNone; SStr h; SFloat m])
  \/ exists tb r m,
       rows tb (db w) !! p = Some r
       /\ (t = [SStr "USE_CACHED"; status r; SNone; SFloat m]
           \/ exists h, t = [SStr "UPDATE_MTIME"; status r; SStr h; SFloat m]).
Proof.
  unfold determine_action. destruct force_recheck; intros H.
  - unfold try_except in H.
    match type of H with context [match ?body w with _ => _ end] =>
      destruct (body w) as [[a|e|] w1] eqn:E end.
    + injection H as <- <-.
      apply bind_inv in E as [(m & w2 & _ & E)|(Hn & _)]; [|by destruct (Hn a)].
      apply bind_inv in E as [(h & w3 & _ & E)|(Hn & _)]; [|by destruct (Hn a)].
      injection E as <- <-. right; left. by exists h, m.
    + destruct e; cbn in H; try done. injection H as <- <-. by left.
    + done.
  - apply bind_inv in H as [(stat & w1 & Hs & H)|(Hn & _)]; [|by destruct (Hn t)].
    assert (db w1 = db w) as Hdb1.
    { revert Hs. apply quiet_try_except; [quiet|].
      intros e k Hk. destruct e; try done. injection Hk as <-. quiet. }
    destruct stat as [m|]; [|injection H as <- <-; by left].
    apply bind_inv in H as [([] & w2 & Ha & H)|(Hn & _)]; [|by destruct (Hn t)].
    apply quiet_acquire_lock in Ha.
    unfold try_finally, release_lock in H.
    match type of H with context [match ?body w2 with _ => _ end] =>
      destruct (body w2) as [[a|e|] w3] eqn:E end; try done.
    injection H as <- <-.
    apply bind_inv in E as [(conn & w4 & Hc & E)|(Hn & _)]; [|by destruct (Hn a)].
    apply sql_connect_inv in Hc as [-> _].
    apply scan_tables_inv in E as [(h & ->)|(tb & r & Hr & Ht)].
    + right; left. by exists h, m.
    + right; right. exists tb, r, m. by rewrite <- Hdb1, <- Ha.
Qed.

(** The two statuses the engine itself produces. *)
Definition verdict (st : string) : Prop := st = "PASSED" \/ st = "FAILED".

Lemma check_single_file_verdict p w st msg x cd w' :
  check_single_file p w = (Ok (st, msg, x, cd), w') -> verdict st.
Proof.
  destruct (check_single_file_spec p w) as (probed & w2 & Hc & _). rewrite Hc.
  intros [= Hcl _]. revert Hcl. unfold classify, verdict.
  destruct (ffmpeg w p) as [o [|c e]|[]]; intros [= <- _ _ _]; auto.
Qed.

(** The four shapes of a returned result: the 4-tuple of line 17, a cached
    result with the status of a stored row, a refresh with that status and
    the current mtime, or a fresh verdict with its [update_info]. *)
Lemma process_file_inv p force_recheck w t w' :
  process_file p force_recheck w = (Ok t, w') ->
  t = [PS (SStr "ERROR"); PS (SStr "Unknown action"); PS (SStr p); PS SNone]
  \/ (exists tb r,
        rows tb (db w) !! p = Some r
        /\ (t = [PS (SStr "USE_CACHED"); PS (status r); PS (SStr "Cached result");
                 PS (SStr p); PS SNone]
            \/ exists m,
                 t = [PS (SStr "UPDATE_MTIME"); PS (status r);
                      PS (SStr "Cached result (hash matches)"); PS (SStr p);
                      PS (SFloat m)]))
  \/ exists st msg h m cd,
       verdict st
       /\ t = [PS (SStr "RUN_FFMPEG"); PS (SStr st); PS (SStr msg); PS (SStr p);
               PT [SStr p; SStr h; SFloat m; SStr st; SStr cd]].
Proof.
  unfold process_file. intros H.
  apply bind_inv in H as [(d & w1 & Hd & H)|(Hn & _)]; [|by destruct (Hn t)].
  apply determine_action_inv in Hd
    as [->|[(h & m & ->)|(tb & r & m & Hr & [->|(h & ->)])]]; cbn in H.
  - injection H as <- <-. by left.
  - apply bind_inv in H as [([[[st msg] x] cd] & w2 & Hc & H)|(Hn & _)];
      [|by destruct (Hn t)].
    injection H as <- <-. right; right. exists st, msg, h, m, cd.
    split; [by eapply check_single_file_verdict|done].
  - injection H as <- <-. right; left. exists tb, r. split; [done|]. by left.
  - injection H as <- <-. right; left. exists tb, r. split; [done|]. right. by exists m.
Qed.

(** ** What the verbose loop writes, and for which paths *)

(** Every stored status is one of the engine's two verdicts. *)
Definition known (s : store) : Prop :=
  forall t p r, rows t s !! p = Some r ->
    status r = SStr "PASSED" \/ status r = SStr "FAILED".

(** From [s0] to [s] only the records of [p] change, and the statuses stay
    verdicts. *)
Definition touches_only (p : string) (s0 s : store) : Prop :=
  (forall t q, q <> p -> rows t s !! q = rows t s0 !! q) /\ (known s0 -> known s).

Lemma touches_only_refl p s : touches_only p s s.
Proof. by split. Qed.

Lemma rows_set_rows_lookup t' t m s q :
  rows t' (set_rows t m s) !! q = if decide (t' = t) then m !! q else rows t' s !! q.
Proof. by destruct t, t'. Qed.

Lemma touches_update p s0 t m conn :
  touches_only p s0 conn ->
  touches_only p s0 (set_rows t (alter (set_mtime m) p (rows t conn)) conn).
Proof.
  intros [Hf Hk]. split.
  - intros t' q Hq. rewrite rows_set_rows_lookup. case_decide as Ht; [subst t'|by apply Hf].
    rewrite lookup_alter_ne by done. by apply Hf.
  - intros H0 t' q r. specialize (Hk H0). rewrite rows_set_rows_lookup.
    case_decide as Ht; [subst t'|by apply Hk].
    destruct (decide (q = p)) as [->|Hq].
    + rewrite lookup_alter_eq. destruct (rows t conn !! p) as [r0|] eqn:E; [|done].
      intros [= <-]. apply (Hk t p r0 E).
    + rewrite lookup_alter_ne by done. apply Hk.
Qed.

Lemma touches_delete p s0 t conn :
  touches_only p s0 conn ->
  touches_only p s0 (set_rows t (delete p (rows t conn)) conn).
Proof.
  intros [Hf Hk]. split.
  - intros t' q Hq. rewrite rows_set_rows_lookup. case_decide as Ht; [subst t'|by apply Hf].
    rewrite lookup_delete_ne by done. by apply Hf.
  - intros H0 t' q r. specialize (Hk H0). rewrite rows_set_rows_lookup.
    case_decide as Ht; [subst t'|by apply Hk].
    intros [_ H]%lookup_delete_Some. by apply (Hk t q r).
Qed.

Lemma touches_insert p s0 t r conn :
  status r = SStr "PASSED" \/ status r = SStr "FAILED" ->
  touches_only p s0 conn ->
  touches_only p s0 (set_rows t (<[p := r]> (rows t conn)) conn).
Proof.
  intros Hr [Hf Hk]. split.
  - intros t' q Hq. rewrite rows_set_rows_lookup. case_decide as Ht; [subst t'|by apply Hf].
    rewrite lookup_insert_ne by done. by apply Hf.
  - intros H0 t' q r'. specialize (Hk H0). rewrite rows_set_rows_lookup.
    case_decide as Ht; [subst t'|by apply Hk].
    destruct (decide (q = p)) as [->|Hq].
    + rewrite lookup_insert_eq. by intros [= <-].
    + rewrite lookup_insert_ne by done. apply Hk.
Qed.

Lemma touches_commit_update_mtime s0 status extra p :
  preserves (touches_only p s0) (commit_update_mtime status extra p).
Proof.
  apply preserves_locked, preserves_connect. intros conn He.
  eapply preserves_bind_sound with (R := touches_only p s0).
  - split; [apply quiet_sql_update_mtime|].
    intros w c' w' (m & v & -> & [= <-] & ->)%sql_update_mtime_inv.
    rewrite where_path_str. by apply touches_update.
  - intros c' Hc'. by apply preserves_sql_commit.
Qed.

Lemma touches_commit_run_ffmpeg s0 p h m st cd :
  verdict st ->
  preserves (touches_only p s0) (commit_run_ffmpeg (PT [SStr p; h; m; SStr st; cd])).
Proof.
  intros Hv. apply preserves_locked, preserves_connect. intros conn He.
  eapply preserves_bind_sound
    with (R := fun items => items = [SStr p; h; m; SStr st; cd]).
  { split; [apply quiet_tuple_items|]. by intros w a w' [= <- _]. }
  intros items ->.
  eapply preserves_bind_sound with (R := touches_only p s0).
  { split; [apply quiet_sql_delete|].
    intros w c' w' (v & [= <-] & ->)%sql_delete_inv.
    rewrite where_path_str. by apply touches_delete. }
  intros c1 H1. apply preserves_bind; [apply preserves_quiet, quiet_datetime_now|].
  intros now.
  eapply preserves_bind_sound with (R := touches_only p s0).
  { split; [apply quiet_sql_insert_or_replace|].
    intros w c' w' (k & Hw & ->)%sql_insert_or_replace_inv.
    rewrite where_path_str in Hw. injection Hw as <-.
    apply touches_insert; [|done]. cbn [status text_affinity].
    destruct Hv as [-> | ->]; auto. }
  intros c2 H2. by apply preserves_sql_commit.
Qed.

(** A result row that carries one of the two verdicts. *)
Definition verdict_row (row : result_row) : Prop :=
  row.1.1 = PS (SStr "PASSED") \/ row.1.1 = PS (SStr "FAILED").

Lemma known_verdict_row s tb p r msg x :
  known s -> rows tb s !! p = Some r -> verdict_row (PS (status r), msg, x).
Proof.
  intros Hk Hr. destruct (Hk tb p r Hr) as [H|H]; unfold verdict_row; cbn;
    rewrite H; auto.
Qed.

Lemma verdict_verdict_row st msg x : verdict st -> verdict_row (PS (SStr st), msg, x).
Proof. intros [-> | ->]; unfold verdict_row; cbn; auto. Qed.

(** The verbose loop, however it ends: it changes no record of a path
    outside its list and keeps the statuses verdicts; when it returns, it
    returns the rows it was given followed by one row per file, in the
    order of the list, each with a verdict when the stored statuses are. *)
Lemma verbose_loop_inv force_recheck audio_files results w r w' :
  verbose_loop force_recheck audio_files results w = (r, w') ->
  (forall t q, q ∉ audio_files -> rows t (db w') !! q = rows t (db w) !! q)
  /\ (known (db w) -> known (db w'))
  /\ forall res, r = Ok res ->
       exists new,
         res = (results ++ new)%list
         /\ new.*2 = (fun p => PS (SStr p)) <$> audio_files
         /\ (known (db w) -> Forall verdict_row new).
Proof.
  revert results w. induction audio_files as [|p rest IH]; intros results w H.
  { injection H as <- <-. split; [done|]. split; [done|].
    intros res [= <-]. exists []. by rewrite app_nil_r. }
  assert (Hstep : forall row w1 (c : M unit),
    db w1 = db w ->
    (known (db w) -> verdict_row row) ->
    row.2 = PS (SStr p) ->
    preserves (touches_only p (db w1)) c ->
    bind c (fun _ => verbose_loop force_recheck rest (results ++ [row])%list) w1
    = (r, w') ->
    (forall t q, q ∉ p :: rest -> rows t (db w') !! q = rows t (db w) !! q)
    /\ (known (db w) -> known (db w'))
    /\ forall res, r = Ok res ->
         exists new,
           res = (results ++ new)%list
           /\ new.*2 = (fun p => PS (SStr p)) <$> p :: rest
           /\ (known (db w) -> Forall verdict_row new)).
  { intros row w1 c Hdb1 Hrow Hpath Hc Hb.
    destruct (c w1) as [rc w2] eqn:Ec.
    destruct (Hc w1 rc w2 (touches_only_refl p (db w1)) Ec) as [Hf2 Hk2].
    rewrite Hdb1 in Hf2, Hk2.
    unfold bind in Hb. rewrite Ec in Hb. destruct rc as [[]|e|].
    - destruct (IH _ _ Hb) as (Hf & Hk & Hres).
      split; [|split].
      + intros t q Hq. apply not_elem_of_cons in Hq as [Hqp Hq].
        rewrite Hf by done. by apply Hf2.
      + intros H0. by apply Hk, Hk2.
      + intros res Hr. destruct (Hres res Hr) as (new & -> & Hp & Hv).
        exists (row :: new). split; [by rewrite <- app_assoc|]. split.
        * cbn [fmap list_fmap]. by rewrite <- Hpath, <- Hp.
        * intros H0. constructor; [by apply Hrow|by apply Hv, Hk2].
    - injection Hb as <- <-. split; [|split; [done|done]].
      intros t q Hq. apply not_elem_of_cons in Hq as [Hqp Hq]. by apply Hf2.
    - injection Hb as <- <-. split; [|split; [done|done]].
      intros t q Hq. apply not_elem_of_cons in Hq as [Hqp Hq]. by apply Hf2. }
  destruct (process_file p force_recheck w) as [[t|e|] w1] eqn:Hp; cycle 1.
  { cbn [verbose_loop] in H. unfold bind at 1 in H. rewrite Hp in H.
    injection H as <- <-. by rewrite (quiet_process_file _ _ _ _ _ Hp). }
  { cbn [verbose_loop] in H. unfold bind at 1 in H. rewrite Hp in H.
    injection H as <- <-. by rewrite (quiet_process_file _ _ _ _ _ Hp). }
  pose proof (quiet_process_file _ _ _ _ _ Hp) as Hdb1.
  destruct (process_file_inv _ _ _ _ _ Hp)
    as [->|[(tb & r0 & Hr0 & [->|(m & ->)])|(st & msg & h & m & cd & Hv & ->)]].
  - cbn [verbose_loop] in H. erewrite bind_Ok in H by exact Hp.
    injection H as <- <-. by rewrite Hdb1.
  - rewrite (verbose_step_use_cached _ _ _ _ _ _ _ _ _ _ Hp) in H.
    apply (Hstep (PS (status r0), PS (SStr "Cached result"), PS (SStr p)) w1 (ret tt));
      [done| |done| |done].
    + intros H0. by eapply known_verdict_row.
    + apply preserves_quiet, quiet_ret.
  - rewrite (verbose_step_update_mtime _ _ _ _ _ _ _ _ _ _ Hp) in H.
    refine (Hstep (PS (status r0), PS (SStr "Cached result (hash matches)"),
                   PS (SStr p)) w1 _ Hdb1 _ eq_refl _ H).
    + intros H0. by eapply known_verdict_row.
    + apply touches_commit_update_mtime.
  - rewrite (verbose_step_run_ffmpeg _ _ _ _ _ _ _ _ _ _ Hp) in H.
    refine (Hstep (PS (SStr st), PS (SStr msg), PS (SStr p)) w1 _ Hdb1 _ eq_refl _ H).
    + intros _. by apply verdict_verdict_row.
    + by apply touches_commit_run_ffmpeg.
Qed.

(** Every record of [s'] is the record of [s], or is gone. *)
Definition only_deletes (s s' : store) : Prop :=
  forall t q, rows t s' !! q = rows t s !! q \/ rows t s' !! q = None.

Lemma only_deletes_refl s : only_deletes s s.
Proof. intros t q. by left. Qed.

Lemma only_deletes_trans s1 s2 s3 :
  only_deletes s1 s2 -> only_deletes s2 s3 -> only_deletes s1 s3.
Proof.
  intros H12 H23 t q. destruct (H23 t q) as [H|H]; [|by right].
  rewrite H. apply H12.
Qed.

Lemma only_deletes_delete t k s :
  only_deletes s (set_rows t (delete k (rows t s)) s).
Proof.
  intros t' q. rewrite rows_set_rows_lookup. case_decide as Ht; [subst t'|by left].
  destruct (decide (q = k)) as [->|Hq].
  - right. apply lookup_delete_eq.
  - left. by rewrite lookup_delete_ne.
Qed.

(** X12: a verbose run never rewrites or adds the record of a file it was
    not given.  However the run ends (returned, raised, sqlite failing at
    any call), the record of a path outside [audio_files] is, in each
    partition, the one from before the run, or it is gone (the sweep at the
    end of the run removes records only). *)
Theorem verbose_run_leaves_other_records audio_files force_recheck w :
  forall t q, q ∉ audio_files ->
    rows t (db (snd (check_integrity audio_files true force_recheck w))) !! q
    = rows t (db w) !! q
    \/ rows t (db (snd (check_integrity audio_files true force_recheck w))) !! q = None.
Proof.
  intros t q Hq.
  destruct (check_integrity audio_files true force_recheck w) as [r w'] eqn:H.
  cbn [snd]. unfold check_integrity in H.
  assert (Hsweep : forall w1 rc w2,
            cleanup_database w1 = (rc, w2) -> only_deletes (db w1) (db w2)).
  { intros w1 rc w2 Hc.
    apply (rel_cleanup_database only_deletes only_deletes_trans only_deletes_delete
             (db w1) w1 rc w2 (only_deletes_refl _) Hc). }
  apply bind_inv in H as [(res & w1 & Hl & H)|(_ & r0 & Hl & _)].
  - apply verbose_loop_inv in Hl as (Hf & _). rewrite <- (Hf t q Hq).
    apply bind_inv in H as [([] & w2 & Hc & H)|(_ & r0 & Hc & _)].
    + injection H as <- <-. by apply (Hsweep w1 (Ok tt)).
    + by apply (Hsweep w1 r0).
  - apply verbose_loop_inv in Hl as (Hf & _). left. by apply Hf.
Qed.

(** X10: what a verbose run establishes.  With the lock free, sqlite not
    failing, a store whose rows name their partition and every listed file
    on disk, the run returns one result row per file in the order of the
    list; afterwards every listed file has a record that carries its
    current mtime, every other path has in each partition the record it had
    when its file exists and none when it does not, the rows still name
    their partition, and the lock is free. *)
Theorem verbose_run_postcondition audio_files w :
  lock_held w = false ->
  sql_budget w = None ->
  well_formed (db w) ->
  (forall p, p ∈ audio_files -> is_Some (fs w !! p)) ->
  exists res w1,
    check_integrity audio_files true false w = (Ok res, w1)
    /\ res.*2 = (fun p => PS (SStr p)) <$> audio_files
    /\ (forall p, p ∈ audio_files ->
          exists f r, fs w !! p = Some f /\ lookup_record (db w1) p = Some r
                      /\ mtime r = SFloat (f_mtime f))
    /\ (forall t q, q ∉ audio_files ->
          rows t (db w1) !! q
          = match fs w !! q with
            | Some _ => rows t (db w) !! q
            | None => None
            end)
    /\ well_formed (db w1)
    /\ fs w1 = fs w
    /\ lock_held w1 = false.
Proof.
  intros Hl Hb Hwf Hex.
  destruct (verbose_loop_total audio_files [] w Hl Hb Hwf Hex)
    as (res & wa & Hloop & (Hfsa & Hla & Hba & _) & Hwfa & Hfra & _).
  destruct (verbose_loop_inv _ _ _ _ _ _ Hloop) as (Hframe & _ & Hres).
  destruct (Hres res eq_refl) as (new & Hnew & Hpaths & _).
  cbn [app] in Hnew. subst new.
  destruct (cleanup_database_ok wa) as (w1 & Hc1 & Hfs1 & Hl1 & Hb1 & _ & Hrows1);
    [congruence..|].
  exists res, w1. split.
  { unfold check_integrity. erewrite bind_Ok by exact Hloop.
    by erewrite bind_Ok by exact Hc1. }
  split; [done|]. split; [|split; [|split; [|split; [congruence|done]]]].
  - intros p Hp. destruct (Hfra p Hp) as (f & r & Hf & Hr & Hm).
    exists f, r. split; [by rewrite <- Hfsa|]. split; [|done].
    rewrite <- Hr. apply lookup_record_ext. intros t. by rewrite Hrows1, Hf.
  - intros t q Hq. by rewrite Hrows1, Hfsa, Hframe.
  - intros t p r. rewrite Hrows1. destruct (fs wa !! p); [apply Hwfa|done].
Qed.

(** ** The summary: lines 203-216 *)

(** [sum(1 for status, _, _ in all_results if status == "PASSED")] and its
    FAILED twin. *)
Definition passed_count (all_results : list result_row) : nat :=
  length (List.filter (fun row : result_row => is_str row.1.1 "PASSED") all_results).

Definition failed_count (all_results : list result_row) : nat :=
  length (List.filter (fun row : result_row => is_str row.1.1 "FAILED") all_results).

(** The rows whose line goes to the failed log:
    [(success_log_file if status == "PASSED" else failed_log_file)]. *)
Definition failed_log_rows (all_results : list result_row) : list result_row :=
  List.filter (fun row : result_row => negb (is_str row.1.1 "PASSED")) all_results.

Lemma counts_of_verdicts l :
  Forall verdict_row l ->
  (passed_count l + failed_count l = length l)%nat
  /\ length (failed_log_rows l) = failed_count l.
Proof.
  unfold passed_count, failed_count, failed_log_rows.
  induction 1 as [|row l Hrow _ [IH1 IH2]]; [done|].
  cbn [List.filter]. destruct Hrow as [-> | ->]; cbn [is_str String.eqb negb length];
    cbn; lia.
Qed.

Lemma known_only_mtimes s s' : known s -> only_mtimes s s' -> known s'.
Proof.
  intros Hk Hm t p r' Hr'. destruct (Hm t p r' Hr') as (r & Hr & _ & -> & _).
  by apply (Hk t p r).
Qed.

(** One collected result of the pool loop. *)
Lemma collect_row p force_recheck w t w1 st st1 w2 :
  process_file p force_recheck w = (Ok t, w1) ->
  collect t st w1 = (Ok st1, w2) ->
  w2 = w1
  /\ exists row,
       all_results st1 = (all_results st ++ [row])%list
       /\ row.2 = PS (SStr p)
       /\ (known (db w) -> verdict_row row).
Proof.
  intros Hp Hc.
  destruct (process_file_inv _ _ _ _ _ Hp)
    as [->|[(tb & r0 & Hr0 & [->|(m & ->)])|(st0 & msg & h & m & cd & Hv & ->)]].
  - done.
  - injection Hc as <- <-. split; [done|]. eexists. split; [reflexivity|].
    split; [done|]. intros H0. by eapply known_verdict_row.
  - cbn in Hc.
    match type of Hc with context [if ?c then _ else _] => destruct c end;
      injection Hc as <- <-;
      (split; [done|]; eexists; (split; [reflexivity|]);
       split; [done|]; intros H0; by eapply known_verdict_row).
  - cbn in Hc.
    match type of Hc with context [if ?c then _ else _] => destruct c end;
      injection Hc as <- <-;
      (split; [done|]; eexists; (split; [reflexivity|]);
       split; [done|]; intros _; by apply verdict_verdict_row).
Qed.

Lemma pool_loop_results force_recheck completed st w st' w' :
  known (db w) ->
  pool_loop force_recheck completed st w = (Ok st', w') ->
  exists new,
    all_results st' = (all_results st ++ new)%list
    /\ new.*2 = (fun p => PS (SStr p)) <$> completed
    /\ Forall verdict_row new.
Proof.
  revert st w. induction completed as [|p rest IH]; intros st w Hk H.
  { injection H as <- <-. exists []. by rewrite app_nil_r. }
  cbn [pool_loop] in H.
  apply bind_inv in H as [(t & w1 & Hp & H)|(Hn & _)]; [|by destruct (Hn st')].
  pose proof (quiet_process_file _ _ _ _ _ Hp) as Hdb1.
  apply bind_inv in H as [(st1 & w2 & Hc & H)|(Hn & _)]; [|by destruct (Hn st')].
  destruct (collect_row _ _ _ _ _ _ _ _ Hp Hc) as (-> & row & Hrow & Hpath & Hv).
  apply bind_inv in H as [(st2 & w3 & Hb & H)|(Hn & _)]; [|by destruct (Hn st')].
  assert (all_results st2 = all_results st1 /\ known (db w3)) as [Hst2 Hk3].
  { destruct (_ =? _)%nat in Hb.
    - apply bind_inv in Hb as [([] & w4 & Hbc & Hb)|(Hn & _)]; [|by destruct (Hn st2)].
      injection Hb as <- <-. split; [done|].
      apply (known_only_mtimes (db w1)); [by rewrite Hdb1|].
      apply (mtimes_batch_commit (db w1) st1 w1 _ _ (only_mtimes_refl _) Hbc).
    - injection Hb as <- <-. split; [done|]. by rewrite Hdb1. }
  destruct (IH st2 w3 Hk3 H) as (new & Hnew & Hpaths & Hall).
  exists (row :: new). split; [|split].
  - by rewrite Hnew, Hst2, Hrow, <- app_assoc.
  - cbn [fmap list_fmap]. by rewrite <- Hpath, <- Hpaths.
  - constructor; [by apply Hv|done].
Qed.

(** X13: the summary adds up.  When a run completes, in either mode, on a
    store whose statuses are PASSED or FAILED, it returns one result row per
    file, in the order of the list (the order of completion, in the pool
    mode); Passed plus Failed of the summary equals Total files; the rows
    sent to the failed log are as many as the summary counts as Failed; and
    the statuses of the store are PASSED or FAILED again. *)
Theorem summary_counts_add_up audio_files verbose force_recheck w res w' :
  known (db w) ->
  check_integrity audio_files verbose force_recheck w = (Ok res, w') ->
  res.*2 = (fun p => PS (SStr p)) <$> audio_files
  /\ (passed_count res + failed_count res = length audio_files)%nat
  /\ length (failed_log_rows res) = failed_count res
  /\ known (db w').
Proof.
  intros Hk H. unfold check_integrity in H.
  apply bind_inv in H as [(results & w1 & Hl & H)|(Hn & _)]; [|by destruct (Hn res)].
  apply bind_inv in H as [([] & w2 & Hc & H)|(Hn & _)]; [|by destruct (Hn res)].
  injection H as <- <-.
  assert (results.*2 = (fun p => PS (SStr p)) <$> audio_files
          /\ Forall verdict_row results /\ known (db w1)) as (Hpaths & Hall & Hk1).
  { destruct verbose.
    - destruct (verbose_loop_inv _ _ _ _ _ _ Hl) as (_ & Hk1 & Hres).
      destruct (Hres results eq_refl) as (new & -> & Hp & Hv). cbn [app].
      split; [done|]. split; [by apply Hv|by apply Hk1].
    - apply bind_inv in Hl as [(st & wa & Hpool & Hl)|(Hn & _)];
        [|by destruct (Hn results)].
      apply bind_inv in Hl as [([] & wb & Hbc & Hl)|(Hn & _)];
        [|by destruct (Hn results)].
      injection Hl as <- <-.
      destruct (pool_loop_results _ _ _ _ _ _ Hk Hpool) as (new & Hnew & Hp & Hv).
      cbn [all_results no_pending app] in Hnew. rewrite Hnew.
      split; [done|]. split; [done|].
      apply (known_only_mtimes (db wa)).
      + apply (known_only_mtimes (db w)); [done|].
        apply (mtimes_pool_loop (db w) _ _ _ w _ _ (only_mtimes_refl _) Hpool).
      + destruct (has_pending st).
        * apply (mtimes_batch_commit (db wa) st wa _ _ (only_mtimes_refl _) Hbc).
        * injection Hbc as <-. apply only_mtimes_refl. }
  destruct (counts_of_verdicts results Hall) as [Hc1 Hc2].
  split; [done|]. split.
  { rewrite Hc1. transitivity (length (results.*2)); [by rewrite length_fmap|].
    rewrite Hpaths. apply length_fmap. }
  split; [done|].
  apply (known_only_mtimes (db w1)); [done|].
  apply (rel_cleanup_database only_mtimes only_mtimes_trans
           (fun t k s => only_mtimes_delete t k s) (db w1) w1 _ _
           (only_mtimes_refl _) Hc).
Qed.

(** ** A fresh verdict is stored as the verifier gave it *)

(** The codec [get_codec] returns, by the probe's answer. *)
Definition probed_codec (w : world) (file_path : string) : string :=
  match ffprobe w file_path with
  | Completed out _ =>
      if py_not out then "unknown" else fst (normalize_codec (py_strip out))
  | ProcRaises _ => "unknown"
  end.

Lemma check_single_file_value file_path w :
  exists w',
    check_single_file file_path w
    = (Ok (classify file_path (ffmpeg w file_path) (probed_codec w file_path)), w')
    /\ same_state w w'.
Proof.
  unfold check_single_file, try_except, run_ffmpeg, bind, emit, ret. cbn.
  destruct (ffmpeg w file_path) as [out err | e] eqn:Hff; cbn.
  - rewrite get_codec_value. cbn [ffprobe log]. fold (probed_codec w file_path).
    eexists. split; [by destruct err|].
    do 2 apply same_state_log. apply same_state_refl.
  - eexists. split; [by destruct e|]. destruct e; apply same_state_log, same_state_refl.
Qed.

Lemma classify_path file_path tool probed : (classify file_path tool probed).1.2 = file_path.
Proof. by destruct tool as [out [|c err]|[]]. Qed.

Lemma decide_spec_run record m h :
  decide_spec record m h = RUN ->
  decision_tuple record m h = [SStr "RUN_FFMPEG"; SNone; SStr h; SFloat m].
Proof.
  unfold decide_spec, decision_tuple. destruct record as [r|]; [|done].
  by repeat case_decide.
Qed.

(** X6: a fresh verdict is stored as the verifier gave it.  For a file on
    disk whose decision is RUN (a forced recheck, or no record, or a changed
    fingerprint), with the lock free and sqlite not failing, the verbose run
    over that file returns the verifier's status and message, and afterwards
    the partition named by the status holds for the path exactly the record
    of the current fingerprint, the current mtime, that status, the time of
    the commit and the probed codec; the other partition holds no record of
    the path; every other path keeps its record if its file exists and
    loses it if not. *)
Theorem run_result_is_recorded p f force_recheck w :
  fs w !! p = Some f ->
  lock_held w = false ->
  sql_budget w = None ->
  force_recheck = true
  \/ decide_spec (lookup_record (db w) p) (f_mtime f) (digest (f_bytes f)) = RUN ->
  exists st msg cd w',
    classify p (ffmpeg w p) (probed_codec w p) = (st, msg, p, cd)
    /\ check_integrity [p] true force_recheck w
       = (Ok [(PS (SStr st), PS (SStr msg), PS (SStr p))], w')
    /\ rows (table_of (PS (SStr st))) (db w') !! p
       = Some (mkRow (SStr (digest (f_bytes f))) (SFloat (f_mtime f)) (SStr st)
                 (SStr (now_iso w)) (SStr cd))
    /\ rows (other_table (table_of (PS (SStr st)))) (db w') !! p = None
    /\ forall t q, q <> p ->
         rows t (db w') !! q
         = match fs w !! q with
           | Some _ => rows t (db w) !! q
           | None => None
           end.
Proof.
  intros Hf Hl Hb Hrun.
  assert (exists w1,
            determine_action p force_recheck w
            = (Ok [SStr "RUN_FFMPEG"; SNone; SStr (digest (f_bytes f));
                   SFloat (f_mtime f)], w1)
            /\ same_state w w1) as (w1 & Hd & Hs1).
  { destruct force_recheck.
    - eexists. rewrite determine_action_forced, Hf. split; [reflexivity|].
      do 2 apply same_state_log. apply same_state_refl.
    - destruct Hrun as [|Hrun]; [done|].
      destruct (determine_action_present p f w Hf Hl Hb) as (w1 & Hd & Hs & _).
      exists w1. by rewrite (decide_spec_run _ _ _ Hrun) in Hd. }
  pose proof Hs1 as (Hfs1 & Hdb1 & Hl1 & Hb1 & Hn1 & Hff1 & Hfp1).
  pose proof (process_file_of_decision _ _ _ _ _ Hd) as Hp. cbn in Hp.
  destruct (check_single_file_value p w1) as (w2 & Hc & Hs2).
  pose proof Hs2 as (Hfs2 & Hdb2 & Hl2 & Hb2 & Hn2 & _).
  replace (probed_codec w1 p) with (probed_codec w p) in Hc
    by (unfold probed_codec; by rewrite Hfp1).
  rewrite Hff1 in Hc. rewrite Hc in Hp.
  pose proof (classify_path p (ffmpeg w p) (probed_codec w p)) as Hpath.
  destruct (classify p (ffmpeg w p) (probed_codec w p)) as [[[st msg] x] cd].
  cbn in Hpath. subst x.
  assert (Hl2' : lock_held w2 = false) by congruence.
  assert (Hb2' : sql_budget w2 = None) by congruence.
  destruct (commit_run_ffmpeg_ok p (SStr (digest (f_bytes f))) (SFloat (f_mtime f)) st
              (SStr cd) w2 Hl2' Hb2')
    as (w3 & Hc3 & _ & (Hfs3 & Hl3 & Hb3 & _) & _).
  destruct (commit_run_ffmpeg_rows _ _ _ _ _ _ _ Hl2' Hb2' Hc3)
    as (Hrow & Hother & Hrest).
  destruct (cleanup_database_ok w3) as (w' & Hc' & _ & _ & _ & _ & Hrows');
    [congruence..|].
  exists st, msg, cd, w'. split; [done|]. split.
  { unfold check_integrity. erewrite bind_Ok; cycle 1.
    { rewrite (verbose_step_run_ffmpeg _ _ _ _ _ _ _ _ _ _ Hp).
      erewrite bind_Ok by exact Hc3. reflexivity. }
    by erewrite bind_Ok by exact Hc'. }
  assert (Hfs : fs w3 = fs w) by congruence.
  split; [|split].
  - rewrite Hrows', Hfs, Hf, Hrow. cbn [text_affinity real_affinity].
    by rewrite Hn2, Hn1.
  - by rewrite Hrows', Hfs, Hf.
  - intros t q Hq. rewrite Hrows', Hfs, Hrest by done. by rewrite Hdb2, Hdb1.
Qed.

(** ** The pool mode with nothing to write *)

Definition nothing_pending (st : pending) : Prop :=
  mtime_updates_passed st = [] /\ mtime_updates_failed st = []
  /\ db_updates_passed st = [] /\ db_updates_failed st = [].

(** A batch commit of empty lists commits the store as it is. *)
Lemma batch_commit_empty st w :
  nothing_pending st ->
  lock_held w = false ->
  sql_budget w = None ->
  exists w',
    batch_commit st w = (Ok tt, w')
    /\ same_state w w'
    /\ trace w' = (EvRelease :: EvAcquire :: trace w)%list.
Proof.
  intros (H1 & H2 & H3 & H4) Hl Hb. unfold batch_commit. rewrite H1, H2, H3, H4.
  erewrite bind_Ok by (by apply acquire_lock_ok).
  unfold try_finally.
  erewrite bind_Ok by (by apply sql_connect_ok).
  cbn [executemany_update flush_db_updates].
  do 4 erewrite bind_Ok by reflexivity.
  rewrite sql_commit_ok by done. unfold release_lock.
  eexists. split; [reflexivity|]. split; [|reflexivity].
  unfold same_state. cbn. by rewrite Hl.
Qed.

Lemma pool_loop_cached completed st w :
  nothing_pending st ->
  lock_held w = false ->
  sql_budget w = None ->
  (forall p, p ∈ completed -> fresh w p) ->
  exists new st' w',
    pool_loop false completed st w = (Ok st', w')
    /\ nothing_pending st'
    /\ all_results st' = (all_results st ++ new)%list
    /\ same_state w w'
    /\ Forall (fun row : result_row => row.1.2 = PS (SStr "Cached result")) new
    /\ new.*2 = (fun p => PS (SStr p)) <$> completed
    /\ (forall p, count_event (EvFfmpeg p) w' = count_event (EvFfmpeg p) w).
Proof.
  revert st w. induction completed as [|p rest IH]; intros st w Hst Hl Hb Hfr.
  { exists [], st, w. rewrite app_nil_r. split; [done|]. split; [done|].
    split; [done|]. split; [apply same_state_refl|]. by repeat split. }
  destruct (Hfr p) as (f & r & Hf & Hr & Hm); [by left|].
  destruct (determine_action_present p f w Hf Hl Hb) as (w1 & Hd & Hs & Ht).
  rewrite Hr in Hd. unfold decision_tuple in Hd. rewrite decide_True in Hd by done.
  pose proof (process_file_of_decision _ _ _ _ _ Hd) as Hp. cbn in Hp.
  pose proof Hs as (Hfs1 & Hdb1 & Hl1 & Hb1 & _).
  assert (Hl1' : lock_held w1 = false) by congruence.
  assert (Hb1' : sql_budget w1 = None) by congruence.
  assert (Hcnt1 : forall q, count_event (EvFfmpeg q) w1 = count_event (EvFfmpeg q) w).
  { intros q. by apply (determine_action_no_ffmpeg p f w w1). }
  set (row := (PS (status r), PS (SStr "Cached result"), PS (SStr p)) : result_row).
  set (st1 := mkPending (all_results st ++ [row])%list (mtime_updates_passed st)
                (mtime_updates_failed st) (db_updates_passed st)
                (db_updates_failed st) (S (processed_count st))).
  assert (Hst1 : nothing_pending st1) by exact Hst.
  assert (exists st2 w2,
            (if (processed_count st1 mod 100 =? 0)%nat
             then run! batch_commit st1 in ret (flushed st1)
             else ret st1) w1 = (Ok st2, w2)
            /\ nothing_pending st2
            /\ all_results st2 = all_results st1
            /\ same_state w1 w2
            /\ forall q, count_event (EvFfmpeg q) w2 = count_event (EvFfmpeg q) w1)
    as (st2 & w2 & Hstep & Hst2 & Hres2 & Hs2 & Hcnt2).
  { destruct (_ =? _)%nat.
    - destruct (batch_commit_empty st1 w1 Hst1 Hl1' Hb1') as (w2 & Hbc & Hs2 & Ht2).
      exists (flushed st1), w2. split; [by erewrite bind_Ok by exact Hbc|].
      split; [by repeat split|]. split; [done|]. split; [done|].
      intros q. unfold count_event. rewrite Ht2.
      by rewrite !filter_cons, !decide_False by discriminate.
    - exists st1, w1. split; [done|]. split; [done|]. split; [done|].
      split; [apply same_state_refl|done]. }
  pose proof Hs2 as (Hfs2 & Hdb2 & Hl2 & Hb2 & _).
  destruct (IH st2 w2) as (new & st' & w' & Hloop & Hst' & Hres' & Hs' & Hall & Hpaths & Hcnt);
    [done|congruence|congruence| |].
  { intros q Hq. apply (fresh_preserved w); [congruence|by rewrite Hdb2, Hdb1|].
    apply Hfr. by right. }
  exists (row :: new), st', w'. split.
  { cbn [pool_loop]. erewrite bind_Ok by exact Hp.
    erewrite bind_Ok by reflexivity. erewrite bind_Ok by exact Hstep. exact Hloop. }
  split; [done|]. split.
  { rewrite Hres', Hres2. cbn [all_results st1]. by rewrite <- app_assoc. }
  split; [by eapply same_state_trans; [|eapply same_state_trans]|].
  split; [by constructor|]. split.
  { cbn [fmap list_fmap]. by rewrite <- Hpaths. }
  intros q. by rewrite Hcnt, Hcnt2, Hcnt1.
Qed.

Lemma nothing_pending_has_pending st : nothing_pending st -> has_pending st = false.
Proof. intros (H1 & H2 & H3 & H4). unfold has_pending. by rewrite H1, H2, H3, H4. Qed.

(** X16: the pool mode with nothing to write.  When every listed file has a
    record that carries its current mtime, with the lock free and sqlite not
    failing, a pool-mode run completes, returns one cached result per file,
    never invokes the verifier, and leaves in each partition the record of
    every path whose file exists, removing the others: the pool mode
    works when the store is up to date, for instance right after a verbose
    run. *)
Theorem pool_run_on_fresh_store audio_files w :
  lock_held w = false ->
  sql_budget w = None ->
  (forall p, p ∈ audio_files ->
     exists f r, fs w !! p = Some f /\ lookup_record (db w) p = Some r
                 /\ mtime r = SFloat (f_mtime f)) ->
  exists res w',
    check_integrity audio_files false false w = (Ok res, w')
    /\ res.*2 = (fun p => PS (SStr p)) <$> audio_files
    /\ Forall (fun row : result_row => row.1.2 = PS (SStr "Cached result")) res
    /\ (forall p, count_event (EvFfmpeg p) w' = count_event (EvFfmpeg p) w)
    /\ forall t q,
         rows t (db w') !! q
         = match fs w !! q with
           | Some _ => rows t (db w) !! q
           | None => None
           end.
Proof.
  intros Hl Hb Hfr.
  destruct (pool_loop_cached audio_files no_pending w) as
    (new & st' & w1 & Hloop & Hst' & Hres & Hs & Hall & Hpaths & Hcnt);
    [by repeat split|done|done|exact Hfr|].
  pose proof Hs as (Hfs1 & Hdb1 & Hl1 & Hb1 & _).
  destruct (cleanup_database_ok w1) as (w' & Hc & _ & _ & _ & Htr & Hrows);
    [congruence..|].
  exists (all_results st'), w'. split.
  { unfold check_integrity. erewrite bind_Ok; cycle 1.
    { erewrite bind_Ok by exact Hloop.
      rewrite (nothing_pending_has_pending _ Hst'). by erewrite bind_Ok by reflexivity. }
    by erewrite bind_Ok by exact Hc. }
  rewrite Hres. cbn [all_results no_pending app].
  split; [done|]. split; [done|]. split.
  - intros p. rewrite <- Hcnt. unfold count_event. rewrite Htr.
    by rewrite !filter_cons, !decide_False by discriminate.
  - intros t q. by rewrite Hrows, Hfs1, Hdb1.
Qed.

(** ** The batch commit and RUN results

    A batch that returns holds no RUN result: the DELETE loop and the INSERT
    comprehension of lines 146-163 (and 180-195) never both complete on a
    non-empty list, so no batch deletes a stale entry or inserts a record. *)
Lemma committed_batch_holds_no_run_result st w w' :
  batch_commit st w = (Ok tt, w') ->
  db_updates_passed st = [] /\ db_updates_failed st = [].
Proof.
  intros H. unfold batch_commit in H.
  apply bind_inv in H as [(? & w1 & _ & H)|(Hn & _)]; [|by destruct (Hn tt)].
  unfold try_finally, release_lock in H.
  match type of H with context [match ?body w1 with _ => _ end] =>
    destruct (body w1) as [[[]|e|] wb] eqn:Hb end; [|done..].
  clear H.
  apply bind_inv in Hb as [(c0 & w2 & _ & Hb)|(Hn & _)]; [|by destruct (Hn tt)].
  apply bind_inv in Hb as [(c1 & w3 & _ & Hb)|(Hn & _)]; [|by destruct (Hn tt)].
  apply bind_inv in Hb as [(c2 & w4 & _ & Hb)|(Hn & _)]; [|by destruct (Hn tt)].
  apply bind_inv in Hb as [(c3 & w5 & H3 & Hb)|(Hn & _)]; [|by destruct (Hn tt)].
  apply bind_inv in Hb as [(c4 & w6 & H4 & Hb)|(Hn & _)]; [|by destruct (Hn tt)].
  split.
  - destruct (db_updates_passed st) as [|u l]; [done|].
    by destruct (flush_db_updates_nonempty _ _ _ _ _ _ _ H3 c3).
  - destruct (db_updates_failed st) as [|u l]; [done|].
    by destruct (flush_db_updates_nonempty _ _ _ _ _ _ _ H4 c4).
Qed.

End Engine.

(** ** Scenarios

    Concrete worlds: one audio file [a.flac], a tool that reports nothing on
    its error channel, a probe that answers [flac]. *)

(** Stands for the digest of [calculate_file_hash]. *)
Definition md5_stub (bytes : string) : string := "md5:" ++ bytes.

(** SQLite's text for a REAL with an integral value. *)
Definition sqlite_real_text (x : Z) : string := pretty x ++ ".0".

(** None of the texts in the scenarios is a numeric literal. *)
Definition sqlite_text_real (s : string) : option Z := None.

Definition silent_tool (p : string) : proc_result := Completed "" "".

Definition flac_probe (p : string) : proc_result :=
  Completed ("flac" ++ String (ascii_of_nat 10) "") "".

Definition a_flac : file := mkFile 100 "abc".
Definition a_flac_touched : file := mkFile 200 "abc".

Definition empty_store : store := mkStore ∅ ∅.

Definition passed_row : row :=
  mkRow (SStr "md5:abc") (SFloat 100) (SStr "PASSED") (SStr "t0") (SStr "flac").

Definition failed_row : row :=
  mkRow (SStr "md5:old") (SFloat 50) (SStr "FAILED") (SStr "t0") (SStr "flac").

(** An empty store and the file on disk. *)
Definition w_fresh : world :=
  mkWorld {[ "a.flac" := a_flac ]} empty_store false None "t0"
    silent_tool flac_probe [].

(** The file verified earlier as PASSED, then touched: same bytes, new
    mtime, later clock. *)
Definition w_touched : world :=
  mkWorld {[ "a.flac" := a_flac_touched ]} (mkStore {[ "a.flac" := passed_row ]} ∅)
    false None "t1" silent_tool flac_probe [].

(** A store that breaks exclusivity: the path is in both partitions. *)
Definition w_both : world :=
  mkWorld {[ "a.flac" := a_flac ]}
    (mkStore {[ "a.flac" := passed_row ]} {[ "a.flac" := failed_row ]})
    false None "t1" silent_tool flac_probe [].

(** The recorded file was deleted from disk; another one is still there. *)
Definition w_deleted : world :=
  mkWorld {[ "b.flac" := a_flac ]}
    (mkStore {[ "a.flac" := passed_row; "b.flac" := passed_row ]} ∅)
    false None "t1" silent_tool flac_probe [].

(** sqlite3 fails at its second call. *)
Definition w_faulty : world :=
  mkWorld {[ "a.flac" := a_flac ]} (mkStore {[ "a.flac" := passed_row ]} ∅)
    false (Some 1%nat) "t1" silent_tool flac_probe [].

(** The tool writes a diagnostic line on its error channel. *)
Definition w_noisy : world :=
  mkWorld {[ "a.flac" := a_flac ]} empty_store false None "t0"
    (fun _ => Completed "" ("x" ++ String (ascii_of_nat 10) "")) flac_probe [].

Definition run_engine := check_integrity md5_stub sqlite_real_text sqlite_text_real.

(** *** The decision on concrete stores *)

Lemma decide_follows_policy_witness :
  fs w_touched !! "a.flac" = Some a_flac_touched
  /\ lock_held w_touched = false
  /\ sql_budget w_touched = None
  /\ exists t w',
       determine_action md5_stub "a.flac" false w_touched = (Ok t, w')
       /\ action_of t
          = Some (decide_spec (lookup_record (db w_touched) "a.flac")
                    (f_mtime a_flac_touched) (md5_stub (f_bytes a_flac_touched)))
       /\ (forall o p, action_of t = Some (USE_CACHED o) ->
             count_event (EvHash p) w' = count_event (EvHash p) w_touched)
       /\ db w' = db w_touched.
Proof.
  split; [reflexivity|]. split; [reflexivity|]. split; [reflexivity|].
  apply (decide_follows_policy md5_stub "a.flac" a_flac_touched w_touched);
    reflexivity.
Defined.

Lemma passed_record_decides_witness :
  fs w_both !! "a.flac" = Some a_flac
  /\ lock_held w_both = false
  /\ sql_budget w_both = None
  /\ passed (db w_both) !! "a.flac" = Some passed_row
  /\ failed (db w_both) !! "a.flac" = Some failed_row
  /\ exists t w',
       determine_action md5_stub "a.flac" false w_both = (Ok t, w')
       /\ t = decision_tuple (Some passed_row) (f_mtime a_flac)
                (md5_stub (f_bytes a_flac))
       /\ action_of t
          = Some (decide_spec (Some passed_row) (f_mtime a_flac)
                    (md5_stub (f_bytes a_flac)))
       /\ (forall p, count_event (EvSelect failed_files p) w'
                     = count_event (EvSelect failed_files p) w_both).
Proof.
  split; [reflexivity|]. split; [reflexivity|]. split; [reflexivity|].
  split; [reflexivity|]. split; [reflexivity|].
  apply (passed_record_decides md5_stub "a.flac" a_flac passed_row w_both);
    reflexivity.
Defined.

(** The decision of the tie-break scenario is USE_CACHED(PASSED), although
    the failed partition holds a FAILED record of another mtime. *)
Lemma both_partitions_use_passed :
  fst (determine_action md5_stub "a.flac" false w_both)
  = Ok [SStr "USE_CACHED"; SStr "PASSED"; SNone; SFloat 100].
Proof. vm_compute. reflexivity. Qed.

(** *** Forced recheck *)

(** C4, as stated, fails: with [force_recheck] on a path that is not on disk
    the decision is FILE_NOT_FOUND, not RUN. *)
Lemma forced_recheck_on_missing_file :
  determine_action md5_stub "gone.flac" true w_fresh
  = (Ok file_not_found, log (EvStat "gone.flac") w_fresh)
  /\ action_of file_not_found = Some NOT_FOUND.
Proof. split; reflexivity. Qed.

(** *** The verifier adapter *)

(** C6, as stated, fails: the tool wrote an [x] and a line feed on its
    error channel; the message of the result is [x] alone. *)
Lemma stderr_is_stripped :
  ffmpeg w_noisy "a.flac" = Completed "" ("x" ++ String (ascii_of_nat 10) "")
  /\ fst (check_single_file "a.flac" w_noisy) = Ok ("FAILED", "x", "a.flac", "flac").
Proof. split; vm_compute; reflexivity. Qed.

(** *** The REFRESH commit *)

(** C5, as stated, fails: the REFRESH commit, issued when the clock reads
    [t1], leaves the record's last_checked at [t0]. *)
Lemma refresh_keeps_last_checked :
  now_iso w_touched = "t1"
  /\ exists res w',
       verbose_loop md5_stub sqlite_real_text sqlite_text_real false ["a.flac"] []
         w_touched = (Ok res, w')
       /\ passed (db w') !! "a.flac"
          = Some (mkRow (SStr "md5:abc") (SFloat 200) (SStr "PASSED") (SStr "t0")
                    (SStr "flac")).
Proof.
  split; [reflexivity|]. eexists _, _. split; [vm_compute; reflexivity|].
  vm_compute. reflexivity.
Qed.

Lemma refresh_commit_frame_witness :
  lock_held w_touched = false
  /\ sql_budget w_touched = None
  /\ fs w_touched !! "a.flac" = Some a_flac_touched
  /\ lookup_record (db w_touched) "a.flac" = Some passed_row
  /\ rows passed_files (db w_touched) !! "a.flac" = Some passed_row
  /\ table_of (PS (status passed_row)) = passed_files
  /\ mtime passed_row <> SFloat (f_mtime a_flac_touched)
  /\ file_hash passed_row = SStr (md5_stub (f_bytes a_flac_touched))
  /\ exists w',
       verbose_loop md5_stub sqlite_real_text sqlite_text_real false ["a.flac"] []
         w_touched
       = (Ok [(PS (status passed_row), PS (SStr "Cached result (hash matches)"),
               PS (SStr "a.flac"))], w')
       /\ rows passed_files (db w') !! "a.flac"
          = Some (set_mtime (SFloat (f_mtime a_flac_touched)) passed_row)
       /\ (forall p, p <> "a.flac" ->
             rows passed_files (db w') !! p = rows passed_files (db w_touched) !! p)
       /\ rows (other_table passed_files) (db w')
          = rows (other_table passed_files) (db w_touched)
       /\ (forall p, count_event (EvFfmpeg p) w' = count_event (EvFfmpeg p) w_touched).
Proof.
  split; [reflexivity|]. split; [reflexivity|]. split; [reflexivity|].
  split; [reflexivity|]. split; [reflexivity|]. split; [reflexivity|].
  split; [discriminate|]. split; [reflexivity|].
  apply (refresh_commit_frame md5_stub sqlite_real_text sqlite_text_real "a.flac"
           a_flac_touched passed_row passed_files w_touched);
    first [reflexivity | discriminate].
Defined.

(** *** The cleanup sweep *)

Lemma cleanup_sweep_postcondition_witness :
  lock_held w_deleted = false
  /\ sql_budget w_deleted = None
  /\ exists w',
       cleanup_database sqlite_real_text w_deleted = (Ok tt, w')
       /\ fs w' = fs w_deleted
       /\ lock_held w' = false
       /\ forall t p,
            rows t (db w') !! p
            = match fs w_deleted !! p with
              | Some _ => rows t (db w_deleted) !! p
              | None => None
              end.
Proof.
  split; [reflexivity|]. split; [reflexivity|].
  apply (cleanup_sweep_postcondition sqlite_real_text w_deleted); reflexivity.
Defined.

(** The record of the deleted file is gone, the other one is as before. *)
Lemma sweep_removes_deleted_file :
  db (snd (cleanup_database sqlite_real_text w_deleted))
  = mkStore {[ "b.flac" := passed_row ]} ∅.
Proof. vm_compute. reflexivity. Qed.

(** *** Exclusivity and the lock *)

(** A RUN result FAILED for a path recorded as PASSED moves the path. *)
Lemma outcome_flip_moves_the_record :
  db (snd (commit_run_ffmpeg sqlite_real_text sqlite_text_real
             (PT [SStr "a.flac"; SStr "md5:xyz"; SFloat 300; SStr "FAILED";
                  SStr "flac"]) w_touched))
  = mkStore ∅
      {[ "a.flac" := mkRow (SStr "md5:xyz") (SFloat 300) (SStr "FAILED") (SStr "t1")
                       (SStr "flac") ]}.
Proof. vm_compute. reflexivity. Qed.

Lemma partitions_stay_exclusive_witness :
  exclusive (db w_touched)
  /\ exclusive
       (db (perform_all md5_stub sqlite_real_text sqlite_text_real
              [TxRunFfmpeg (PT [SStr "a.flac"; SStr "md5:xyz"; SFloat 300;
                                SStr "FAILED"; SStr "flac"]);
               TxCheckIntegrity ["a.flac"] false false; TxCleanup] w_touched)).
Proof.
  assert (He : exclusive (db w_touched)) by (intros p; right; apply lookup_empty).
  split; [exact He|].
  apply (proj1 (partitions_stay_exclusive md5_stub sqlite_real_text sqlite_text_real)).
  exact He.
Defined.

Lemma lock_released_on_every_exit_witness :
  lock_held w_faulty = false
  /\ fst (cleanup_database sqlite_real_text w_faulty) = Raise OperationalError
  /\ lock_held (snd (cleanup_database sqlite_real_text w_faulty)) = false.
Proof.
  split; [reflexivity|]. split; [vm_compute; reflexivity|].
  refine (proj1 (proj1 (proj2 (proj2 (proj2 (proj2
            (lock_released_on_every_exit md5_stub sqlite_real_text
               sqlite_text_real)))))
            w_faulty _ _ eq_refl _)).
  apply surjective_pairing.
Defined.

(** sqlite3 fails inside the sweep: the call raises and the lock is free. *)
Lemma lock_released_when_sqlite_fails :
  fst (cleanup_database sqlite_real_text w_faulty) = Raise OperationalError
  /\ lock_held (snd (cleanup_database sqlite_real_text w_faulty)) = false
  /\ trace (snd (cleanup_database sqlite_real_text w_faulty)) = [EvRelease; EvAcquire].
Proof. repeat split; vm_compute; reflexivity. Qed.

(** *** An outcome that flipped *)

(** The file recorded as FAILED was repaired: new bytes, new mtime, and the
    tool now reports nothing. *)
Definition a_flac_repaired : file := mkFile 200 "new".

Definition w_flipped : world :=
  mkWorld {[ "a.flac" := a_flac_repaired ]} (mkStore ∅ {[ "a.flac" := failed_row ]})
    false None "t1" silent_tool flac_probe [].

(** The [update_info] of process_file.py line 14 for that file. *)
Definition flipped_update : pyval :=
  PT [SStr "a.flac"; SStr "md5:new"; SFloat 200; SStr "PASSED"; SStr "flac"].

Definition flipped_batch : pending :=
  mkPending [(PS (SStr "PASSED"), PS (SStr ""), PS (SStr "a.flac"))] [] []
    [flipped_update] [] 1.

(** C2 fails on the code in the batch commit of the pool loop (lines
    146-163 and 180-195).  [a.flac] is recorded as FAILED, was repaired, and
    the verifier now says PASSED.
    (a) [process_file] returns the RUN result with the five-item
    [update_info]; the pool loop hands it to the batch as
    [db_updates_passed].
    (b) The batch commit of that result raises ValueError in the loop header
    that binds four names: the stale FAILED entry is not deleted, no PASSED
    record is inserted, and the lock is released.
    (c) So does the whole pool-mode run: the verifier ran once, the run
    raises and the store is the one from before the run.
    (d) No batch does better: a batch commit that returns held no RUN
    result at all.
    (e) The per-file commit of the verbose loop on the same input does what
    the specification asks: the FAILED entry is deleted and the PASSED
    record inserted in one transaction.
    (f) The invariant itself is never broken: no sequence of transactions
    puts a path in both partitions. *)
Theorem flipped_outcome_is_not_committed_by_batch :
  (exists w1,
     process_file md5_stub "a.flac" false w_flipped
     = (Ok [PS (SStr "RUN_FFMPEG"); PS (SStr "PASSED"); PS (SStr "");
            PS (SStr "a.flac"); flipped_update], w1))
  /\ (exists st w1,
        pool_loop md5_stub sqlite_real_text sqlite_text_real false ["a.flac"]
          no_pending w_flipped = (Ok st, w1)
        /\ st = flipped_batch /\ db w1 = db w_flipped)
  /\ (exists w',
        batch_commit sqlite_real_text sqlite_text_real flipped_batch w_flipped
        = (Raise ValueError, w')
        /\ failed (db w') !! "a.flac" = Some failed_row
        /\ passed (db w') !! "a.flac" = None
        /\ lock_held w' = false)
  /\ (exists w',
        run_engine ["a.flac"] false false w_flipped = (Raise ValueError, w')
        /\ db w' = db w_flipped
        /\ count_event (EvFfmpeg "a.flac") w' = 1%nat)
  /\ (forall st w w',
        batch_commit sqlite_real_text sqlite_text_real st w = (Ok tt, w') ->
        db_updates_passed st = [] /\ db_updates_failed st = [])
  /\ (exists w',
        run_engine ["a.flac"] true false w_flipped
        = (Ok [(PS (SStr "PASSED"), PS (SStr ""), PS (SStr "a.flac"))], w')
        /\ passed (db w') !! "a.flac"
           = Some (mkRow (SStr "md5:new") (SFloat 200) (SStr "PASSED") (SStr "t1")
                     (SStr "flac"))
        /\ failed (db w') !! "a.flac" = None)
  /\ (forall txs w,
        exclusive (db w) ->
        exclusive (db (perform_all md5_stub sqlite_real_text sqlite_text_real txs w))).
Proof.
  split; [|split; [|split; [|split; [|split; [|split]]]]].
  - eexists. vm_compute. reflexivity.
  - eexists _, _. split; [vm_compute; reflexivity|]. split; vm_compute; reflexivity.
  - eexists. split; [vm_compute; reflexivity|].
    split; [vm_compute; reflexivity|]. split; vm_compute; reflexivity.
  - eexists. split; [vm_compute; reflexivity|]. split; vm_compute; reflexivity.
  - intros st w w'. apply committed_batch_holds_no_run_result.
  - eexists. split; [vm_compute; reflexivity|]. split; vm_compute; reflexivity.
  - intros txs. induction txs as [|tx rest IH]; intros w He; [done|].
    cbn [perform_all foldl]. apply IH. by apply perform_keeps.
Qed.

(** *** A file that vanished *)

(** C3 fails on the code: with a path that is not on disk first in the list,
    [process_file] returns four values, the loop that binds five raises
    ValueError, in the verbose loop and in the pool loop alike; the result of
    [a.flac] is never collected and the sweep is not reached. *)
Theorem missing_file_aborts_the_run :
  process_file md5_stub "gone.flac" false w_fresh
  = (Ok [PS (SStr "ERROR"); PS (SStr "Unknown action"); PS (SStr "gone.flac");
         PS SNone], log (EvStat "gone.flac") w_fresh)
  /\ run_engine ["gone.flac"; "a.flac"] true false w_fresh
     = (Raise ValueError, log (EvStat "gone.flac") w_fresh)
  /\ run_engine ["gone.flac"; "a.flac"] false false w_fresh
     = (Raise ValueError, log (EvStat "gone.flac") w_fresh).
Proof.
  split; [|split].
  - by apply process_file_missing.
  - by apply missing_file_stops_the_run.
  - by apply missing_file_stops_the_run.
Qed.

(** *** Two runs in a row *)

(** C7 fails on the code in the pool loop (the default mode).
    (a) Empty store, [a.flac] on disk: the first run verifies the file and
    raises ValueError in its batch commit, the store stays empty, and the
    decision after it is RUN again.
    (b) [a.flac] recorded and touched: the first run completes, its batch
    binds the path to the mtime column and the mtime to the path, so the
    record keeps its old mtime and the decision after it is REFRESH again.
    (c) The verbose loop on the input of (a) records the file, and the
    decision after it is USE_CACHED. *)
Theorem pool_run_is_not_idempotent :
  (exists w1 t w2,
     run_engine ["a.flac"] false false w_fresh = (Raise ValueError, w1)
     /\ db w1 = empty_store
     /\ count_event (EvFfmpeg "a.flac") w1 = 1%nat
     /\ determine_action md5_stub "a.flac" false w1 = (Ok t, w2)
     /\ action_of t = Some RUN)
  /\ (exists res w1 t w2,
        run_engine ["a.flac"] false false w_touched = (Ok res, w1)
        /\ db w1 = db w_touched
        /\ determine_action md5_stub "a.flac" false w1 = (Ok t, w2)
        /\ action_of t = Some (REFRESH (SStr "PASSED") "md5:abc" 200))
  /\ (exists res w1 t w2,
        run_engine ["a.flac"] true false w_fresh = (Ok res, w1)
        /\ db w1 = mkStore {[ "a.flac" := passed_row ]} ∅
        /\ determine_action md5_stub "a.flac" false w1 = (Ok t, w2)
        /\ action_of t = Some (USE_CACHED (SStr "PASSED"))).
Proof.
  split; [|split].
  - eexists _, _, _. split; [vm_compute; reflexivity|].
    split; [vm_compute; reflexivity|]. split; [vm_compute; reflexivity|].
    split; vm_compute; reflexivity.
  - eexists _, _, _, _. split; [vm_compute; reflexivity|].
    split; [vm_compute; reflexivity|]. split; vm_compute; reflexivity.
  - eexists _, _, _, _. split; [vm_compute; reflexivity|].
    split; [vm_compute; reflexivity|]. split; vm_compute; reflexivity.
Qed.

(** *** The further properties on the scenarios *)

(** The file verified earlier as PASSED and not touched since. *)
Definition w_cached : world :=
  mkWorld {[ "a.flac" := a_flac ]} (mkStore {[ "a.flac" := passed_row ]} ∅)
    false None "t1" silent_tool flac_probe [].

Definition refreshed_results : list result_row :=
  [(PS (SStr "PASSED"), PS (SStr "Cached result (hash matches)"), PS (SStr "a.flac"))].

Definition run_update : pyval :=
  PT [SStr "a.flac"; SStr "md5:abc"; SFloat 100; SStr "PASSED"; SStr "flac"].

Lemma well_formed_touched : well_formed (db w_touched).
Proof.
  intros t p r H. destruct t; cbn in H.
  - by apply lookup_singleton_Some in H as [_ <-].
  - by rewrite lookup_empty in H.
Qed.

Lemma well_formed_fresh : well_formed (db w_fresh).
Proof. intros t p r H. destruct t; cbn in H; by rewrite lookup_empty in H. Qed.

Lemma known_touched : known (db w_touched).
Proof.
  intros t p r H. destruct t; cbn in H.
  - apply lookup_singleton_Some in H as [_ <-]. by left.
  - by rewrite lookup_empty in H.
Qed.

Lemma process_file_verifies_only_on_run_witness :
  lock_held w_fresh = false
  /\ sql_budget w_fresh = None
  /\ exists r w',
       process_file md5_stub "a.flac" false w_fresh = (Ok r, w')
       /\ db w' = db w_fresh
       /\ (r !! 0%nat = Some (PS (SStr "RUN_FFMPEG")) ->
           forall q, count_event (EvFfmpeg q) w'
                     = ((if decide (q = "a.flac") then 1 else 0)
                        + count_event (EvFfmpeg q) w_fresh)%nat)
       /\ (r !! 0%nat <> Some (PS (SStr "RUN_FFMPEG")) ->
           forall q, count_event (EvFfmpeg q) w' = count_event (EvFfmpeg q) w_fresh).
Proof.
  split; [reflexivity|]. split; [reflexivity|].
  apply (process_file_verifies_only_on_run md5_stub "a.flac" false w_fresh);
    reflexivity.
Defined.

Lemma run_result_is_recorded_witness :
  fs w_fresh !! "a.flac" = Some a_flac
  /\ decide_spec (lookup_record (db w_fresh) "a.flac") (f_mtime a_flac)
       (md5_stub (f_bytes a_flac)) = RUN
  /\ exists st msg cd w',
       classify "a.flac" (ffmpeg w_fresh "a.flac") (probed_codec w_fresh "a.flac")
       = (st, msg, "a.flac", cd)
       /\ run_engine ["a.flac"] true false w_fresh
          = (Ok [(PS (SStr st), PS (SStr msg), PS (SStr "a.flac"))], w')
       /\ rows (table_of (PS (SStr st))) (db w') !! "a.flac"
          = Some (mkRow (SStr (md5_stub (f_bytes a_flac))) (SFloat (f_mtime a_flac))
                    (SStr st) (SStr (now_iso w_fresh)) (SStr cd))
       /\ rows (other_table (table_of (PS (SStr st)))) (db w') !! "a.flac" = None
       /\ forall t q, q <> "a.flac" ->
            rows t (db w') !! q
            = match fs w_fresh !! q with
              | Some _ => rows t (db w_fresh) !! q
              | None => None
              end.
Proof.
  split; [reflexivity|]. split; [reflexivity|].
  apply (run_result_is_recorded md5_stub sqlite_real_text sqlite_text_real
           "a.flac" a_flac false w_fresh); [reflexivity..|].
  right. reflexivity.
Defined.

Lemma later_run_result_replaces_earlier_witness :
  lock_held w_touched = false
  /\ sql_budget w_touched = None
  /\ exists w1 w2 w2',
       commit_run_ffmpeg sqlite_real_text sqlite_text_real
         (PT [SStr "a.flac"; SStr "md5:abc"; SFloat 200; SStr "PASSED"; SStr "flac"])
         w_touched = (Ok tt, w1)
       /\ commit_run_ffmpeg sqlite_real_text sqlite_text_real
            (PT [SStr "a.flac"; SStr "md5:xyz"; SFloat 300; SStr "FAILED"; SStr "flac"])
            w1 = (Ok tt, w2)
       /\ commit_run_ffmpeg sqlite_real_text sqlite_text_real
            (PT [SStr "a.flac"; SStr "md5:xyz"; SFloat 300; SStr "FAILED"; SStr "flac"])
            w_touched = (Ok tt, w2')
       /\ db w2 = db w2'.
Proof.
  split; [reflexivity|]. split; [reflexivity|].
  apply (later_run_result_replaces_earlier sqlite_real_text sqlite_text_real
           "a.flac" (SStr "md5:abc") (SFloat 200) "PASSED" (SStr "flac")
           (SStr "md5:xyz") (SFloat 300) "FAILED" (SStr "flac") w_touched);
    reflexivity.
Defined.

Lemma cleanup_sweep_is_idempotent_witness :
  lock_held w_deleted = false
  /\ sql_budget w_deleted = None
  /\ exists w1 w2,
       cleanup_database sqlite_real_text w_deleted = (Ok tt, w1)
       /\ cleanup_database sqlite_real_text w1 = (Ok tt, w2)
       /\ db w2 = db w1
       /\ ((forall t p, is_Some (rows t (db w_deleted) !! p) ->
                        is_Some (fs w_deleted !! p)) ->
           db w1 = db w_deleted).
Proof.
  split; [reflexivity|]. split; [reflexivity|].
  apply (cleanup_sweep_is_idempotent sqlite_real_text w_deleted); reflexivity.
Defined.

Lemma verbose_run_postcondition_witness :
  lock_held w_touched = false
  /\ sql_budget w_touched = None
  /\ well_formed (db w_touched)
  /\ exists res w1,
       run_engine ["a.flac"] true false w_touched = (Ok res, w1)
       /\ res.*2 = (fun p => PS (SStr p)) <$> ["a.flac"]
       /\ (forall p, p ∈ ["a.flac"] ->
             exists f r, fs w_touched !! p = Some f
                         /\ lookup_record (db w1) p = Some r
                         /\ mtime r = SFloat (f_mtime f))
       /\ (forall t q, q ∉ ["a.flac"] ->
             rows t (db w1) !! q
             = match fs w_touched !! q with
               | Some _ => rows t (db w_touched) !! q
               | None => None
               end)
       /\ well_formed (db w1)
       /\ fs w1 = fs w_touched
       /\ lock_held w1 = false.
Proof.
  split; [reflexivity|]. split; [reflexivity|]. split; [exact well_formed_touched|].
  apply (verbose_run_postcondition md5_stub sqlite_real_text sqlite_text_real
           ["a.flac"] w_touched); [reflexivity|reflexivity|exact well_formed_touched|].
  intros p ->%list_elem_of_singleton. exists a_flac_touched. reflexivity.
Defined.

Lemma verbose_run_is_idempotent_witness :
  lock_held w_fresh = false
  /\ sql_budget w_fresh = None
  /\ well_formed (db w_fresh)
  /\ exists res1 w1,
       run_engine ["a.flac"] true false w_fresh = (Ok res1, w1)
       /\ exists res2 w2,
            run_engine ["a.flac"] true false w1 = (Ok res2, w2)
            /\ Forall (fun row : result_row => row.1.2 = PS (SStr "Cached result")) res2
            /\ length res2 = length ["a.flac"]
            /\ (forall p, count_event (EvFfmpeg p) w2 = count_event (EvFfmpeg p) w1)
            /\ db w2 = db w1.
Proof.
  split; [reflexivity|]. split; [reflexivity|]. split; [exact well_formed_fresh|].
  apply (verbose_run_is_idempotent md5_stub sqlite_real_text sqlite_text_real
           ["a.flac"] w_fresh); [reflexivity|reflexivity|exact well_formed_fresh|].
  intros p ->%list_elem_of_singleton. exists a_flac. reflexivity.
Defined.

(** The record of the deleted file, which the run was not given, is swept. *)
Lemma verbose_run_leaves_other_records_witness :
  ("a.flac" ∉ ["b.flac"])
  /\ (rows passed_files (db (snd (run_engine ["b.flac"] true false w_deleted))) !! "a.flac"
      = rows passed_files (db w_deleted) !! "a.flac"
      \/ rows passed_files (db (snd (run_engine ["b.flac"] true false w_deleted)))
           !! "a.flac" = None).
Proof.
  assert (H : "a.flac" ∉ ["b.flac"]) by (by intros ?%list_elem_of_singleton).
  split; [exact H|].
  exact (verbose_run_leaves_other_records md5_stub sqlite_real_text sqlite_text_real
           ["b.flac"] false w_deleted passed_files "a.flac" H).
Defined.

Lemma summary_counts_add_up_witness :
  known (db w_touched)
  /\ fst (run_engine ["a.flac"] false false w_touched) = Ok refreshed_results
  /\ refreshed_results.*2 = (fun p => PS (SStr p)) <$> ["a.flac"]
  /\ (passed_count refreshed_results + failed_count refreshed_results
      = length ["a.flac"])%nat
  /\ length (failed_log_rows refreshed_results) = failed_count refreshed_results
  /\ known (db (snd (run_engine ["a.flac"] false false w_touched))).
Proof.
  assert (H : fst (run_engine ["a.flac"] false false w_touched) = Ok refreshed_results)
    by (vm_compute; reflexivity).
  split; [exact known_touched|]. split; [exact H|].
  apply (summary_counts_add_up md5_stub sqlite_real_text sqlite_text_real
           ["a.flac"] false false w_touched refreshed_results
           (snd (run_engine ["a.flac"] false false w_touched)) known_touched).
  rewrite <- H. apply surjective_pairing.
Defined.

(** The refresh of the touched file is not stored: the record is the one
    from before the run. *)
Lemma pool_run_stores_no_result_witness :
  rows passed_files (db (snd (run_engine ["a.flac"] false false w_touched))) !! "a.flac"
  = Some passed_row
  /\ exists r,
       rows passed_files (db w_touched) !! "a.flac" = Some r
       /\ file_hash passed_row = file_hash r /\ status passed_row = status r
       /\ last_checked passed_row = last_checked r /\ codec passed_row = codec r.
Proof.
  assert (H : rows passed_files
                (db (snd (run_engine ["a.flac"] false false w_touched))) !! "a.flac"
              = Some passed_row) by (vm_compute; reflexivity).
  split; [exact H|].
  exact (pool_run_stores_no_result md5_stub sqlite_real_text sqlite_text_real
           ["a.flac"] false w_touched passed_files "a.flac" passed_row H).
Defined.

Lemma batch_with_run_result_is_lost_witness :
  db_updates_passed (mkPending [] [] [] [run_update] [] 1) <> []
  /\ db (snd (batch_commit sqlite_real_text sqlite_text_real
                (mkPending [] [] [] [run_update] [] 1) w_fresh)) = db w_fresh
  /\ fst (batch_commit sqlite_real_text sqlite_text_real
            (mkPending [] [] [] [run_update] [] 1) w_fresh) <> Ok tt.
Proof.
  assert (H : db_updates_passed (mkPending [] [] [] [run_update] [] 1) <> [])
    by discriminate.
  split; [exact H|].
  apply (batch_with_run_result_is_lost sqlite_real_text sqlite_text_real
           (mkPending [] [] [] [run_update] [] 1) w_fresh); [by left|].
  apply surjective_pairing.
Defined.

Lemma pool_run_on_fresh_store_witness :
  lock_held w_cached = false
  /\ sql_budget w_cached = None
  /\ exists res w',
       run_engine ["a.flac"] false false w_cached = (Ok res, w')
       /\ res.*2 = (fun p => PS (SStr p)) <$> ["a.flac"]
       /\ Forall (fun row : result_row => row.1.2 = PS (SStr "Cached result")) res
       /\ (forall p, count_event (EvFfmpeg p) w' = count_event (EvFfmpeg p) w_cached)
       /\ forall t q,
            rows t (db w') !! q
            = match fs w_cached !! q with
              | Some _ => rows t (db w_cached) !! q
              | None => None
              end.
Proof.
  split; [reflexivity|]. split; [reflexivity|].
  apply (pool_run_on_fresh_store md5_stub sqlite_real_text sqlite_text_real
           ["a.flac"] w_cached); [reflexivity|reflexivity|].
  intros p ->%list_elem_of_singleton. exists a_flac, passed_row.
  split; [reflexivity|]. split; reflexivity.
Defined.
